(** * L2script: the line interpreter and its shape model

    A shallow embedding of [src/public/shape.ts] (the shape model) and of
    the interpreter module that imports it (registry, command table, line
    executor), followed by the properties of the specification that were
    checked against them.

    Conventions of the embedding.
    - JavaScript strings are [string]s of 8-bit code units; the scripts
      under study are ASCII (code unit 160 is kept as the no-break space).
    - JavaScript numbers are binary64 values ([number]): a finite value
      is the rational it denotes, which the format can represent, and
      parsing and arithmetic round to the nearest such value, ties to
      even, with overflow to an infinity.  The sign of zero is not kept:
      a zero of either sign compares and converts to a string as 0, and
      the program divides by 2 only.
    - Objects that the code mutates in place ([Point]) live in an explicit
      heap; immutable values ([Stroke]) and objects with one owner (a shape
      and its DOM element) are stored by value in the registry.
    - An element is told from every other by its node: the children of
      the svg element are nodes, and two shapes of the same name, one
      created after the other was removed, have different elements.
    - [items] of the state holds the shapes of the JavaScript object
      [items], and [debris] the values that are no shapes, which only a
      [create] that threw stores there.
    - The DOM keeps what it is given: an element stores the values of
      [style.fill], of its attributes and of [textContent] as they are
      assigned, and [setTimeout] the delay as it is passed.
    - [a[i]] on an array of words is [a !! i]: [None] is [undefined].
    - The interpreter is a module, so its code runs in strict mode.
    - Template literals passed to [log] are kept structured ([message]):
      one constructor per call site, holes as arguments. *)

From Stdlib Require Import ZArith QArith Qabs Qround Qcanon String Ascii List
  Bool Lia.
From stdpp Require Import gmap strings list fin_maps.

Local Open Scope string_scope.
Local Open Scope list_scope.

(** ** JavaScript values used by the program *)

Module JS.

(** *** Numbers

    A number is a binary64 value.  A finite one is kept as the rational
    it denotes, with the evidence that this rational is one the format
    has; the results of the operations are rounded to the nearest such
    rational, ties to the even significand, and overflow to an
    infinity. *)

Definition pow2 (e : Z) : Q :=
  if (0 <=? e)%Z then inject_Z (2 ^ e) else 1 # Z.to_pos (2 ^ (- e)).

(** [floor (log2 q)] for a positive [q] *)
Definition ilog2 (q : Q) : Z :=
  let e := (Z.log2 (Qnum q) - Z.log2 (Zpos (Qden q)))%Z in
  if Qle_bool (pow2 e) q then e else (e - 1)%Z.

(** The exponent of the last place of the significand of [q]: 53 bits,
    and nothing finer than 2^-1074. *)
Definition ulp (q : Q) : Z := Z.max (ilog2 (Qabs q) - 52) (-1074).

Definition roundTiesToEven (x : Q) : Z :=
  let f := Qfloor x in
  match Qcompare (x - inject_Z f) (1 # 2) with
  | Lt => f
  | Gt => (f + 1)%Z
  | Eq => if Z.even f then f else (f + 1)%Z
  end.

(** The multiple of the last place that is nearest to [q]. *)
Definition nearest (q : Qc) : Q :=
  if Qeq_bool q 0 then 0
  else inject_Z (roundTiesToEven (q / pow2 (ulp q))) * pow2 (ulp q).

(** The finite values of the format: below 2^1024 and their own nearest
    value. *)
Definition representable (q : Qc) : bool :=
  Qeq_bool (nearest q) q && negb (Qle_bool (pow2 1024) (Qabs q)).

Record double : Type := mkDouble {
  rat : Qc;
  on_grid : representable rat = true
}.

Inductive number : Type :=
| Finite (d : double)
| Infinity (negative : bool)
| NaN.

Definition pack (q : Qc) : option double :=
  match Bool.bool_dec (representable q) true with
  | left H => Some (mkDouble q H)
  | right _ => None
  end.

Definition Qc_is_zero (q : Qc) : bool := Qc_eq_bool q (Q2Qc 0).
Definition Qc_is_neg (q : Qc) : bool :=
  match Qccompare q (Q2Qc 0) with Lt => true | _ => false end.

(** Rounding to the format: the nearest value when it is finite, else the
    infinity of the sign. *)
Definition round64 (q : Qc) : number :=
  match pack (Q2Qc (nearest q)) with
  | Some d => Finite d
  | None => Infinity (Qc_is_neg q)
  end.

Definition of_Z (z : Z) : number := round64 (Q2Qc (inject_Z z)).

Definition zero : number := of_Z 0.

(** [a + b] *)
Definition add (a b : number) : number :=
  match a, b with
  | NaN, _ | _, NaN => NaN
  | Finite x, Finite y => round64 (rat x + rat y)%Qc
  | Infinity s, Finite _ | Finite _, Infinity s => Infinity s
  | Infinity s, Infinity s' => if Bool.eqb s s' then Infinity s else NaN
  end.

(** [a * b] *)
Definition mul (a b : number) : number :=
  match a, b with
  | NaN, _ | _, NaN => NaN
  | Finite x, Finite y => round64 (rat x * rat y)%Qc
  | Infinity s, Finite y | Finite y, Infinity s =>
      if Qc_is_zero (rat y) then NaN
      else Infinity (xorb s (Qc_is_neg (rat y)))
  | Infinity s, Infinity s' => Infinity (xorb s s')
  end.

(** [a / 2] *)
Definition half (a : number) : number :=
  match a with
  | Finite x => round64 (rat x / Q2Qc 2)%Qc
  | other => other
  end.

(** [a > b] *)
Definition gt (a b : number) : bool :=
  match a, b with
  | NaN, _ | _, NaN => false
  | Finite x, Finite y =>
      match Qccompare (rat x) (rat y) with Gt => true | _ => false end
  | Infinity s, Finite _ => negb s
  | Finite _, Infinity s => s
  | Infinity s, Infinity s' => negb s && s'
  end.

(** ToBoolean on a number: NaN and zero are falsy. *)
Definition number_truthy (a : number) : bool :=
  match a with
  | NaN => false
  | Finite x => negb (Qc_is_zero (rat x))
  | Infinity _ => true
  end.

(** Whether two numbers are the same value: equality that computes. *)
Definition same_number (a b : number) : bool :=
  match a, b with
  | NaN, NaN => true
  | Infinity s, Infinity s' => Bool.eqb s s'
  | Finite x, Finite y => Qeq_bool (rat x) (rat y)
  | _, _ => false
  end.

(** *** Possibly absent arguments

    [words[i]] is [undefined] past the end of the array, and the shape
    methods take [null] for "leave unchanged". *)

Inductive arg (A : Type) : Type :=
| Undefined
| Null
| Given (a : A).
Arguments Undefined {A}.
Arguments Null {A}.
Arguments Given {A} a.

(** A value as stored in a DOM attribute or property, before the host
    converts it to text. *)
Inductive value : Type :=
| VUndefined
| VNull
| VString (s : string)
| VNumber (n : number).

Definition value_of_string (a : option string) : value :=
  match a with Some s => VString s | None => VUndefined end.

(** [String(x)] on a string or [undefined], as done for a property key
    and inside a template literal. *)
Definition to_key (a : option string) : string :=
  match a with Some s => s | None => "undefined" end.

(** [x || y] and [!x] on a string or [undefined]: the empty string and
    [undefined] are falsy. *)
Definition string_truthy (a : option string) : option string :=
  match a with
  | Some EmptyString | None => None
  | Some s => Some s
  end.

(** *** Strings *)

Definition is_space (a : ascii) : bool :=
  let n := nat_of_ascii a in
  ((9 <=? n)%nat && (n <=? 13)%nat) || (n =? 32)%nat || (n =? 160)%nat.

Definition is_digit (a : ascii) : bool :=
  let n := nat_of_ascii a in (48 <=? n)%nat && (n <=? 57)%nat.

Definition is_upper (a : ascii) : bool :=
  let n := nat_of_ascii a in (65 <=? n)%nat && (n <=? 90)%nat.

Definition is_lower (a : ascii) : bool :=
  let n := nat_of_ascii a in (97 <=? n)%nat && (n <=? 122)%nat.

Definition is_letter (a : ascii) : bool := is_upper a || is_lower a.

(** the class [[A-Za-z0-9_]] *)
Definition is_word (a : ascii) : bool :=
  is_letter a || is_digit a || Ascii.eqb a "_".

Definition to_upper (a : ascii) : ascii :=
  if is_lower a then ascii_of_nat (nat_of_ascii a - 32) else a.

Fixpoint trimStart (s : string) : string :=
  match s with
  | String a r => if is_space a then trimStart r else s
  | EmptyString => EmptyString
  end.

Fixpoint trimEnd (s : string) : string :=
  match s with
  | EmptyString => EmptyString
  | String a r =>
      match trimEnd r with
      | EmptyString => if is_space a then EmptyString else String a EmptyString
      | r' => String a r'
      end
  end.

(** [s.trim()] *)
Definition trim (s : string) : string := trimEnd (trimStart s).

(** [s.split(sep)] for a one-character separator: never empty. *)
Fixpoint split (sep : ascii) (s : string) : list string :=
  match s with
  | EmptyString => [EmptyString]
  | String a r =>
      if Ascii.eqb a sep then EmptyString :: split sep r
      else match split sep r with
           | w :: ws => String a w :: ws
           | [] => [String a EmptyString]
           end
  end.

(** [a.splice(1, 0, x)]: insert [x] at index 1 (at the end of a shorter
    array). *)
Definition splice1 (x : string) (a : list string) : list string :=
  match a with
  | [] => [x]
  | w :: ws => w :: x :: ws
  end.

(** [a.slice(2)] *)
Definition slice2 (a : list string) : list string := drop 2 a.

(** *** Regular expressions

    The three literals of the program use character classes,
    concatenation, alternation, [?], [+] and the anchors [^] and [$] at the
    two ends only.  Matching is by derivatives. *)

Inductive regex : Type :=
| Never
| Eps
| Lit (c : ascii)
| Cls (p : ascii -> bool)
| Cat (r1 r2 : regex)
| Alt (r1 r2 : regex)
| Star (r : regex).

Definition Plus (r : regex) : regex := Cat r (Star r).
Definition Opt (r : regex) : regex := Alt r Eps.

Fixpoint Str (s : string) : regex :=
  match s with
  | EmptyString => Eps
  | String a r => Cat (Lit a) (Str r)
  end.

Fixpoint nullable (r : regex) : bool :=
  match r with
  | Never | Lit _ | Cls _ => false
  | Eps | Star _ => true
  | Cat r1 r2 => nullable r1 && nullable r2
  | Alt r1 r2 => nullable r1 || nullable r2
  end.

Section Matching.
(** the [i] flag: characters are compared after canonicalisation *)
Variable ignoreCase : bool.

Definition same_char (c a : ascii) : bool :=
  if ignoreCase then Ascii.eqb (to_upper c) (to_upper a) else Ascii.eqb c a.

Fixpoint deriv (a : ascii) (r : regex) : regex :=
  match r with
  | Never | Eps => Never
  | Lit c => if same_char c a then Eps else Never
  | Cls p => if p a then Eps else Never
  | Cat r1 r2 =>
      if nullable r1 then Alt (Cat (deriv a r1) r2) (deriv a r2)
      else Cat (deriv a r1) r2
  | Alt r1 r2 => Alt (deriv a r1) (deriv a r2)
  | Star r1 => Cat (deriv a r1) (Star r1)
  end.

Fixpoint matches (r : regex) (s : string) : bool :=
  match s with
  | EmptyString => nullable r
  | String a s' => matches (deriv a r) s'
  end.
End Matching.

Record RegExp : Type := {
  anchorStart : bool;   (* the pattern begins with ^ *)
  body : regex;
  anchorEnd : bool;     (* the pattern ends with $ *)
  flagI : bool
}.

Definition anything : regex := Star (Cls (fun _ => true)).

(** What a pattern matches, as a relation: the reference for [matches]. *)
Inductive lang (i : bool) : regex -> string -> Prop :=
| lang_eps : lang i Eps EmptyString
| lang_lit (c a : ascii) :
    same_char i c a = true -> lang i (Lit c) (String a EmptyString)
| lang_cls (p : ascii -> bool) (a : ascii) :
    p a = true -> lang i (Cls p) (String a EmptyString)
| lang_cat (r1 r2 : regex) (s1 s2 : string) :
    lang i r1 s1 -> lang i r2 s2 -> lang i (Cat r1 r2) (String.append s1 s2)
| lang_alt_l (r1 r2 : regex) (s : string) :
    lang i r1 s -> lang i (Alt r1 r2) s
| lang_alt_r (r1 r2 : regex) (s : string) :
    lang i r2 s -> lang i (Alt r1 r2) s
| lang_star_nil (r : regex) : lang i (Star r) EmptyString
| lang_star_cons (r : regex) (s1 s2 : string) :
    lang i r s1 -> lang i (Star r) s2 -> lang i (Star r) (String.append s1 s2).

(** The text with its letters in upper case: how the [i] flag compares. *)
Fixpoint fold_case (s : string) : string :=
  match s with
  | EmptyString => EmptyString
  | String a r => String (to_upper a) (fold_case r)
  end.

(** [re.test(s)]: some substring matches, pinned to the ends the anchors
    name. *)
Definition test (re : RegExp) (s : string) : bool :=
  let r1 := if anchorStart re then body re else Cat anything (body re) in
  let r2 := if anchorEnd re then r1 else Cat r1 anything in
  matches (flagI re) r2 s.

(** *** [Number(text)]: the StringNumericLiteral grammar *)

Fixpoint take_while (p : ascii -> bool) (s : string) : string * string :=
  match s with
  | String a r =>
      if p a then let '(t, rest) := take_while p r in (String a t, rest)
      else (EmptyString, s)
  | EmptyString => (EmptyString, EmptyString)
  end.

Definition digit_value (a : ascii) : Z :=
  let n := Z.of_nat (nat_of_ascii a) in
  if is_digit a then n - 48
  else if is_upper a then n - 55
  else n - 87.

Definition is_hex_digit (a : ascii) : bool :=
  let n := nat_of_ascii a in
  is_digit a || ((65 <=? n)%nat && (n <=? 70)%nat)
             || ((97 <=? n)%nat && (n <=? 102)%nat).

Definition is_octal_digit (a : ascii) : bool :=
  let n := nat_of_ascii a in (48 <=? n)%nat && (n <=? 55)%nat.

Definition is_binary_digit (a : ascii) : bool :=
  let n := nat_of_ascii a in (48 <=? n)%nat && (n <=? 49)%nat.

Fixpoint digits_value (base : Z) (acc : Z) (s : string) : Z :=
  match s with
  | EmptyString => acc
  | String a r => digits_value base (acc * base + digit_value a)%Z r
  end.

Definition pow10 (e : Z) : Qc :=
  if (0 <=? e)%Z then Q2Qc (inject_Z (10 ^ e))
  else Q2Qc (1 # Z.to_pos (10 ^ (- e))).

Definition is_empty (s : string) : bool :=
  match s with EmptyString => true | _ => false end.

Definition read_sign (s : string) : bool * string :=
  match s with
  | String "+" r => (false, r)
  | String "-" r => (true, r)
  | _ => (false, s)
  end.

(** ExponentPart, or nothing; the text must end there. *)
Definition read_exponent (s : string) : option Z :=
  match s with
  | EmptyString => Some 0%Z
  | String c r =>
      if Ascii.eqb c "e" || Ascii.eqb c "E" then
        let '(neg, r1) := read_sign r in
        let '(ds, r2) := take_while is_digit r1 in
        if is_empty ds || negb (is_empty r2) then None
        else Some (if neg then - digits_value 10 0 ds else digits_value 10 0 ds)%Z
      else None
  end.

(** StrUnsignedDecimalLiteral *)
Definition unsigned_decimal (s : string) : option number :=
  if String.eqb s "Infinity" then Some (Infinity false)
  else
    let '(ip, s1) := take_while is_digit s in
    let '(fp, s2) :=
      match s1 with
      | String "." r => take_while is_digit r
      | _ => (EmptyString, s1)
      end in
    if is_empty ip && is_empty fp then None
    else
      match read_exponent s2 with
      | None => None
      | Some e =>
          let m := digits_value 10 (digits_value 10 0 ip) fp in
          Some (round64 (Q2Qc (inject_Z m)
                         * pow10 (e - Z.of_nat (String.length fp)))%Qc)
      end.

Definition negate (a : number) : number :=
  match a with
  | Finite d => round64 (- rat d)%Qc
  | Infinity s => Infinity (negb s)
  | NaN => NaN
  end.

(** NonDecimalIntegerLiteral: [0x], [0o], [0b] and their capitals *)
Definition non_decimal (s : string) : option number :=
  match s with
  | String "0" (String c r) =>
      let lit (p : ascii -> bool) (base : Z) :=
        let '(ds, rest) := take_while p r in
        if is_empty ds || negb (is_empty rest) then None
        else Some (of_Z (digits_value base 0 ds)) in
      if Ascii.eqb c "x" || Ascii.eqb c "X" then lit is_hex_digit 16%Z
      else if Ascii.eqb c "o" || Ascii.eqb c "O" then lit is_octal_digit 8%Z
      else if Ascii.eqb c "b" || Ascii.eqb c "B" then lit is_binary_digit 2%Z
      else None
  | _ => None
  end.

(** Whether the text is a StringNumericLiteral, and its value. *)
Definition numeric_literal (s : string) : option number :=
  let t := trim s in
  if is_empty t then Some zero
  else
    match non_decimal t with
    | Some n => Some n
    | None =>
        let '(neg, u) := read_sign t in
        match unsigned_decimal u with
        | Some n => Some (if neg then negate n else n)
        | None => None
        end
    end.

(** [Number(x)] for [x] a string or [undefined]; also the ToNumber that
    [>] and [*] apply to such an operand. *)
Definition Number (x : option string) : number :=
  match x with
  | None => NaN
  | Some s => match numeric_literal s with Some n => n | None => NaN end
  end.

End JS.


Import JS.

(** ** The shape model ([shape.ts]) *)

Module Point.

Record t : Type := mk { _x : number; _y : number }.

(** [x === null ? 0 : x], then [+=] *)
Definition moveBy (p : t) (x y : option number) : t :=
  {| _x := add (_x p) (match x with None => zero | Some v => v end);
     _y := add (_y p) (match y with None => zero | Some v => v end) |}.

(** [x === null ? this._x : x] *)
Definition moveTo (p : t) (x y : option number) : t :=
  {| _x := match x with None => _x p | Some v => v end;
     _y := match y with None => _y p | Some v => v end |}.

End Point.

#[global] Instance Point_inhabited : Inhabited Point.t :=
  populate (Point.mk zero zero).

(** The objects allocated so far.  A [new Point] takes the next free
    address; an element that the document creates is a new node, told
    from every other by its number. *)
Module Heap.

Record t : Type := mk { cells : gmap nat Point.t; next : nat; nodes : nat }.

Definition empty : t := mk ∅ 0 0.

Definition alloc (p : Point.t) (h : t) : nat * t :=
  (next h, mk (<[next h := p]> (cells h)) (S (next h)) (nodes h)).

Definition get (h : t) (l : nat) : Point.t := cells h !!! l.

Definition update (f : Point.t -> Point.t) (l : nat) (h : t) : t :=
  mk (alter f l (cells h)) (next h) (nodes h).

Definition node (h : t) : nat * t :=
  (nodes h, mk (cells h) (next h) (S (nodes h))).

End Heap.

Module Stroke.

Record t : Type := mk { color : string; width : number }.

(** [constructor(color = 'transparent', width = 1)]: a parameter that is
    [undefined] takes its default. *)
Definition new (color : option string) (width : option number) : t :=
  {| color := match color with Some c => c | None => "transparent" end;
     width := match width with Some w => w | None => of_Z 1 end |}.

End Stroke.

(** The element a shape draws to, as far as the program reads and writes
    it: [style.fill], the attributes and [textContent]; [node] is its
    identity in the document. *)
Module Element.

Record t : Type := mk {
  node : nat;
  tagName : string;
  style_fill : value;
  attributes : gmap string value;
  textContent : value
}.

(** [document.createElementNS(svgns, tag)], as the node [node] *)
Definition createElementNS (tag : string) (node : nat) : t :=
  mk node tag (VString EmptyString) ∅ (VString EmptyString).

Definition setAttributeNS (name : string) (v : value) (e : t) : t :=
  mk (node e) (tagName e) (style_fill e) (<[name := v]> (attributes e))
     (textContent e).

(** [null] when the attribute was never set *)
Definition getAttributeNS (name : string) (e : t) : value :=
  match attributes e !! name with
  | Some v => v
  | None => VNull
  end.

Definition set_style_fill (v : value) (e : t) : t :=
  mk (node e) (tagName e) v (attributes e) (textContent e).

Definition set_textContent (v : value) (e : t) : t :=
  mk (node e) (tagName e) (style_fill e) (attributes e) v.

End Element.

Inductive variant : Type := KText | KRectangle | KCircle | KLine | KPolygon.

(** [abstract class Shape] *)
Module Shape.

Record t : Type := mk {
  class : variant;
  type : string;
  name : string;
  domElement : Element.t;
  point0 : nat;                 (* points[0] *)
  point1 : nat;                 (* points[1] *)
  _stroke : Stroke.t;
  vertices : list Point.t       (* used by the polygon only *)
}.

Definition with_element (f : Element.t -> Element.t) (s : t) : t :=
  mk (class s) (type s) (name s) (f (domElement s)) (point0 s) (point1 s)
     (_stroke s) (vertices s).

Definition with_stroke (k : Stroke.t) (s : t) : t :=
  mk (class s) (type s) (name s) (domElement s) (point0 s) (point1 s)
     k (vertices s).

Definition with_vertices (v : list Point.t) (s : t) : t :=
  mk (class s) (type s) (name s) (domElement s) (point0 s) (point1 s)
     (_stroke s) v.

Definition attr (name : string) (v : value) : t -> t :=
  with_element (Element.setAttributeNS name v).

(** The getters. *)
Definition x (s : t) (h : Heap.t) : number := Point._x (Heap.get h (point0 s)).
Definition y (s : t) (h : Heap.t) : number := Point._y (Heap.get h (point0 s)).
Definition width (s : t) (h : Heap.t) : number := Point._x (Heap.get h (point1 s)).
Definition height (s : t) (h : Heap.t) : number := Point._y (Heap.get h (point1 s)).
Definition stroke (s : t) : Stroke.t := _stroke s.

Definition get_fill (s : t) : value := Element.style_fill (domElement s).
Definition set_fill (v : value) : t -> t := with_element (Element.set_style_fill v).

(** The getter of [text] reads [style.fill]. *)
Definition get_text (s : t) : value := Element.style_fill (domElement s).
Definition set_text (v : value) : t -> t := with_element (Element.set_textContent v).

(** [protected constructor(type, name)] *)
Definition new (k : variant) (type name : string) (h : Heap.t) : t * Heap.t :=
  let '(p0, h) := Heap.alloc (Point.mk (of_Z 0) (of_Z 0)) h in
  let '(p1, h) := Heap.alloc (Point.mk (of_Z 100) (of_Z 100)) h in
  let '(e, h) := Heap.node h in
  (mk k type name (Element.createElementNS type e) p0 p1
      (Stroke.new None None) [], h).

(** The node of the element of a shape. *)
Definition node (s : t) : nat := Element.node (domElement s).

(** [remove()]: [parentNode] is the svg element while the element is one
    of its children and [null] otherwise, and the call then throws. *)
Definition remove (s : t) (children : list nat) : option (list nat) :=
  if bool_decide (node s ∈ children)
  then Some (filter (fun c => c ≠ node s) children)
  else None.

Definition moveBy (s : t) (x' y' : option number) (h : Heap.t) : t * Heap.t :=
  let h := Heap.update (fun p => Point.moveBy p x' y') (point0 s) h in
  let s := attr "x" (VNumber (x s h)) s in
  let s := attr "y" (VNumber (y s h)) s in
  (s, h).

Definition moveTo (s : t) (x' y' : option number) (h : Heap.t) : t * Heap.t :=
  let h := Heap.update (fun p => Point.moveTo p x' y') (point0 s) h in
  let s := attr "x" (VNumber (x s h)) s in
  let s := attr "y" (VNumber (y s h)) s in
  (s, h).

Definition sizeBy (s : t) (x' y' : option number) (h : Heap.t) : t * Heap.t :=
  let h := Heap.update (fun p => Point.moveBy p x' y') (point1 s) h in
  let s := attr "width" (VNumber (width s h)) s in
  let s := attr "height" (VNumber (height s h)) s in
  (s, h).

Definition sizeTo (s : t) (x' y' : option number) (h : Heap.t) : t * Heap.t :=
  let h := Heap.update (fun p => Point.moveTo p x' y') (point1 s) h in
  let s := attr "width" (VNumber (width s h)) s in
  let s := attr "height" (VNumber (height s h)) s in
  (s, h).

(** [color === null ? this.stroke.color : color], likewise the width; an
    [undefined] argument reaches the constructor of [Stroke]. *)
Definition setStroke (color : arg string) (width' : arg number) (s : t) : t :=
  let c := match color with
           | Null => Some (Stroke.color (stroke s))
           | Undefined => None
           | Given c => Some c
           end in
  let w := match width' with
           | Null => Some (Stroke.width (stroke s))
           | Undefined => None
           | Given w => Some w
           end in
  let s := with_stroke (Stroke.new c w) s in
  let s := attr "stroke" (VString (Stroke.color (stroke s))) s in
  attr "stroke-width" (VNumber (Stroke.width (stroke s))) s.

End Shape.

Module Text.
Definition create (name : string) := Shape.new KText "text" name.
End Text.

Module Rectangle.
Definition create (name : string) := Shape.new KRectangle "rect" name.
End Rectangle.

Module Circle.

Definition create (name : string) := Shape.new KCircle "ellipse" name.

Definition radiusX (s : Shape.t) (h : Heap.t) : number := half (Shape.width s h).
Definition radiusY (s : Shape.t) (h : Heap.t) : number := half (Shape.height s h).

Definition moveBy (s : Shape.t) (x y : option number) (h : Heap.t)
  : Shape.t * Heap.t :=
  let h := Heap.update (fun p => Point.moveBy p x y) (Shape.point0 s) h in
  let s := Shape.attr "cx" (VNumber (add (Shape.x s h) (radiusX s h))) s in
  let s := Shape.attr "cy" (VNumber (add (Shape.y s h) (radiusY s h))) s in
  (s, h).

Definition moveTo (s : Shape.t) (x y : option number) (h : Heap.t)
  : Shape.t * Heap.t :=
  let h := Heap.update (fun p => Point.moveTo p x y) (Shape.point0 s) h in
  let s := Shape.attr "cx" (VNumber (add (Shape.x s h) (radiusX s h))) s in
  let s := Shape.attr "cy" (VNumber (add (Shape.y s h) (radiusY s h))) s in
  (s, h).

Definition sizeBy (s : Shape.t) (x y : option number) (h : Heap.t)
  : Shape.t * Heap.t :=
  let h := Heap.update (fun p => Point.moveBy p x y) (Shape.point1 s) h in
  let s := Shape.attr "rx" (VNumber (radiusX s h)) s in
  let s := Shape.attr "ry" (VNumber (radiusY s h)) s in
  (s, h).

Definition sizeTo (s : Shape.t) (x y : option number) (h : Heap.t)
  : Shape.t * Heap.t :=
  let h := Heap.update (fun p => Point.moveTo p x y) (Shape.point1 s) h in
  let s := Shape.attr "rx" (VNumber (radiusX s h)) s in
  let s := Shape.attr "ry" (VNumber (radiusY s h)) s in
  (s, h).

End Circle.

Module Line.

Definition create (name : string) := Shape.new KLine "line" name.

(** For a line, [fill] is the [stroke] attribute of the element. *)
Definition get_fill (s : Shape.t) : value :=
  Element.getAttributeNS "stroke" (Shape.domElement s).
Definition set_fill (v : value) : Shape.t -> Shape.t := Shape.attr "stroke" v.

Definition number_or_null (a : option number) : value :=
  match a with Some n => VNumber n | None => VNull end.

Definition moveBy (s : Shape.t) (x y : option number) (h : Heap.t)
  : Shape.t * Heap.t :=
  let h := Heap.update (fun p => Point.moveBy p x y) (Shape.point0 s) h in
  let s := Shape.attr "x1" (VNumber (Shape.x s h)) s in
  let s := Shape.attr "y1" (VNumber (Shape.y s h)) s in
  (s, h).

(** The attributes receive the arguments themselves. *)
Definition moveTo (s : Shape.t) (x y : option number) (h : Heap.t)
  : Shape.t * Heap.t :=
  let h := Heap.update (fun p => Point.moveTo p x y) (Shape.point0 s) h in
  let s := Shape.attr "x1" (number_or_null x) s in
  let s := Shape.attr "y1" (number_or_null y) s in
  (s, h).

Definition sizeBy (s : Shape.t) (x y : option number) (h : Heap.t)
  : Shape.t * Heap.t :=
  let h := Heap.update (fun p => Point.moveBy p x y) (Shape.point1 s) h in
  let s := Shape.attr "x2" (VNumber (add (Shape.x s h) (Shape.width s h))) s in
  let s := Shape.attr "y2" (VNumber (add (Shape.y s h) (Shape.height s h))) s in
  (s, h).

Definition sizeTo (s : Shape.t) (x y : option number) (h : Heap.t)
  : Shape.t * Heap.t :=
  let h := Heap.update (fun p => Point.moveTo p x y) (Shape.point1 s) h in
  let s := Shape.attr "x2" (VNumber (add (Shape.x s h) (Shape.width s h))) s in
  let s := Shape.attr "y2" (VNumber (add (Shape.y s h) (Shape.height s h))) s in
  (s, h).

End Line.

(** Modelled from the spec: the polygon variant.  The interpreter imports
    [Polygon] from [shape.ts], which does not define it.  The spec gives it
    the contract of the other variants (default origin, extent and stroke,
    a fresh element) and a [setPoints] that replaces its vertex list; the
    redraw of the vertex list on the surface is not modelled. *)
Module Polygon.

Definition create (name : string) := Shape.new KPolygon "polygon" name.

Definition setPoints (points : list Point.t) : Shape.t -> Shape.t :=
  Shape.with_vertices points.

End Polygon.

(** Method calls through [iShape], dispatched on the class of the
    receiver. *)
Module iShape.

Definition moveBy (s : Shape.t) :=
  match Shape.class s with
  | KCircle => Circle.moveBy s
  | KLine => Line.moveBy s
  | _ => Shape.moveBy s
  end.

Definition moveTo (s : Shape.t) :=
  match Shape.class s with
  | KCircle => Circle.moveTo s
  | KLine => Line.moveTo s
  | _ => Shape.moveTo s
  end.

Definition sizeBy (s : Shape.t) :=
  match Shape.class s with
  | KCircle => Circle.sizeBy s
  | KLine => Line.sizeBy s
  | _ => Shape.sizeBy s
  end.

Definition sizeTo (s : Shape.t) :=
  match Shape.class s with
  | KCircle => Circle.sizeTo s
  | KLine => Line.sizeTo s
  | _ => Shape.sizeTo s
  end.

Definition get_fill (s : Shape.t) : value :=
  match Shape.class s with
  | KLine => Line.get_fill s
  | _ => Shape.get_fill s
  end.

Definition set_fill (v : value) (s : Shape.t) : Shape.t :=
  match Shape.class s with
  | KLine => Line.set_fill v s
  | _ => Shape.set_fill v s
  end.

(** No class of [shape.ts] has a [setPoints] method, and [iShape] does not
    declare one: the property is [undefined] there and calling it throws
    a TypeError ([None]). *)
Definition setPoints (points : list Point.t) (s : Shape.t) : option Shape.t :=
  match Shape.class s with
  | KPolygon => Some (Polygon.setPoints points s)
  | _ => None
  end.

End iShape.

(** ** The interpreter: registry, commands, line executor *)

(** The texts passed to [log], one constructor per template literal. *)
Inductive message : Type :=
| Echo (line : string)
| AlreadyAnObject (varName : string)
    (* There is already an object called ${varName}, you can't use the same name. *)
| NameMustStartWithLetter
    (* Name of your object must start with a letter and contain only letters, numbers or underscore. *)
| MustSetAType
    (* You must set a type of object to create, like this: create text called title *)
| NotAValidType (type : string) (keys : list string)
    (* ${type} not a valid object type, must be one of these: ${keys.join(', ')} *)
| Created (type varName : string)
| Duplicated (fromVarName toVarName : string)
| NoObjectCalled (varName : string)        (* getItem: There was no object called ${varName}. *)
| NoObjectToRemove (varName : string)      (* remove: There was no object called ${varName} *)
| Painting (varName color : string)
| WaitingFor (n units : string)
| TimerFinished (n units : string)
| Removing (varName : string)
| Wrote (text : list string) (varName : string)
| SetStrokeTo (varName color : string) (width : number)
| MovedTo (varName : string) (x y : number)
| SizedTo (varName : string) (width height : number)
| SetPointsTo (varName : string) (width height : number)
| SelectedObject (varName : string)
| InvalidCommand (action : string).

(** One [div] of the console: the line number of its class, the number
    shown (none when it repeats the previous one) and the message. *)
Record logItem : Type := mkLogItem {
  classLine : nat;
  shownNumber : option nat;
  text : message
}.

(** What [items] can hold that is not a shape: the value that a built-in
    of [Object.prototype], called as a constructor of shapes, returned. *)
Inductive stray : Type :=
| AStringObject (text : string)   (* [Object(name)] *)
| TheTypes                        (* [objectTypes] itself *)
| AString (text : string)
| ABoolean (b : bool)
| AnUndefined.

(** A timeout armed in the host: the delay given to [setTimeout] and what
    its callback prints. *)
Record timeout : Type := mkTimeout {
  delay : number;
  label_n : string;
  label_units : string
}.

Record state : Type := mkState {
  items : gmap string Shape.t;
  (* what a [create] that threw has left in [items]: the properties that
     are not shapes; an entry under a name that has a shape is dead *)
  debris : gmap string stray;
  heap : Heap.t;
  (* the children of the svg element, by their nodes *)
  svg : list nat;
  lineNumber : nat;
  withObjName : arg string;
  timers : list nat;
  console : list logItem;
  lastConsoleLineNumber : nat;
  (* host: the timeouts that are neither fired nor cleared *)
  armed : gmap nat timeout;
  (* host: the handle the next setTimeout returns *)
  nextHandle : nat;
  (* the lines that resume when the wait of a handle resolves *)
  awaiting : gmap nat (list string);
  (* how often generateName was called *)
  generated : nat;
  (* the properties the program has added to Object.prototype *)
  prototype : gmap string value
}.

Definition set_items (v : gmap string Shape.t) (s : state) : state :=
  mkState v (debris s) (heap s) (svg s) (lineNumber s) (withObjName s)
    (timers s) (console s) (lastConsoleLineNumber s) (armed s) (nextHandle
    s) (awaiting s) (generated s) (prototype s).
Definition set_debris (v : gmap string stray) (s : state) : state :=
  mkState (items s) v (heap s) (svg s) (lineNumber s) (withObjName s)
    (timers s) (console s) (lastConsoleLineNumber s) (armed s) (nextHandle
    s) (awaiting s) (generated s) (prototype s).
Definition set_heap (v : Heap.t) (s : state) : state :=
  mkState (items s) (debris s) v (svg s) (lineNumber s) (withObjName s)
    (timers s) (console s) (lastConsoleLineNumber s) (armed s) (nextHandle
    s) (awaiting s) (generated s) (prototype s).
Definition set_svg (v : list nat) (s : state) : state :=
  mkState (items s) (debris s) (heap s) v (lineNumber s) (withObjName s)
    (timers s) (console s) (lastConsoleLineNumber s) (armed s) (nextHandle
    s) (awaiting s) (generated s) (prototype s).
Definition set_lineNumber (v : nat) (s : state) : state :=
  mkState (items s) (debris s) (heap s) (svg s) v (withObjName s) (timers s)
    (console s) (lastConsoleLineNumber s) (armed s) (nextHandle s)
    (awaiting s) (generated s) (prototype s).
Definition set_withObjName (v : arg string) (s : state) : state :=
  mkState (items s) (debris s) (heap s) (svg s) (lineNumber s) v (timers s)
    (console s) (lastConsoleLineNumber s) (armed s) (nextHandle s)
    (awaiting s) (generated s) (prototype s).
Definition set_timers (v : list nat) (s : state) : state :=
  mkState (items s) (debris s) (heap s) (svg s) (lineNumber s) (withObjName
    s) v (console s) (lastConsoleLineNumber s) (armed s) (nextHandle s)
    (awaiting s) (generated s) (prototype s).
Definition set_console (v : list logItem) (s : state) : state :=
  mkState (items s) (debris s) (heap s) (svg s) (lineNumber s) (withObjName
    s) (timers s) v (lastConsoleLineNumber s) (armed s) (nextHandle s)
    (awaiting s) (generated s) (prototype s).
Definition set_lastConsoleLineNumber (v : nat) (s : state) : state :=
  mkState (items s) (debris s) (heap s) (svg s) (lineNumber s) (withObjName
    s) (timers s) (console s) v (armed s) (nextHandle s) (awaiting s)
    (generated s) (prototype s).
Definition set_armed (v : gmap nat timeout) (s : state) : state :=
  mkState (items s) (debris s) (heap s) (svg s) (lineNumber s) (withObjName
    s) (timers s) (console s) (lastConsoleLineNumber s) v (nextHandle s)
    (awaiting s) (generated s) (prototype s).
Definition set_nextHandle (v : nat) (s : state) : state :=
  mkState (items s) (debris s) (heap s) (svg s) (lineNumber s) (withObjName
    s) (timers s) (console s) (lastConsoleLineNumber s) (armed s) v
    (awaiting s) (generated s) (prototype s).
Definition set_awaiting (v : gmap nat (list string)) (s : state) : state :=
  mkState (items s) (debris s) (heap s) (svg s) (lineNumber s) (withObjName
    s) (timers s) (console s) (lastConsoleLineNumber s) (armed s)
    (nextHandle s) v (generated s) (prototype s).
Definition set_generated (v : nat) (s : state) : state :=
  mkState (items s) (debris s) (heap s) (svg s) (lineNumber s) (withObjName
    s) (timers s) (console s) (lastConsoleLineNumber s) (armed s)
    (nextHandle s) (awaiting s) v (prototype s).
Definition set_prototype (v : gmap string value) (s : state) : state :=
  mkState (items s) (debris s) (heap s) (svg s) (lineNumber s) (withObjName
    s) (timers s) (console s) (lastConsoleLineNumber s) (armed s)
    (nextHandle s) (awaiting s) (generated s) v.

(** The state when the module is loaded. *)
Definition initial : state :=
  mkState ∅ ∅ Heap.empty [] 0 Null [] [] 0 ∅ 0 ∅ 0 ∅.

(** How a call ends: it returns a value, or an exception leaves it. *)
Inductive outcome (A : Type) : Type :=
| Returns (a : A) (s : state)
| Throws (s : state).
Arguments Returns {A} a s.
Arguments Throws {A} s.

Definition final {A} (o : outcome A) : state :=
  match o with Returns _ s | Throws s => s end.

(** *** Reading a property of a plain object

    [items], [objectTypes] and [commands] are object literals: [o[k]]
    finds the own property [k], else the property of that name of
    [Object.prototype], else [undefined].  [Object.prototype] has its
    built-in properties (functions, and [__proto__], which reads as the
    prototype itself) and those the program has added to it: [paint] and
    [write] assign [fill] and [text] on whatever [getItem] returns, and
    for [__proto__] that is the prototype.  Every use of such a read is a
    test of truthiness or a call. *)

Definition objectPrototype : list string :=
  [ "constructor"; "__defineGetter__"; "__defineSetter__"; "hasOwnProperty";
    "__lookupGetter__"; "__lookupSetter__"; "isPrototypeOf";
    "propertyIsEnumerable"; "toString"; "valueOf"; "__proto__";
    "toLocaleString" ].

Inductive property (A : Type) : Type :=
| Own (a : A)
| Inherited          (* an object that is none of [A]: a built-in function,
                        the prototype, or an object left in [items] *)
| Added              (* a truthy primitive the program stored *)
| Absent.            (* [undefined], or a falsy value the program stored *)
Arguments Own {A} a.
Arguments Inherited {A}.
Arguments Added {A}.
Arguments Absent {A}.

(** ToBoolean *)
Definition value_truthy (v : value) : bool :=
  match v with
  | VUndefined | VNull | VString EmptyString => false
  | VString _ => true
  | VNumber n => number_truthy n
  end.

Definition read {A} (own : option A) (added : gmap string value)
    (key : string) : property A :=
  match own with
  | Some a => Own a
  | None =>
      if bool_decide (key ∈ objectPrototype) then Inherited
      else match added !! key with
           | Some v => if value_truthy v then Added else Absent
           | None => Absent
           end
  end.

Fixpoint assoc {A} (key : string) (l : list (string * A)) : option A :=
  match l with
  | [] => None
  | (k, a) :: l' => if String.eqb k key then Some a else assoc key l'
  end.

(** *** Settings *)

Definition objectTypes : list (string * (string -> Heap.t -> Shape.t * Heap.t)) :=
  [ ("text", Text.create);
    ("circle", Circle.create);
    ("ellipse", Circle.create);
    ("rectangle", Rectangle.create);
    ("rect", Rectangle.create);
    ("line", Line.create);
    ("polygon", Polygon.create) ].

(** [/[A-Za-z][A-Za-z0-9_]+/] *)
Definition varNamingRule : RegExp :=
  {| anchorStart := false;
     body := Cat (Cls is_letter) (Plus (Cls is_word));
     anchorEnd := false;
     flagI := false |}.

(** [/^\s/] *)
Definition startsWithSpace : RegExp :=
  {| anchorStart := true; body := Cls is_space; anchorEnd := false;
     flagI := false |}.

(** [/^(seconds?|sec|s)$/i] *)
Definition secondsUnit : RegExp :=
  {| anchorStart := true;
     body := Alt (Cat (Str "second") (Opt (Lit "s"))) (Alt (Str "sec") (Lit "s"));
     anchorEnd := true;
     flagI := true |}.

(** *** Console *)

Definition log (m : message) (s : state) : state :=
  let item :=
    {| classLine := lineNumber s;
       shownNumber := if (lastConsoleLineNumber s =? lineNumber s)%nat
                      then None else Some (lineNumber s);
       text := m |} in
  set_lastConsoleLineNumber (lineNumber s) (set_console (console s ++ [item]) s).

(** [String(withObjName)] *)
Definition withObjName_text (a : arg string) : string :=
  match a with
  | Given s => s
  | Null => "null"
  | Undefined => "undefined"
  end.

Definition raw (a : option string) : arg string :=
  match a with Some s => Given s | None => Undefined end.

(** *** Commands *)

Definition cleanCommand (line : string) (s : state) : list string :=
  let words := split " " (trim line) in
  let removeWords := [" "] in
  let out := filter (fun w => w ∉ removeWords) words in
  if test startsWithSpace line
  then splice1 (withObjName_text (withObjName s)) out
  else out.

(** [svg.appendChild(e)]: a child already present moves to the end. *)
Definition appendChild (node : nat) (children : list nat) : list nat :=
  filter (fun c => c ≠ node) children ++ [node].

(** [clearTimeout(h)] and [clearInterval(h)]: the host disarms [h]; the
    two share one table of handles. *)
Definition clearTimeout (h : nat) (a : gmap nat timeout) : gmap nat timeout :=
  delete h a.
Definition clearInterval (h : nat) (a : gmap nat timeout) : gmap nat timeout :=
  delete h a.

Definition reset (s : state) : state :=
  let s := set_svg [] s in
  let s := set_debris ∅ (set_items ∅ s) in
  let s := set_lineNumber 0 s in
  let s := set_armed
             (fold_left (fun a timer => clearInterval timer (clearTimeout timer a))
                        (timers s) (armed s)) s in
  let s := set_timers [] s in
  set_withObjName Null s.

(** [items[key]]: a shape, or what a [create] that threw has left
    there, or what [items] inherits. *)
Definition item (s : state) (key : string) : property Shape.t :=
  match items s !! key with
  | Some shape => Own shape
  | None =>
      match debris s !! key with
      | Some (AStringObject _) | Some TheTypes => Inherited
      | Some (AString text) => if is_empty text then Absent else Added
      | Some (ABoolean b) => if b then Added else Absent
      | Some AnUndefined => Absent
      | None => read None (prototype s) key
      end
  end.

Definition getItem (varName : option string) (s : state)
  : property Shape.t * state :=
  match item s (to_key varName) with
  | Absent => (Absent, log (NoObjectCalled (to_key varName)) s)
  | object => (object, s)
  end.

(** [objectTypes[type](varName)] for a [type] that [objectTypes] inherits
    from [Object.prototype]: the built-in is called with [objectTypes] as
    its receiver and the name as its argument.  [None] when the call
    itself throws: [__defineGetter__] and [__defineSetter__] want a
    function as second argument, and [__proto__] is no function. *)
Definition builtin (type varName : string) : option stray :=
  if String.eqb type "constructor" then Some (AStringObject varName)
  else if String.eqb type "toString" || String.eqb type "toLocaleString"
  then Some (AString "[object Object]")
  else if String.eqb type "valueOf" then Some TheTypes
  else if String.eqb type "hasOwnProperty"
          || String.eqb type "propertyIsEnumerable"
  then Some (ABoolean (bool_decide (varName ∈ map fst objectTypes)))
  else if String.eqb type "isPrototypeOf" then Some (ABoolean false)
  else if String.eqb type "__lookupGetter__"
          || String.eqb type "__lookupSetter__"
  then Some AnUndefined
  else None.

(** A method call on the shape registered under [key]. *)
Definition call (key : string) (method : Shape.t -> Heap.t -> Shape.t * Heap.t)
    (shape : Shape.t) (s : state) : state :=
  let '(shape, h) := method shape (heap s) in
  set_heap h (set_items (<[key := shape]> (items s)) s).

Definition assign (key : string) (setter : Shape.t -> Shape.t)
    (shape : Shape.t) (s : state) : state :=
  set_items (<[key := setter shape]> (items s)) s.

Section Interpreter.

(** [generateName] is imported from a module outside the sources at hand;
    the name it returns at its [n]-th call is a parameter. *)
Variable generateName : nat -> string.

(** A type that [objectTypes] only inherits is called as a constructor of
    shapes and is none.  When the built-in returns, its result is stored
    in [items] and the name is selected before [svg.appendChild] throws a
    TypeError, for the result has no element; when the call itself
    throws, or the type is a string added to [Object.prototype], which is
    no function, nothing is stored. *)
Definition create (varName type : option string) (s : state)
  : outcome (option string) :=
  let '(varName, s) :=
    match string_truthy varName with
    | Some v => (v, s)
    | None => (generateName (generated s), set_generated (S (generated s)) s)
    end in
  match item s varName with
  | Own _ | Inherited | Added =>
      Returns None (log (AlreadyAnObject varName) s)
  | Absent =>
      if negb (test varNamingRule varName)
      then Returns None (log NameMustStartWithLetter s)
      else
        match string_truthy type with
        | None => Returns None (log MustSetAType s)
        | Some type =>
            match read (assoc type objectTypes) (prototype s) type with
            | Absent =>
                Returns None (log (NotAValidType type (map fst objectTypes)) s)
            | Added => Throws s
            | Inherited =>
                match builtin type varName with
                | None => Throws s
                | Some result =>
                    let s := set_debris (<[varName := result]> (debris s)) s in
                    Throws (set_withObjName (Given varName) s)
                end
            | Own make =>
                let '(shape, h) := make varName (heap s) in
                let s := set_heap h (set_items (<[varName := shape]> (items s)) s) in
                let s := set_withObjName (Given varName) s in
                let s := set_svg (appendChild (Shape.node shape) (svg s)) s in
                Returns (Some varName) (log (Created type varName) s)
            end
        end
  end.

(** [toObject] is the shape [create] has just registered under [b]. *)
Definition copyInto (fromObject : Shape.t) (b : string) (s : state) : state :=
  match items s !! b with
  | None => s
  | Some toObject =>
      let h := heap s in
      let '(toObject, h) :=
        iShape.moveTo toObject (Some (Shape.x fromObject h))
                      (Some (Shape.y fromObject h)) h in
      let '(toObject, h) :=
        iShape.sizeTo toObject (Some (Shape.width fromObject h))
                      (Some (Shape.height fromObject h)) h in
      let toObject := iShape.set_fill (iShape.get_fill fromObject) toObject in
      let toObject :=
        Shape.setStroke (Given (Stroke.color (Shape.stroke fromObject)))
                        (Given (Stroke.width (Shape.stroke fromObject)))
                        toObject in
      set_heap h (set_items (<[b := toObject]> (items s)) s)
  end.

Definition clone (fromVarName toVarName : option string) (s : state)
  : outcome (option string) :=
  let '(fromObject, s) := getItem fromVarName s in
  match fromObject with
  | Absent => Returns None s
  | Inherited | Added =>
      (* nothing in [items] but a shape has a [type] *)
      match create toVarName None s with
      | Returns _ s => Returns None s
      | Throws s => Throws s
      end
  | Own fromObject =>
      match create toVarName (Some (Shape.type fromObject)) s with
      | Throws s => Throws s
      | Returns None s => Returns None s
      | Returns (Some b) s =>
          let s := copyInto fromObject b s in
          let s := set_withObjName (raw toVarName) s in
          let s := set_svg (match items s !! b with
                            | Some toObject =>
                                appendChild (Shape.node toObject) (svg s)
                            | None => svg s
                            end) s in
          Returns (Some b)
            (log (Duplicated (to_key fromVarName) (to_key toVarName)) s)
      end
  end.

(** An assignment [object.name = v] where [object] is not a shape.  On
    [Object.prototype] it adds the property to every plain object; on a
    built-in function, or on the String object that a [create] that threw
    has left in [items], it sets a property that nothing reads.  (On
    [objectTypes], when [items] holds it, the assignment would add a type
    or replace one; this is not modelled: [items] holds it only after
    the exception that ended the run, until the [reset] that starts the
    next one.) *)
Definition assignBuiltin (key name : string) (v : value) (s : state) : state :=
  if String.eqb key "__proto__"
  then set_prototype (<[name := v]> (prototype s)) s
  else s.

(** Assigning a property of a string throws: the module is in strict
    mode. *)
Definition paint (varName color : option string) (s : state)
  : outcome (option nat) :=
  let '(object, s) := getItem varName s in
  let painted (s : state) :=
    let s := set_withObjName (raw varName) s in
    Returns None (log (Painting (to_key varName) (to_key color)) s) in
  match object with
  | Own shape =>
      painted (assign (to_key varName)
                      (iShape.set_fill (value_of_string color)) shape s)
  | Inherited =>
      painted (assignBuiltin (to_key varName) "fill" (value_of_string color) s)
  | Added => Throws s
  | Absent => Returns None s
  end.

Definition wait (n unitName : option string) (s : state)
  : outcome (option nat) :=
  let isSeconds := test secondsUnit (to_key unitName) in
  let units := if isSeconds then "second" else "millisecond" in
  let factor := if isSeconds then of_Z 1000 else of_Z 1 in
  let ms := mul (if gt (Number n) (of_Z 0) then Number n else of_Z 1000) factor in
  let label := units +:+ (if gt (Number n) (of_Z 1) then "s" else EmptyString) in
  let s := log (WaitingFor (to_key n) label) s in
  let h := nextHandle s in
  let s := set_nextHandle (S h)
             (set_armed (<[h := mkTimeout ms (to_key n) label]> (armed s)) s) in
  Returns (Some h) (set_timers (timers s ++ [h]) s).

Definition remove (varName : option string) (s : state)
  : outcome (option nat) :=
  let '(object, s) := getItem varName s in
  match object with
  | Own shape =>
      match Shape.remove shape (svg s) with
      | None => Throws s
      | Some children =>
          let s := set_svg children s in
          let s := set_debris (delete (to_key varName) (debris s))
                     (set_items (delete (to_key varName) (items s)) s) in
          let s := set_debris (delete (to_key varName +:+ ".text") (debris s))
                     (set_items (delete (to_key varName +:+ ".text") (items s))
                        s) in
          Returns None (log (Removing (to_key varName)) s)
      end
  | Inherited | Added => Throws s  (* no [remove] method *)
  | Absent => Returns None (log (NoObjectToRemove (to_key varName)) s)
  end.

Definition write (varName : option string) (text : list string) (s : state)
  : outcome (option nat) :=
  let '(object, s) := getItem varName s in
  match object with
  | Own shape =>
      let s := assign (to_key varName)
                 (Shape.set_text (VString (String.concat " " text))) shape s in
      Returns None (log (Wrote text (to_key varName)) s)
  | Inherited =>
      let s := assignBuiltin (to_key varName) "text"
                 (VString (String.concat " " text)) s in
      Returns None (log (Wrote text (to_key varName)) s)
  | Added => Throws s
  | Absent => Returns None s
  end.

Definition setStroke (varName color : option string) (width : number)
    (s : state) : outcome (option nat) :=
  let '(object, s) := getItem varName s in
  match object with
  | Own shape =>
      let s := assign (to_key varName)
                 (Shape.setStroke (raw color) (Given width)) shape s in
      Returns None (log (SetStrokeTo (to_key varName) (to_key color) width) s)
  | Inherited | Added => Throws s
  | Absent => Returns None s
  end.

(** The four move and size commands differ in the method and the
    message. *)
Definition onShape (varName : option string)
    (method : Shape.t -> Heap.t -> Shape.t * Heap.t)
    (report : Shape.t -> Heap.t -> message) (s : state)
  : outcome (option nat) :=
  let '(object, s) := getItem varName s in
  match object with
  | Own shape =>
      let s := call (to_key varName) method shape s in
      Returns None (log (report shape (heap s)) s)
  | Inherited | Added => Throws s
  | Absent => Returns None s
  end.

Definition moved (varName : option string) (shape : Shape.t) (h : Heap.t) :=
  MovedTo (to_key varName) (Shape.x shape h) (Shape.y shape h).
Definition sized (varName : option string) (shape : Shape.t) (h : Heap.t) :=
  SizedTo (to_key varName) (Shape.width shape h) (Shape.height shape h).

Definition moveTo (varName : option string) (x y : option number) :=
  onShape varName (fun o => iShape.moveTo o x y) (moved varName).
Definition moveBy (varName : option string) (x y : option number) :=
  onShape varName (fun o => iShape.moveBy o x y) (moved varName).
Definition sizeTo (varName : option string) (x y : option number) :=
  onShape varName (fun o => iShape.sizeTo o x y) (sized varName).
Definition sizeBy (varName : option string) (x y : option number) :=
  onShape varName (fun o => iShape.sizeBy o x y) (sized varName).

(** [new Point(Number(arrPoint[0]), Number(arrPoint[1]))] *)
Definition parsePoint (point : string) : Point.t :=
  let arrPoint := split "," point in
  Point.mk (Number (arrPoint !! 0)) (Number (arrPoint !! 1)).

Definition setPoints (varName : option string) (points : list string)
    (s : state) : outcome (option nat) :=
  let '(object, s) := getItem varName s in
  match object with
  | Own shape =>
      let arrPoints := map parsePoint points in
      match iShape.setPoints arrPoints shape with
      | None => Throws s
      | Some shape =>
          let s := set_items (<[to_key varName := shape]> (items s)) s in
          Returns None
            (log (SetPointsTo (to_key varName) (Shape.width shape (heap s))
                              (Shape.height shape (heap s))) s)
      end
  | Inherited | Added => Throws s
  | Absent => Returns None s
  end.

Definition setWith (varName : option string) (s : state)
  : outcome (option nat) :=
  let '(object, s) := getItem varName s in
  match object with
  | Own _ | Inherited | Added =>
      let s := set_withObjName (raw varName) s in
      Returns None (log (SelectedObject (to_key varName)) s)
  | Absent => Returns None s
  end.

(** A handler returns a promise (the handle of its timeout) or a value
    that is not one. *)
Definition handler : Type := list string -> state -> outcome (option nat).

Definition notPromise {A} (o : outcome A) : outcome (option nat) :=
  match o with
  | Returns _ s => Returns None s
  | Throws s => Throws s
  end.

(** [Number(words[3]) || 1] *)
Definition orOne (n : number) : number :=
  if number_truthy n then n else of_Z 1.

Definition commands : list (string * handler) :=
  [ ("paint", fun words => paint (words !! 1) (words !! 2));
    ("remove", fun words => remove (words !! 1));
    ("new", fun words s => notPromise (create (words !! 2) (words !! 1) s));
    ("clone", fun words s => notPromise (clone (words !! 1) (words !! 2) s));
    ("write", fun words => write (words !! 1) (slice2 words));
    ("reset", fun _ s => Returns None (reset s));
    ("width", fun words => sizeTo (words !! 1) (Some (Number (words !! 2))) None);
    ("height", fun words => sizeTo (words !! 1) None (Some (Number (words !! 2))));
    ("left", fun words => moveTo (words !! 1) (Some (Number (words !! 2))) None);
    ("top", fun words => moveTo (words !! 1) None (Some (Number (words !! 2))));
    ("outline", fun words =>
       setStroke (words !! 1) (words !! 2) (orOne (Number (words !! 3))));
    ("with", fun words => setWith (words !! 1));
    ("move", fun words =>
       moveBy (words !! 1) (Some (Number (words !! 2))) (Some (Number (words !! 3))));
    ("position", fun words =>
       moveTo (words !! 1) (Some (Number (words !! 2))) (Some (Number (words !! 3))));
    ("points", fun words => setPoints (words !! 1) (slice2 words));
    ("size", fun words =>
       sizeTo (words !! 1) (Some (Number (words !! 2))) (Some (Number (words !! 3))));
    ("grow", fun words =>
       sizeBy (words !! 1) (Some (Number (words !! 2))) (Some (Number (words !! 3))));
    ("wait", fun words => wait (words !! 1) (words !! 2)) ].

(** The command found for [words]: what the callback of [render] does
    once the line is tokenized.  A name that [commands] only inherits is a
    built-in function called without a receiver: [Object] and
    [Object.prototype.toString] return, the others throw; a string is not
    a function. *)
Definition dispatch (words : list string) (s : state) : outcome (option nat) :=
  let action := if bool_decide (words !! 0 = Some " ") then words !! 1
                else words !! 0 in
  match read (assoc (to_key action) commands) (prototype s) (to_key action) with
  | Own command => command words s
  | Inherited =>
      if bool_decide (to_key action ∈ ["constructor"; "toString"])
      then Returns None s else Throws s
  | Added => Throws s
  | Absent => Returns None (log (InvalidCommand (to_key action)) s)
  end.

(** The callback [render] gives to [forEachPromise]. *)
Definition executeLine (line : string) (s : state) : outcome (option nat) :=
  let s := set_lineNumber (S (lineNumber s)) s in
  if is_empty line then Returns None s
  else
    let s := log (Echo line) s in
    dispatch (cleanCommand line s) s.

(** Where a run stands: all lines done, suspended on the promise of a
    [wait], or left by an exception with lines still to run. *)
Inductive progress : Type :=
| Finished (s : state)
| Suspended (h : nat) (s : state)
| Escaped (remaining : list string) (s : state).

Definition state_of (p : progress) : state :=
  match p with Finished s | Suspended _ s | Escaped _ s => s end.

(** Modelled from the spec: [forEachPromise], imported from a module
    outside the sources at hand.  The lines are executed strictly in
    sequence, one at a time; when the callback returns the promise of a
    [wait] the whole sequence suspends and the remaining lines resume when
    that promise resolves.  The spec does not say what happens to the
    remaining lines when the callback throws: the run is reported as
    [Escaped] with them. *)
Fixpoint forEachPromise (lines : list string)
    (fn : string -> state -> outcome (option nat)) (s : state) : progress :=
  match lines with
  | [] => Finished s
  | line :: rest =>
      match fn line s with
      | Returns None s => forEachPromise rest fn s
      | Returns (Some h) s =>
          Suspended h (set_awaiting (<[h := rest]> (awaiting s)) s)
      | Throws s => Escaped rest s
      end
  end.

(** [render], with the text of the code area as argument.  Saving the
    text to [localStorage] is not modelled. *)
Definition render (code : string) (s : state) : progress :=
  let s := reset s in
  let s := set_console [] s in
  let lines := split "010" code in
  forEachPromise lines executeLine s.

(** The host runs the callback of the armed timeout [h]: the callback
    logs and resolves the promise, and the lines awaiting it resume.
    [None] when [h] is not armed: nothing runs. *)
Definition fire (h : nat) (s : state) : option progress :=
  match armed s !! h with
  | None => None
  | Some t =>
      let s := set_armed (delete h (armed s)) s in
      let s := log (TimerFinished (label_n t) (label_units t)) s in
      match awaiting s !! h with
      | Some rest =>
          Some (forEachPromise rest executeLine
                  (set_awaiting (delete h (awaiting s)) s))
      | None => Some (Finished s)
      end
  end.

End Interpreter.

(** ** Notions used to state the properties *)

(** The naming rule in the words of the specification: the first
    character is a letter and every remaining character is a letter, a
    digit or an underscore. *)
Definition nameRuleOfSpec (name : string) : bool :=
  match name with
  | EmptyString => false
  | String a rest => is_letter a && forallb is_word (list_ascii_of_string rest)
  end.

(** A stand-in for [generateName] where an example has to run: none of
    the examples leaves a name out. *)
Definition sampleName (n : nat) : string := "shape".

Definition newline : string := String "010" EmptyString.

(** The lines of a script, joined as the code area holds them. *)
Definition script (lines : list string) : string := String.concat newline lines.

Definition texts (s : state) : list message := map text (console s).

(** [name] as an attribute of the element of a shape, when it is set. *)
Definition attribute (name : string) (s : Shape.t) : option value :=
  Element.attributes (Shape.domElement s) !! name.

(** What a move or a size leaves alone in a shape: everything but the
    attributes of its element. *)
Definition same_but_attributes (s s' : Shape.t) : Prop :=
  Shape.class s' = Shape.class s /\ Shape.type s' = Shape.type s
  /\ Shape.name s' = Shape.name s
  /\ Shape.point0 s' = Shape.point0 s /\ Shape.point1 s' = Shape.point1 s
  /\ Shape._stroke s' = Shape._stroke s /\ Shape.vertices s' = Shape.vertices s
  /\ Element.style_fill (Shape.domElement s') = Element.style_fill (Shape.domElement s)
  /\ Element.textContent (Shape.domElement s') = Element.textContent (Shape.domElement s)
  /\ Element.tagName (Shape.domElement s') = Element.tagName (Shape.domElement s)
  /\ Shape.node s' = Shape.node s.

(** The tag that the constructor of each class passes to [Shape]. *)
Definition tag (k : variant) : string :=
  match k with
  | KText => "text"
  | KRectangle => "rect"
  | KCircle => "ellipse"
  | KLine => "line"
  | KPolygon => "polygon"
  end.

(** A shape as its constructor leaves it in the heap [h]: the type of its
    class, and two distinct points that are allocated. *)
Definition shape_ok (h : Heap.t) (s : Shape.t) : Prop :=
  Shape.type s = tag (Shape.class s)
  /\ Shape.point0 s <> Shape.point1 s
  /\ Shape.point0 s < Heap.next h /\ Shape.point1 s < Heap.next h
  /\ is_Some (Heap.cells h !! Shape.point0 s)
  /\ is_Some (Heap.cells h !! Shape.point1 s).

(** Two shapes share no point. *)
Definition apart (s1 s2 : Shape.t) : Prop :=
  Shape.point0 s1 <> Shape.point0 s2 /\ Shape.point0 s1 <> Shape.point1 s2
  /\ Shape.point1 s1 <> Shape.point0 s2 /\ Shape.point1 s1 <> Shape.point1 s2.

(** The registry as the interpreter keeps it: every shape is as its
    constructor left it, and shapes under different names share no
    point. *)
Definition registry_ok (s : state) : Prop :=
  (forall k sh, items s !! k = Some sh -> shape_ok (heap s) sh)
  /\ (forall k1 k2 s1 s2,
         k1 <> k2 -> items s !! k1 = Some s1 -> items s !! k2 = Some s2 ->
         apart s1 s2).

(** Every name in the registry passed the test of [create]. *)
Definition names_tested (s : state) : Prop :=
  forall k sh, items s !! k = Some sh -> test varNamingRule k = true.

(** The same, as a check that runs. *)
Definition shape_okb (h : Heap.t) (s : Shape.t) : bool :=
  String.eqb (Shape.type s) (tag (Shape.class s))
  && negb (Shape.point0 s =? Shape.point1 s)%nat
  && (Shape.point0 s <? Heap.next h)%nat && (Shape.point1 s <? Heap.next h)%nat
  && bool_decide (is_Some (Heap.cells h !! Shape.point0 s))
  && bool_decide (is_Some (Heap.cells h !! Shape.point1 s)).

Definition apartb (s1 s2 : Shape.t) : bool :=
  negb (Shape.point0 s1 =? Shape.point0 s2)%nat
  && negb (Shape.point0 s1 =? Shape.point1 s2)%nat
  && negb (Shape.point1 s1 =? Shape.point0 s2)%nat
  && negb (Shape.point1 s1 =? Shape.point1 s2)%nat.

Definition registry_okb (s : state) : bool :=
  let entries := map_to_list (items s) in
  forallb (fun e : string * Shape.t => shape_okb (heap s) (snd e)) entries
  && forallb (fun e1 : string * Shape.t =>
                forallb (fun e2 : string * Shape.t =>
                           String.eqb (fst e1) (fst e2) || apartb (snd e1) (snd e2))
                        entries)
             entries.

(** A step from [s] to [s'] that at most replaces the shape under [a] by
    one of the same class with the same points, and changes the heap at
    most in those points. *)
Definition same_points (sh sh' : Shape.t) : Prop :=
  Shape.class sh' = Shape.class sh /\ Shape.type sh' = Shape.type sh
  /\ Shape.point0 sh' = Shape.point0 sh /\ Shape.point1 sh' = Shape.point1 sh.

Definition touches (a : string) (s s' : state) : Prop :=
  (items s' = items s /\ heap s' = heap s) \/
  exists sh sh',
    items s !! a = Some sh /\ items s' = <[a := sh']> (items s)
    /\ same_points sh sh'
    /\ Heap.next (heap s') = Heap.next (heap s)
    /\ (forall l, is_Some (Heap.cells (heap s') !! l)
                  <-> is_Some (Heap.cells (heap s) !! l))
    /\ (forall l, l <> Shape.point0 sh -> l <> Shape.point1 sh ->
                  Heap.get (heap s') l = Heap.get (heap s) l).

(** The commands that change a shape in place, as the registry functions
    they call. *)
Inductive mutation : Type :=
| MoveTo (x y : option number)
| MoveBy (x y : option number)
| SizeTo (x y : option number)
| SizeBy (x y : option number)
| Paint (color : option string)
| Outline (color : option string) (width : number).

Definition mutate (a : string) (m : mutation) (s : state) : state :=
  final match m with
        | MoveTo x y => moveTo (Some a) x y s
        | MoveBy x y => moveBy (Some a) x y s
        | SizeTo x y => sizeTo (Some a) x y s
        | SizeBy x y => sizeBy (Some a) x y s
        | Paint color => paint (Some a) color s
        | Outline color width => setStroke (Some a) color width s
        end.

Definition mutateAll (a : string) (ms : list mutation) (s : state) : state :=
  fold_left (fun s m => mutate a m s) ms s.

(** All there is to a registered shape: the object and its two points. *)
Definition view (b : string) (s : state) : option (Shape.t * Point.t * Point.t) :=
  match items s !! b with
  | Some sh => Some (sh, Heap.get (heap s) (Shape.point0 sh),
                     Heap.get (heap s) (Shape.point1 sh))
  | None => None
  end.

(** What the user and the host can do to the page: press run with some
    code in the code area, or let the timeout of a handle fire.  Firing a
    handle that is not armed does nothing. *)
Inductive event : Type :=
| Run (code : string)
| Fire (h : nat).

Definition after (generateName : nat -> string) (e : event) (s : state) : state :=
  match e with
  | Run code => state_of (render generateName code s)
  | Fire h =>
      match fire generateName h s with
      | Some p => state_of p
      | None => s
      end
  end.

Definition afterAll (generateName : nat -> string) (es : list event) (s : state)
  : state :=
  fold_left (fun s e => after generateName e s) es s.

(** The timeouts in the host are known to the program: every armed handle
    was pushed on [timers], and is older than the next handle. *)
Definition timers_recorded (s : state) : Prop :=
  forall h, is_Some (armed s !! h) -> h ∈ timers s /\ h < nextHandle s.

(** The same, as a check that runs. *)
Definition timers_recordedb (s : state) : bool :=
  forallb (fun entry : nat * timeout =>
             bool_decide (fst entry ∈ timers s)
             && (fst entry <? nextHandle s)%nat)
          (map_to_list (armed s)).

(** A step that keeps the registry as the interpreter wants it. *)
Definition keeps (s s' : state) : Prop :=
  (registry_ok s -> registry_ok s') /\ (names_tested s -> names_tested s').

(** What holds of every state the page can be in. *)
Definition invariant (s : state) : Prop :=
  registry_ok s /\ names_tested s /\ timers_recorded s.

(** From [s] to [s'] handles only grow, an armed timeout of [s'] was armed
    in [s] or is new, and the program still knows its timeouts. *)
Definition advances (s s' : state) : Prop :=
  nextHandle s <= nextHandle s'
  /\ (forall h, is_Some (armed s' !! h) ->
                is_Some (armed s !! h) \/ nextHandle s <= h)
  /\ (timers_recorded s -> timers_recorded s').

(** A step that does not touch the timeouts. *)
Definition untouched (s s' : state) : Prop :=
  armed s' = armed s /\ nextHandle s' = nextHandle s /\ timers s' = timers s.

(** The timeout that a call armed, when it returned a promise. *)
Definition armedBy (o : outcome (option nat)) : option timeout :=
  match o with
  | Returns (Some h) s => armed s !! h
  | _ => None
  end.

(** Every registered shape is stored under its own name, its element is
    a child of the svg element and a node the document has created, and
    shapes under different names have different elements. *)
Definition attached (s : state) : Prop :=
  (forall k sh,
      items s !! k = Some sh ->
      Shape.name sh = k /\ Shape.node sh ∈ svg s
      /\ Shape.node sh < Heap.nodes (heap s))
  /\ (forall k1 k2 s1 s2,
         k1 <> k2 -> items s !! k1 = Some s1 -> items s !! k2 = Some s2 ->
         Shape.node s1 <> Shape.node s2).

(** The same, as a check that runs. *)
Definition attachedb (s : state) : bool :=
  let entries := map_to_list (items s) in
  forallb (fun e : string * Shape.t =>
             String.eqb (Shape.name (snd e)) (fst e)
             && bool_decide (Shape.node (snd e) ∈ svg s)
             && (Shape.node (snd e) <? Heap.nodes (heap s))%nat)
          entries
  && forallb (fun e1 : string * Shape.t =>
                forallb (fun e2 : string * Shape.t =>
                           String.eqb (fst e1) (fst e2)
                           || negb (Shape.node (snd e1) =? Shape.node (snd e2))%nat)
                        entries)
             entries.

(** A step that edits shapes in place: the registry has the same names
    before and after, each shape keeps its name, its class and its
    element, no element is created, and the children of the svg element
    are the same. *)
Definition edits (s s' : state) : Prop :=
  svg s' = svg s /\
  Heap.nodes (heap s') = Heap.nodes (heap s) /\
  forall k,
    match items s !! k, items s' !! k with
    | Some sh, Some sh' =>
        Shape.name sh' = Shape.name sh /\ Shape.class sh' = Shape.class sh
        /\ Shape.node sh' = Shape.node sh
    | None, None => True
    | _, _ => False
    end.

(** No line executes while [items] holds something that is not a shape:
    such a value is there only when no timeout is armed, and an armed
    timeout is the only one. *)
Definition calm (s : state) : Prop :=
  armed s = ∅ \/ (debris s = ∅ /\ exists h t, armed s = {[h := t]}).

(** Where a handler leaves the timeouts and [items] when it starts with no
    timeout armed and shapes only: a handler that returns no promise
    leaves them so, a promise is the one timeout armed, and an exception
    leaves no timeout armed. *)
Definition settled (o : outcome (option nat)) : Prop :=
  match o with
  | Returns None s => armed s = ∅ /\ debris s = ∅
  | Returns (Some h) s => debris s = ∅ /\ exists t, armed s = {[h := t]}
  | Throws s => armed s = ∅
  end.

(** Console entries that continue line [n]: they carry its class and show
    no number. *)
Definition continued (n : nat) (more : list logItem) : Prop :=
  Forall (fun item => classLine item = n /\ shownNumber item = None) more.

(** A step inside the execution of one line: the line counter stays, and
    once the line has an entry in the console, the entries the step adds
    continue it. *)
Definition within_line (s s' : state) : Prop :=
  lineNumber s' = lineNumber s /\
  (lastConsoleLineNumber s = lineNumber s ->
   lastConsoleLineNumber s' = lineNumber s
   /\ exists more,
       console s' = console s ++ more /\ continued (lineNumber s) more).

(** The two points of the shape that a method returns, in the heap it
    returns: the origin and the extent. *)
Definition points_of (r : Shape.t * Heap.t) : Point.t * Point.t :=
  (Heap.get (snd r) (Shape.point0 (fst r)),
   Heap.get (snd r) (Shape.point1 (fst r))).

(** The origin and the extent of the shape registered under [name]. *)
Definition placed (name : string) (s : state) : option (Point.t * Point.t) :=
  match items s !! name with
  | Some sh => Some (points_of (sh, heap s))
  | None => None
  end.

(** The command word of a line: the first word of the trimmed line. *)
Definition commandWord (line : string) : string :=
  hd EmptyString (split " " (trim line)).

(** A word without a space in it. *)
Definition spaceless (w : string) : bool :=
  forallb (fun a => negb (Ascii.eqb a " ")) (list_ascii_of_string w).

(** A line of white space only. *)
Definition blank (line : string) : bool :=
  forallb is_space (list_ascii_of_string line).

(** ** Supporting lemmas *)

(** *** Arithmetic *)

Arguments round64 : simpl never.
Arguments of_Z : simpl never.

Lemma double_eq (a b : double) : rat a = rat b -> a = b.
Proof.
  destruct a as [x Hx], b as [y Hy]. cbn. intros <-. f_equal.
  apply Eqdep_dec.UIP_dec, Bool.bool_dec.
Qed.

Lemma pack_double (d : double) : pack (rat d) = Some d.
Proof.
  unfold pack. destruct (Bool.bool_dec _ _) as [H | H].
  - f_equal. apply double_eq. reflexivity.
  - destruct (H (on_grid d)).
Qed.

(** Rounding leaves a value of the format as it is. *)
Lemma round64_double (d : double) : round64 (rat d) = Finite d.
Proof.
  unfold round64.
  assert (E : Q2Qc (nearest (rat d)) = rat d).
  { apply Qc_is_canon. unfold Q2Qc. cbn [this]. rewrite Qred_correct.
    pose proof (on_grid d) as H. unfold representable in H.
    apply andb_prop in H as [H _]. apply Qeq_bool_eq. exact H. }
  rewrite E, pack_double. reflexivity.
Qed.

Lemma round64_representable (q : Qc) (H : representable q = true) :
  round64 q = Finite (mkDouble q H).
Proof. apply (round64_double (mkDouble q H)). Qed.

Lemma same_number_eq (a b : number) : same_number a b = true -> a = b.
Proof.
  destruct a as [x | s |], b as [y | s' |]; cbn; try discriminate; intros H.
  - f_equal. apply double_eq, Qc_is_canon, Qeq_bool_eq. exact H.
  - f_equal. apply Bool.eqb_prop. exact H.
  - reflexivity.
Qed.

Lemma one_representable : representable (Q2Qc (inject_Z 1)) = true.
Proof. vm_compute. reflexivity. Qed.

Lemma zero_representable : representable (Q2Qc (inject_Z 0)) = true.
Proof. vm_compute. reflexivity. Qed.

Lemma mul_one (a : number) : mul a (of_Z 1) = a.
Proof.
  unfold of_Z. rewrite (round64_representable _ one_representable).
  destruct a as [x | neg |]; [| destruct neg; reflexivity | reflexivity].
  unfold mul. cbn [rat].
  change (Q2Qc (inject_Z 1)) with 1%Qc.
  rewrite Qcmult_1_r. apply round64_double.
Qed.

Lemma thousand_thousand : mul (of_Z 1000) (of_Z 1000) = of_Z 1000000.
Proof. apply same_number_eq. vm_compute. reflexivity. Qed.

Lemma add_zero (a : number) : add a zero = a.
Proof.
  unfold zero, of_Z. rewrite (round64_representable _ zero_representable).
  destruct a as [x | neg |]; try reflexivity.
  unfold add. cbn [rat].
  change (Q2Qc (inject_Z 0)) with 0%Qc.
  rewrite Qcplus_0_r. apply round64_double.
Qed.

Lemma add_NaN (a : number) : add a NaN = NaN.
Proof. destruct a; reflexivity. Qed.

(** *** Patterns

    [matches] decides [lang]; the three patterns of the program are then
    read off as conditions on the text. *)

Lemma append_cons (a : ascii) (s t : string) :
  String.append (String a s) t = String a (String.append s t).
Proof. reflexivity. Qed.

Lemma append_empty_l (t : string) : String.append EmptyString t = t.
Proof. reflexivity. Qed.

Lemma append_empty_r (s : string) : String.append s EmptyString = s.
Proof.
  induction s as [| a s IH]; [reflexivity|]. rewrite append_cons, IH. reflexivity.
Qed.

Lemma append_assoc (s t u : string) :
  String.append (String.append s t) u = String.append s (String.append t u).
Proof.
  induction s as [| a s IH]; [reflexivity|]. rewrite !append_cons, IH. reflexivity.
Qed.

Lemma append_is_empty (s t : string) :
  String.append s t = EmptyString -> s = EmptyString /\ t = EmptyString.
Proof.
  destruct s as [| a s]; [intros H; split; [reflexivity | exact H]|].
  rewrite append_cons. discriminate.
Qed.

Section Patterns.

Variable i : bool.

Lemma nullable_lang (r : regex) : nullable r = true <-> lang i r EmptyString.
Proof.
  split.
  - induction r as [| | c | p | r1 IH1 r2 IH2 | r1 IH1 r2 IH2 | r IH];
      cbn [nullable]; intros H; try discriminate.
    + constructor.
    + apply andb_prop in H as [H1 H2].
      apply (lang_cat i r1 r2 EmptyString EmptyString); auto.
    + apply orb_prop in H as [H | H]; [apply lang_alt_l | apply lang_alt_r]; auto.
    + constructor.
  - intros H. remember EmptyString as s eqn:Es.
    induction H as [| c a H | p a H | r1 r2 s1 s2 H1 IH1 H2 IH2
                   | r1 r2 s H IH | r1 r2 s H IH | r | r s1 s2 H1 IH1 H2 IH2];
      cbn [nullable]; try discriminate; try reflexivity.
    + apply append_is_empty in Es as [-> ->].
      rewrite IH1, IH2; reflexivity.
    + rewrite IH by assumption. reflexivity.
    + rewrite IH by assumption. apply orb_true_r.
Qed.

(** A nonempty text of a starred pattern begins with a nonempty text of
    the pattern. *)
Lemma star_unfold (r : regex) (a : ascii) (s : string) :
  lang i (Star r) (String a s) ->
  exists s1 s2,
    s = String.append s1 s2 /\ lang i r (String a s1) /\ lang i (Star r) s2.
Proof.
  intros H. remember (Star r) as r' eqn:Er. remember (String a s) as w eqn:Ew.
  revert Er Ew.
  induction H as [| | | | | | | r0 s1 s2 H1 _ H2 IH2]; intros Er Ew;
    try discriminate.
  inversion Er; subst r0. destruct s1 as [| a' s1'].
  - apply IH2; [reflexivity | exact Ew].
  - rewrite append_cons in Ew. inversion Ew; subst. eauto.
Qed.

Lemma deriv_lang (a : ascii) (r : regex) (s : string) :
  lang i (deriv i a r) s <-> lang i r (String a s).
Proof.
  revert s.
  induction r as [| | c | p | r1 IH1 r2 IH2 | r1 IH1 r2 IH2 | r IH];
    intros s; cbn [deriv].
  - split; intros H; inversion H.
  - split; intros H; inversion H.
  - destruct (same_char i c a) eqn:E; split; intros H; inversion H; subst.
    + constructor. assumption.
    + constructor.
    + congruence.
  - destruct (p a) eqn:E; split; intros H; inversion H; subst.
    + constructor. assumption.
    + constructor.
    + congruence.
  - assert (Hcat : lang i (Cat (deriv i a r1) r2) s ->
                   lang i (Cat r1 r2) (String a s)).
    { intros H. inversion H; subst.
      rewrite <- append_cons. constructor; [apply IH1|]; assumption. }
    assert (Hback : lang i (Cat r1 r2) (String a s) ->
              lang i (Cat (deriv i a r1) r2) s
              \/ (nullable r1 = true /\ lang i (deriv i a r2) s)).
    { intros H. inversion H as [| | | ? ? s1 s2 H1 H2 E1 E2 | | | |]; subst.
      destruct s1 as [| a' s1'].
      - right. split; [apply nullable_lang; assumption|].
        change (s2 = String a s) in E2. subst s2. apply IH2. assumption.
      - rewrite append_cons in E2. inversion E2; subst.
        left. constructor; [apply IH1|]; assumption. }
    destruct (nullable r1) eqn:En; split; intros H.
    + inversion H; subst; [apply Hcat; assumption|].
      apply (lang_cat i r1 r2 EmptyString (String a s));
        [apply nullable_lang | apply IH2]; assumption.
    + destruct (Hback H) as [H' | [_ H']];
        [apply lang_alt_l | apply lang_alt_r]; assumption.
    + apply Hcat. assumption.
    + destruct (Hback H) as [H' | [H' _]]; [assumption | discriminate].
  - split; intros H; inversion H; subst.
    + apply lang_alt_l, IH1. assumption.
    + apply lang_alt_r, IH2. assumption.
    + apply lang_alt_l, IH1. assumption.
    + apply lang_alt_r, IH2. assumption.
  - split; intros H.
    + inversion H; subst. rewrite <- append_cons.
      constructor; [apply IH|]; assumption.
    + destruct (star_unfold r a s H) as (s1 & s2 & -> & H1 & H2).
      constructor; [apply IH|]; assumption.
Qed.

Lemma matches_lang (r : regex) (s : string) :
  matches i r s = true <-> lang i r s.
Proof.
  revert r. induction s as [| a s IH]; intros r; cbn [matches].
  - apply nullable_lang.
  - rewrite IH. apply deriv_lang.
Qed.

Lemma lang_anything (s : string) : lang i anything s.
Proof.
  induction s as [| a s IH]; [constructor|].
  change (String a s) with (String.append (String a EmptyString) s).
  constructor; [constructor; reflexivity | exact IH].
Qed.

End Patterns.

(** [re.test(s)]: a part of the text is in the language of the pattern,
    at the start of the text for [^] and up to its end for [$]. *)
Lemma test_lang (re : RegExp) (s : string) :
  test re s = true <->
  exists pre mid post,
    s = String.append pre (String.append mid post)
    /\ lang (flagI re) (body re) mid
    /\ (anchorStart re = true -> pre = EmptyString)
    /\ (anchorEnd re = true -> post = EmptyString).
Proof.
  unfold test. rewrite matches_lang.
  destruct (anchorStart re), (anchorEnd re); split.
  - intros H. exists EmptyString, s, EmptyString.
    rewrite append_empty_r. auto.
  - intros (pre & mid & post & -> & H & Hpre & Hpost).
    rewrite Hpre, Hpost by reflexivity.
    rewrite append_empty_r, append_empty_l. exact H.
  - intros H. inversion H; subst. exists EmptyString, s1, s2.
    split; [reflexivity|]. split; [assumption|]. split; [auto | discriminate].
  - intros (pre & mid & post & -> & H & Hpre & _).
    rewrite Hpre by reflexivity. rewrite append_empty_l.
    apply lang_cat; [exact H | apply lang_anything].
  - intros H. inversion H as [| | | ? ? s1 s2 H1 H2 | | | |]; subst.
    exists s1, s2, EmptyString. rewrite append_empty_r.
    split; [reflexivity|]. split; [assumption|]. split; [discriminate | auto].
  - intros (pre & mid & post & -> & H & _ & Hpost).
    rewrite Hpost by reflexivity. rewrite append_empty_r.
    apply lang_cat; [apply lang_anything | exact H].
  - intros H. inversion H as [| | | ? ? s12 s3 H12 H3 | | | |]; subst.
    inversion H12 as [| | | ? ? s1 s2 H1 H2 | | | |]; subst.
    exists s1, s2, s3. rewrite append_assoc.
    split; [reflexivity|]. split; [assumption|]. split; discriminate.
  - intros (pre & mid & post & -> & H & _ & _).
    rewrite <- append_assoc.
    apply lang_cat; [apply lang_cat; [apply lang_anything | exact H]
                    | apply lang_anything].
Qed.

(** [/^\s/]: the first character is white space. *)
Lemma startsWithSpace_spec (line : string) :
  test startsWithSpace line = true <->
  exists a rest, line = String a rest /\ is_space a = true.
Proof.
  rewrite test_lang. cbn [anchorStart anchorEnd body flagI startsWithSpace].
  split.
  - intros (pre & mid & post & -> & H & Hpre & _).
    rewrite Hpre by reflexivity. inversion H; subst.
    exists a, post. split; [reflexivity | assumption].
  - intros (a & rest & -> & Ha).
    exists EmptyString, (String a EmptyString), rest.
    split; [reflexivity|]. split; [constructor; assumption|].
    split; [reflexivity | discriminate].
Qed.

(** [/[A-Za-z][A-Za-z0-9_]+/]: somewhere in the text a letter is followed
    by a letter, a digit or an underscore. *)
Lemma varNamingRule_spec (name : string) :
  test varNamingRule name = true <->
  exists pre a c post,
    name = String.append pre (String a (String c post))
    /\ is_letter a = true /\ is_word c = true.
Proof.
  rewrite test_lang. cbn [anchorStart anchorEnd body flagI varNamingRule].
  unfold Plus. split.
  - intros (pre & mid & post & -> & H & _).
    inversion H as [| | | ? ? s1 s2 L1 L2 | | | |]; subst.
    inversion L1 as [| | ? a La | | | | |]; subst.
    inversion L2 as [| | | ? ? s3 s4 L3 L4 | | | |]; subst.
    inversion L3 as [| | ? c Lc | | | | |]; subst.
    exists pre, a, c, (String.append s4 post).
    rewrite !append_cons, !append_empty_l. auto.
  - intros (pre & a & c & post & -> & Ha & Hc).
    exists pre, (String a (String c EmptyString)), post.
    split; [reflexivity|]. split; [|split; discriminate].
    apply (lang_cat _ _ _ (String a EmptyString) (String c EmptyString));
      [constructor; assumption|].
    apply (lang_cat _ _ _ (String c EmptyString) EmptyString);
      constructor; assumption.
Qed.

Lemma fold_case_append (s t : string) :
  fold_case (String.append s t) = String.append (fold_case s) (fold_case t).
Proof.
  induction s as [| a s IH]; [reflexivity|].
  rewrite append_cons. cbn [fold_case]. rewrite IH, append_cons. reflexivity.
Qed.

(** With the [i] flag a word matches the texts that fold to it. *)
Lemma lang_Str (w s : string) :
  lang true (Str w) s <-> fold_case s = fold_case w.
Proof.
  revert s. induction w as [| c w IH]; intros s; cbn [Str fold_case]; split.
  - intros H. inversion H. reflexivity.
  - destruct s; [constructor | discriminate].
  - intros H. inversion H as [| | | ? ? s1 s2 H1 H2 | | | |]; subst.
    inversion H1 as [| ? a Hc | | | | | |]; subst.
    rewrite append_cons, append_empty_l. cbn [fold_case].
    apply IH in H2. rewrite H2.
    unfold same_char in Hc. apply Ascii.eqb_eq in Hc. rewrite Hc. reflexivity.
  - destruct s as [| a s]; [discriminate|]. cbn [fold_case].
    intros H. inversion H as [[Ha Hs]].
    change (String a s) with (String.append (String a EmptyString) s).
    constructor; [|apply IH; assumption].
    constructor. unfold same_char. apply Ascii.eqb_eq. congruence.
Qed.

Lemma lang_Lit (c : ascii) (s : string) :
  lang true (Lit c) s <-> fold_case s = String (to_upper c) EmptyString.
Proof.
  split.
  - intros H. inversion H as [| ? a Hc | | | | | |]; subst. cbn [fold_case].
    unfold same_char in Hc. apply Ascii.eqb_eq in Hc. rewrite Hc. reflexivity.
  - destruct s as [| a [| b s]]; try discriminate. cbn [fold_case].
    intros H. inversion H. constructor. unfold same_char.
    apply Ascii.eqb_eq. congruence.
Qed.

(** A text that folds to [fold_case w +:+ v] begins with a text that
    folds to [fold_case w]. *)
Lemma fold_case_split (w v u : string) :
  fold_case u = String.append (fold_case w) v ->
  exists u1 u2,
    u = String.append u1 u2 /\ fold_case u1 = fold_case w /\ fold_case u2 = v.
Proof.
  revert u. induction w as [| c w IH]; intros u; cbn [fold_case].
  - rewrite append_empty_l. intros H. exists EmptyString, u. auto.
  - rewrite append_cons. destruct u as [| a u]; [discriminate|].
    cbn [fold_case]. intros H. inversion H as [[Ha Hu]].
    destruct (IH u Hu) as (u1 & u2 & -> & H1 & H2).
    exists (String a u1), u2. cbn [fold_case]. rewrite H1. auto.
Qed.

(** [/^(seconds?|sec|s)$/i]: the whole text is one of the four words, in
    any case. *)
Lemma secondsUnit_spec (u : string) :
  test secondsUnit u = true <->
  In (fold_case u) ["SECOND"; "SECONDS"; "SEC"; "S"].
Proof.
  rewrite test_lang. cbn [anchorStart anchorEnd body flagI secondsUnit].
  unfold Opt. split.
  - intros (pre & mid & post & -> & H & Hpre & Hpost).
    rewrite Hpre, Hpost by reflexivity.
    rewrite append_empty_r, append_empty_l.
    inversion H as [| | | | ? ? ? H1 | ? ? ? H1 | |]; subst.
    + inversion H1 as [| | | ? ? s1 s2 H2 H3 | | | |]; subst.
      apply (lang_Str "second") in H2. rewrite fold_case_append, H2.
      inversion H3 as [| | | | ? ? ? H4 | ? ? ? H4 | |]; subst.
      * apply lang_Lit in H4. rewrite H4. right. left. reflexivity.
      * inversion H4. left. reflexivity.
    + inversion H1 as [| | | | ? ? ? H2 | ? ? ? H2 | |]; subst.
      * apply (lang_Str "sec") in H2. rewrite H2. right. right. left. reflexivity.
      * apply lang_Lit in H2. rewrite H2. right. right. right. left. reflexivity.
  - intros H. exists EmptyString, u, EmptyString.
    rewrite append_empty_r, append_empty_l.
    split; [reflexivity|]. split; [|auto].
    destruct H as [H | [H | [H | [H | []]]]]; symmetry in H.
    + apply lang_alt_l. rewrite <- (append_empty_r u).
      constructor; [apply (lang_Str "second"); exact H | apply lang_alt_r; constructor].
    + destruct (fold_case_split "second" "S" u H) as (u1 & u2 & -> & H1 & H2).
      apply lang_alt_l.
      constructor; [apply (lang_Str "second"); exact H1
                  | apply lang_alt_l, lang_Lit; exact H2].
    + apply lang_alt_r, lang_alt_l, (lang_Str "sec"). exact H.
    + apply lang_alt_r, lang_alt_r, lang_Lit. exact H.
Qed.

(** *** The heap of points *)

Arguments Heap.get : simpl never.
Arguments Heap.update : simpl never.

Lemma get_update_eq (f : Point.t -> Point.t) (l : nat) (h : Heap.t) :
  is_Some (Heap.cells h !! l) ->
  Heap.get (Heap.update f l h) l = f (Heap.get h l).
Proof.
  intros [p Hp]. unfold Heap.get, Heap.update. cbn [Heap.cells].
  rewrite lookup_total_alter_eq, Hp. cbn.
  rewrite (lookup_total_correct _ _ _ Hp). reflexivity.
Qed.

Lemma get_update_ne (f : Point.t -> Point.t) (l l' : nat) (h : Heap.t) :
  l <> l' -> Heap.get (Heap.update f l h) l' = Heap.get h l'.
Proof.
  intros Hne. unfold Heap.get, Heap.update. cbn [Heap.cells].
  apply lookup_total_alter_ne. assumption.
Qed.

Lemma update_allocated (f : Point.t -> Point.t) (l l' : nat) (h : Heap.t) :
  is_Some (Heap.cells (Heap.update f l h) !! l') <-> is_Some (Heap.cells h !! l').
Proof.
  unfold Heap.update. cbn [Heap.cells]. rewrite lookup_alter.
  destruct (decide (l = l')) as [-> | _]; [|reflexivity].
  rewrite fmap_is_Some. reflexivity.
Qed.

(** *** Tokens *)

Lemma split_no_space (text : string) : Forall (fun w => w <> " ") (split " " text).
Proof.
  induction text as [| a r IH]; cbn [split].
  - repeat constructor. discriminate.
  - destruct (Ascii.eqb_spec a " ") as [-> | Hne].
    + constructor; [discriminate | assumption].
    + destruct (split " " r) as [| w ws].
      * repeat constructor. congruence.
      * inversion IH; subst. constructor; [congruence | assumption].
Qed.

(** The loop over [removeWords] removes nothing: [split] yields no word
    that is a single space. *)
Lemma banned_words_none (text : string) :
  filter (fun w => w ∉ [" "]) (split " " text) = split " " text.
Proof.
  pose proof (split_no_space text) as H.
  induction H as [| w ws Hw _ IH]; [reflexivity|].
  rewrite filter_cons_True; [f_equal; assumption|].
  rewrite list_elem_of_singleton. assumption.
Qed.

Lemma split_nonempty (sep : ascii) (text : string) : split sep text <> [].
Proof.
  destruct text as [| a r]; cbn [split]; [discriminate|].
  destruct (Ascii.eqb a sep); [discriminate|].
  destruct (split sep r); discriminate.
Qed.

(** *** Methods of the shapes *)

Lemma moveTo_heap (s : Shape.t) (x y : option number) (h : Heap.t) :
  snd (iShape.moveTo s x y h)
    = Heap.update (fun p => Point.moveTo p x y) (Shape.point0 s) h.
Proof. unfold iShape.moveTo. destruct (Shape.class s); reflexivity. Qed.

Lemma moveBy_heap (s : Shape.t) (x y : option number) (h : Heap.t) :
  snd (iShape.moveBy s x y h)
    = Heap.update (fun p => Point.moveBy p x y) (Shape.point0 s) h.
Proof. unfold iShape.moveBy. destruct (Shape.class s); reflexivity. Qed.

Lemma sizeTo_heap (s : Shape.t) (x y : option number) (h : Heap.t) :
  snd (iShape.sizeTo s x y h)
    = Heap.update (fun p => Point.moveTo p x y) (Shape.point1 s) h.
Proof. unfold iShape.sizeTo. destruct (Shape.class s); reflexivity. Qed.

Lemma sizeBy_heap (s : Shape.t) (x y : option number) (h : Heap.t) :
  snd (iShape.sizeBy s x y h)
    = Heap.update (fun p => Point.moveBy p x y) (Shape.point1 s) h.
Proof. unfold iShape.sizeBy. destruct (Shape.class s); reflexivity. Qed.

Lemma moveTo_shape (s : Shape.t) (x y : option number) (h : Heap.t) :
  same_but_attributes s (fst (iShape.moveTo s x y h)).
Proof.
  unfold iShape.moveTo, same_but_attributes.
  destruct (Shape.class s) eqn:E; cbn; rewrite ?E; repeat split.
Qed.

Lemma moveBy_shape (s : Shape.t) (x y : option number) (h : Heap.t) :
  same_but_attributes s (fst (iShape.moveBy s x y h)).
Proof.
  unfold iShape.moveBy, same_but_attributes.
  destruct (Shape.class s) eqn:E; cbn; rewrite ?E; repeat split.
Qed.

Lemma sizeTo_shape (s : Shape.t) (x y : option number) (h : Heap.t) :
  same_but_attributes s (fst (iShape.sizeTo s x y h)).
Proof.
  unfold iShape.sizeTo, same_but_attributes.
  destruct (Shape.class s) eqn:E; cbn; rewrite ?E; repeat split.
Qed.

Lemma sizeBy_shape (s : Shape.t) (x y : option number) (h : Heap.t) :
  same_but_attributes s (fst (iShape.sizeBy s x y h)).
Proof.
  unfold iShape.sizeBy, same_but_attributes.
  destruct (Shape.class s) eqn:E; cbn; rewrite ?E; repeat split.
Qed.

(** *** The registry *)

Lemma shape_ok_check (h : Heap.t) (sh : Shape.t) :
  shape_okb h sh = true -> shape_ok h sh.
Proof.
  unfold shape_okb, shape_ok. rewrite !andb_true_iff.
  intros (((((Ht & Hne) & H0) & H1) & A0) & A1).
  apply String.eqb_eq in Ht. apply negb_true_iff, Nat.eqb_neq in Hne.
  apply Nat.ltb_lt in H0. apply Nat.ltb_lt in H1.
  apply bool_decide_eq_true_1 in A0. apply bool_decide_eq_true_1 in A1.
  auto 10.
Qed.

Lemma apart_check (s1 s2 : Shape.t) : apartb s1 s2 = true -> apart s1 s2.
Proof.
  unfold apartb, apart. rewrite !andb_true_iff, !negb_true_iff, !Nat.eqb_neq.
  tauto.
Qed.

Lemma registry_ok_check (s : state) : registry_okb s = true -> registry_ok s.
Proof.
  unfold registry_okb, registry_ok. cbn zeta.
  rewrite andb_true_iff, !forallb_forall. intros [Hshapes Hpairs]. split.
  - intros k sh Hk. apply shape_ok_check.
    apply (Hshapes (k, sh)), list_elem_of_In, elem_of_map_to_list. assumption.
  - intros k1 k2 s1 s2 Hne H1 H2.
    assert (I1 : In (k1, s1) (map_to_list (items s)))
      by (apply list_elem_of_In, elem_of_map_to_list; assumption).
    assert (I2 : In (k2, s2) (map_to_list (items s)))
      by (apply list_elem_of_In, elem_of_map_to_list; assumption).
    specialize (Hpairs _ I1). rewrite forallb_forall in Hpairs.
    specialize (Hpairs _ I2). cbn [fst snd] in Hpairs.
    apply orb_true_iff in Hpairs as [Heq | Hap].
    + apply String.eqb_eq in Heq. contradiction.
    + apply apart_check. assumption.
Qed.

Lemma shape_ok_same (h h' : Heap.t) (sh sh' : Shape.t) :
  same_points sh sh' ->
  Heap.next h' = Heap.next h ->
  (forall l, is_Some (Heap.cells h' !! l) <-> is_Some (Heap.cells h !! l)) ->
  shape_ok h sh -> shape_ok h' sh'.
Proof.
  intros (Hc & Ht & H0 & H1) Hnext Halloc (T & Hne & L0 & L1 & A0 & A1).
  unfold shape_ok. rewrite Hc, Ht, H0, H1, Hnext, !Halloc. auto 10.
Qed.

Lemma apart_same (s1 s1' s2 s2' : Shape.t) :
  same_points s1 s1' -> same_points s2 s2' -> apart s1 s2 -> apart s1' s2'.
Proof.
  intros (_ & _ & A0 & A1) (_ & _ & B0 & B1). unfold apart.
  rewrite A0, A1, B0, B1. tauto.
Qed.

Lemma same_points_refl (sh : Shape.t) : same_points sh sh.
Proof. repeat split. Qed.

Lemma apart_sym (s1 s2 : Shape.t) : apart s1 s2 -> apart s2 s1.
Proof. unfold apart. intuition congruence. Qed.

(** A step that touches only [a] keeps the registry well formed. *)
Lemma touches_ok (a : string) (s s' : state) :
  registry_ok s -> touches a s s' -> registry_ok s'.
Proof.
  intros [Hshapes Hpairs] [[Hi Hh] | (sh & sh' & Ha & Hi & Hsame & Hn & Hal & _)].
  - unfold registry_ok. rewrite Hi, Hh. auto.
  - unfold registry_ok. rewrite Hi. split.
    + intros k sh0. rewrite lookup_insert.
      destruct (decide (a = k)) as [<- | Hne]; intros Hk.
      * inversion Hk; subst. eapply shape_ok_same; eauto.
      * eapply shape_ok_same; eauto using same_points_refl.
    + intros k1 k2 s1 s2 Hne. rewrite !lookup_insert.
      destruct (decide (a = k1)) as [<- | N1];
        destruct (decide (a = k2)) as [<- | N2]; intros H1 H2;
        try congruence.
      * inversion H1; subst.
        eapply apart_same; [eassumption | apply same_points_refl | eauto].
      * inversion H2; subst.
        eapply apart_same; [apply same_points_refl | eassumption | eauto].
      * eauto.
Qed.

(** And leaves every other shape as it was. *)
Lemma touches_view (a b : string) (s s' : state) :
  registry_ok s -> touches a s s' -> b <> a -> view b s' = view b s.
Proof.
  intros [Hshapes Hpairs] [[Hi Hh] | (sh & sh' & Ha & Hi & _ & _ & _ & Hget)] Hne.
  - unfold view. rewrite Hi, Hh. reflexivity.
  - unfold view. rewrite Hi, lookup_insert_ne by congruence.
    destruct (items s !! b) as [shb |] eqn:Hb; [|reflexivity].
    destruct (Hpairs b a shb sh Hne Hb Ha) as (N1 & N2 & N3 & N4).
    rewrite !Hget by assumption. reflexivity.
Qed.

Lemma same_but_attributes_points (sh sh' : Shape.t) :
  same_but_attributes sh sh' -> same_points sh sh'.
Proof. unfold same_but_attributes, same_points. tauto. Qed.

Lemma set_fill_points (v : value) (sh : Shape.t) :
  same_points sh (iShape.set_fill v sh).
Proof.
  unfold iShape.set_fill, same_points.
  destruct (Shape.class sh) eqn:E; cbn; rewrite ?E; repeat split.
Qed.

Lemma setStroke_points (color : arg string) (width : arg number) (sh : Shape.t) :
  same_points sh (Shape.setStroke color width sh).
Proof. repeat split. Qed.

(** A step that replaces the shape under [a] and leaves the heap. *)
Lemma replace_touches (a : string) (s s' : state) (sh sh' : Shape.t) :
  items s !! a = Some sh -> same_points sh sh' ->
  items s' = <[a := sh']> (items s) -> heap s' = heap s ->
  touches a s s'.
Proof.
  intros Ha Hsame Hi Hh. right. exists sh, sh'. rewrite Hh. auto 10.
Qed.

Lemma onShape_touches (varName : option string)
    (method : Shape.t -> Heap.t -> Shape.t * Heap.t)
    (report : Shape.t -> Heap.t -> message) (s : state) :
  (forall sh h, same_points sh (fst (method sh h))) ->
  (forall sh h, exists f l,
      (l = Shape.point0 sh \/ l = Shape.point1 sh)
      /\ snd (method sh h) = Heap.update f l h) ->
  touches (to_key varName) s (final (onShape varName method report s)).
Proof.
  intros Hshape Hheap. unfold onShape, getItem, item, read.
  destruct (items s !! to_key varName) as [sh |] eqn:Ha.
  - cbn [final]. unfold call.
    specialize (Hshape sh (heap s)).
    destruct (Hheap sh (heap s)) as (f & l & Hl & Hupdate).
    destruct (method sh (heap s)) as [sh' h'] eqn:E. cbn [fst snd] in *.
    subst h'. right. exists sh, sh'. cbn.
    split; [assumption|]. split; [reflexivity|]. split; [assumption|].
    split; [reflexivity|]. split; [intros l'; apply update_allocated|].
    intros l' N0 N1. apply get_update_ne. destruct Hl; congruence.
  - repeat (case_match; simplify_eq); left; split; reflexivity.
Qed.

Lemma moveTo_touches (varName : option string) (x y : option number) (s : state) :
  touches (to_key varName) s (final (moveTo varName x y s)).
Proof.
  apply onShape_touches; intros sh h.
  - apply same_but_attributes_points, moveTo_shape.
  - eexists. eexists. split; [left; reflexivity | apply moveTo_heap].
Qed.

Lemma moveBy_touches (varName : option string) (x y : option number) (s : state) :
  touches (to_key varName) s (final (moveBy varName x y s)).
Proof.
  apply onShape_touches; intros sh h.
  - apply same_but_attributes_points, moveBy_shape.
  - eexists. eexists. split; [left; reflexivity | apply moveBy_heap].
Qed.

Lemma sizeTo_touches (varName : option string) (x y : option number) (s : state) :
  touches (to_key varName) s (final (sizeTo varName x y s)).
Proof.
  apply onShape_touches; intros sh h.
  - apply same_but_attributes_points, sizeTo_shape.
  - eexists. eexists. split; [right; reflexivity | apply sizeTo_heap].
Qed.

Lemma sizeBy_touches (varName : option string) (x y : option number) (s : state) :
  touches (to_key varName) s (final (sizeBy varName x y s)).
Proof.
  apply onShape_touches; intros sh h.
  - apply same_but_attributes_points, sizeBy_shape.
  - eexists. eexists. split; [right; reflexivity | apply sizeBy_heap].
Qed.

Ltac not_a_shape :=
  unfold assignBuiltin; repeat (case_match; simplify_eq);
  left; split; reflexivity.

Lemma paint_touches (varName color : option string) (s : state) :
  touches (to_key varName) s (final (paint varName color s)).
Proof.
  unfold paint, getItem, item, read.
  destruct (items s !! to_key varName) as [sh |] eqn:Ha; [|not_a_shape].
  eapply replace_touches;
    [eassumption | apply (set_fill_points (value_of_string color))
    | reflexivity | reflexivity].
Qed.

Lemma setStroke_touches (varName color : option string) (width : number)
    (s : state) :
  touches (to_key varName) s (final (setStroke varName color width s)).
Proof.
  unfold setStroke, getItem, item, read.
  destruct (items s !! to_key varName) as [sh |] eqn:Ha; [|not_a_shape].
  eapply replace_touches;
    [eassumption | apply (setStroke_points (raw color) (Given width))
    | reflexivity | reflexivity].
Qed.

Lemma write_touches (varName : option string) (text : list string) (s : state) :
  touches (to_key varName) s (final (write varName text s)).
Proof.
  unfold write, getItem, item, read.
  destruct (items s !! to_key varName) as [sh |] eqn:Ha; [|not_a_shape].
  eapply replace_touches; [eassumption | | reflexivity | reflexivity].
  repeat split.
Qed.

Lemma setPoints_touches (varName : option string) (points : list string)
    (s : state) :
  touches (to_key varName) s (final (setPoints varName points s)).
Proof.
  unfold setPoints, getItem, item, read.
  destruct (items s !! to_key varName) as [sh |] eqn:Ha; [|not_a_shape].
  unfold iShape.setPoints.
  destruct (Shape.class sh) eqn:E; try (left; split; reflexivity).
  eapply replace_touches; [eassumption | | reflexivity | reflexivity].
  unfold same_points. cbn. rewrite E. repeat split.
Qed.

Lemma setWith_touches (varName : option string) (s : state) :
  touches (to_key varName) s (final (setWith varName s)).
Proof. unfold setWith, getItem, item, read. not_a_shape. Qed.

Lemma mutate_touches (a : string) (m : mutation) (s : state) :
  touches a s (mutate a m s).
Proof.
  destruct m as [x y | x y | x y | x y | color | color width]; unfold mutate.
  - apply (moveTo_touches (Some a)).
  - apply (moveBy_touches (Some a)).
  - apply (sizeTo_touches (Some a)).
  - apply (sizeBy_touches (Some a)).
  - apply (paint_touches (Some a)).
  - apply (setStroke_touches (Some a)).
Qed.

(** Whatever is done to [a], another shape stays as it is. *)
Lemma mutateAll_frame (a b : string) (ms : list mutation) (s : state) :
  registry_ok s -> b <> a ->
  registry_ok (mutateAll a ms s) /\ view b (mutateAll a ms s) = view b s.
Proof.
  intros Hok Hne. revert s Hok.
  induction ms as [| m ms IH]; intros s Hok; cbn [mutateAll fold_left].
  - split; [assumption | reflexivity].
  - pose proof (mutate_touches a m s) as Ht.
    destruct (IH (mutate a m s) (touches_ok _ _ _ Hok Ht)) as [Hok' Hview].
    split; [exact Hok'|].
    unfold mutateAll in Hview. rewrite Hview.
    apply (touches_view a b s _ Hok Ht Hne).
Qed.

(** *** The registry across the commands *)

Lemma touches_names (a : string) (s s' : state) :
  touches a s s' -> names_tested s -> names_tested s'.
Proof.
  intros [[Hi _] | (sh & sh' & Ha & Hi & _)] Hnames; unfold names_tested;
    rewrite Hi; [assumption|].
  intros k sh0. rewrite lookup_insert.
  destruct (decide (a = k)) as [<- | _]; eauto.
Qed.

(** A step that only drops shapes. *)
Lemma shrink_ok (s s' : state) :
  (forall k sh, items s' !! k = Some sh -> items s !! k = Some sh) ->
  heap s' = heap s ->
  (registry_ok s -> registry_ok s') /\ (names_tested s -> names_tested s').
Proof.
  intros Hsub Hh. split.
  - intros [Hshapes Hpairs]. split; [rewrite Hh|]; eauto.
  - intros Hnames k sh Hk. eauto.
Qed.

Lemma same_items_ok (s s' : state) :
  items s' = items s -> heap s' = heap s ->
  (registry_ok s -> registry_ok s') /\ (names_tested s -> names_tested s').
Proof. intros Hi Hh. apply shrink_ok; [rewrite Hi; auto | assumption]. Qed.

Lemma constructors (type : string) (make : string -> Heap.t -> Shape.t * Heap.t) :
  assoc type objectTypes = Some make ->
  exists k, make = Shape.new k (tag k).
Proof.
  unfold objectTypes. cbn [assoc]. intros H.
  repeat (case_match; simplify_eq);
    first [ now exists KText | now exists KCircle | now exists KRectangle
          | now exists KLine | now exists KPolygon ].
Qed.

(** Registering a new shape under a name that is free. *)
Lemma fresh_ok (s s' : state) (k : variant) (name : string) :
  items s !! name = None ->
  test varNamingRule name = true ->
  items s' = <[name := fst (Shape.new k (tag k) name (heap s))]> (items s) ->
  heap s' = snd (Shape.new k (tag k) name (heap s)) ->
  (registry_ok s -> registry_ok s') /\ (names_tested s -> names_tested s').
Proof.
  intros Hfree Htest Hi Hh. split.
  - intros [Hshapes Hpairs]. unfold registry_ok. rewrite Hi, Hh.
    set (n := Heap.next (heap s)).
    assert (Hold : forall key sh, items s !! key = Some sh ->
              shape_ok (snd (Shape.new k (tag k) name (heap s))) sh
              /\ Shape.point0 sh < n /\ Shape.point1 sh < n).
    { intros key sh Hsh.
      destruct (Hshapes key sh Hsh) as (T & N & B0 & B1 & C0 & C1).
      fold n in B0, B1. split; [|split; assumption].
      unfold shape_ok. cbn. fold n.
      split; [assumption|]. split; [assumption|]. split; [lia|]. split; [lia|].
      rewrite !lookup_insert. split; repeat case_decide; eauto. }
    split.
    + intros key sh. rewrite lookup_insert.
      destruct (decide (name = key)) as [<- | Hkey]; intros Hsh.
      * inversion Hsh; subst sh. unfold shape_ok. cbn. fold n.
        split; [reflexivity|]. split; [lia|]. split; [lia|]. split; [lia|].
        rewrite !lookup_insert. split; repeat case_decide; eauto; lia.
      * apply (Hold key sh Hsh).
    + intros k1 k2 s1 s2 Hkeys. rewrite !lookup_insert.
      destruct (decide (name = k1)) as [<- | N1];
        destruct (decide (name = k2)) as [<- | N2]; intros E1 E2;
        try congruence.
      * inversion E1; subst s1. destruct (Hold k2 s2 E2) as (_ & B0 & B1).
        unfold apart. cbn. fold n. lia.
      * inversion E2; subst s2. destruct (Hold k1 s1 E1) as (_ & B0 & B1).
        unfold apart. cbn. fold n. lia.
      * eauto.
  - intros Hnames key sh. rewrite Hi, lookup_insert.
    destruct (decide (name = key)) as [<- | _]; eauto.
Qed.

Lemma keeps_refl (s : state) : keeps s s.
Proof. split; auto. Qed.

Lemma keeps_trans (s1 s2 s3 : state) : keeps s1 s2 -> keeps s2 s3 -> keeps s1 s3.
Proof. intros [A1 B1] [A2 B2]. split; auto. Qed.

Lemma keeps_same (s s' : state) :
  items s' = items s -> heap s' = heap s -> keeps s s'.
Proof. apply same_items_ok. Qed.

Lemma keeps_touches (a : string) (s s' : state) : touches a s s' -> keeps s s'.
Proof.
  intros Ht. split; [intros Hok; eapply touches_ok | eapply touches_names];
    eassumption.
Qed.

(** *** Creating and copying *)

Lemma constructor_of (k : variant) :
  assoc (tag k) objectTypes = Some (Shape.new k (tag k)).
Proof. destruct k; reflexivity. Qed.

Lemma item_absent (s : state) (key : string) :
  item s key = Absent -> items s !! key = None.
Proof.
  unfold item. destruct (items s !! key); [discriminate | reflexivity].
Qed.

Lemma item_own (s : state) (key : string) (shape : Shape.t) :
  items s !! key = Some shape -> item s key = Own shape.
Proof. intros H. unfold item. rewrite H. reflexivity. Qed.

Lemma tag_nonempty (k : variant) : tag k <> EmptyString.
Proof. destruct k; discriminate. Qed.

Lemma tested_nonempty (name : string) :
  test varNamingRule name = true -> name <> EmptyString.
Proof. intros H ->. vm_compute in H. discriminate. Qed.

Lemma get_alloc_old (p : Point.t) (h : Heap.t) (l : nat) :
  l < Heap.next h -> Heap.get (snd (Heap.alloc p h)) l = Heap.get h l.
Proof.
  intros Hl. unfold Heap.get, Heap.alloc. cbn [snd Heap.cells].
  apply lookup_total_insert_ne. lia.
Qed.

Lemma stroke_rebuilt (k : Stroke.t) :
  Stroke.new (Some (Stroke.color k)) (Some (Stroke.width k)) = k.
Proof. destruct k; reflexivity. Qed.

(** What [copyInto] makes of the new shape [to0]. *)
Lemma copyInto_spec (from to0 : Shape.t) (b : string) (s : state) :
  items s !! b = Some to0 ->
  let h := heap s in
  let h1 := Heap.update
              (fun p => Point.moveTo p (Some (Shape.x from h)) (Some (Shape.y from h)))
              (Shape.point0 to0) h in
  let h2 := Heap.update
              (fun p => Point.moveTo p (Some (Shape.width from h1))
                                     (Some (Shape.height from h1)))
              (Shape.point1 to0) h1 in
  exists to,
    copyInto from b s = set_heap h2 (set_items (<[b := to]> (items s)) s)
    /\ same_points to0 to
    /\ Shape.name to = Shape.name to0
    /\ Shape.stroke to = Shape.stroke from
    /\ Element.textContent (Shape.domElement to)
       = Element.textContent (Shape.domElement to0)
    /\ (Shape.class to0 <> KLine -> iShape.get_fill to = iShape.get_fill from).
Proof.
  intros Hb h h1 h2. unfold copyInto. rewrite Hb. fold h.
  pose proof (moveTo_heap to0 (Some (Shape.x from h)) (Some (Shape.y from h)) h)
    as Hh1.
  pose proof (moveTo_shape to0 (Some (Shape.x from h)) (Some (Shape.y from h)) h)
    as Hs1.
  destruct (iShape.moveTo to0 _ _ h) as [t1 h1'] eqn:E1.
  cbn [fst snd] in Hh1, Hs1. subst h1'. fold h1.
  pose proof (sizeTo_heap t1 (Some (Shape.width from h1))
                (Some (Shape.height from h1)) h1) as Hh2.
  pose proof (sizeTo_shape t1 (Some (Shape.width from h1))
                (Some (Shape.height from h1)) h1) as Hs2.
  destruct (iShape.sizeTo t1 _ _ h1) as [t2 h2'] eqn:E2.
  cbn [fst snd] in Hh2, Hs2. subst h2'.
  destruct Hs1 as (C1 & T1 & N1 & P01 & P11 & K1 & V1 & F1 & X1 & G1).
  destruct Hs2 as (C2 & T2 & N2 & P02 & P12 & K2 & V2 & F2 & X2 & G2).
  rewrite P11. fold h2.
  eexists. split; [reflexivity|].
  split; [|split; [|split; [|split]]].
  - unfold same_points, iShape.set_fill.
    destruct (Shape.class t2) eqn:E; cbn; rewrite ?E; repeat split; congruence.
  - unfold iShape.set_fill. destruct (Shape.class t2); cbn; congruence.
  - unfold Shape.stroke. cbn. apply stroke_rebuilt.
  - unfold iShape.set_fill. destruct (Shape.class t2); cbn; congruence.
  - intros Hline. assert (Hc : Shape.class t2 = Shape.class to0) by congruence.
    unfold iShape.set_fill, iShape.get_fill at 1.
    destruct (Shape.class t2) eqn:E; cbn; rewrite ?E; try reflexivity.
    congruence.
Qed.

Lemma copyInto_touches (from : Shape.t) (b : string) (s : state) :
  touches b s (copyInto from b s).
Proof.
  destruct (items s !! b) as [to0 |] eqn:Hb.
  - destruct (copyInto_spec from to0 b s Hb) as (to & Hcopy & Hsame & _).
    rewrite Hcopy. right. exists to0, to. cbn.
    split; [assumption|]. split; [reflexivity|]. split; [assumption|].
    split; [reflexivity|].
    split; [intros l; rewrite !update_allocated; reflexivity|].
    intros l N0 N1. rewrite !get_update_ne by congruence. reflexivity.
  - unfold copyInto. rewrite Hb. left. split; reflexivity.
Qed.

(** ** Properties *)

Section Properties.

Variable generateName : nat -> string.

(** *** Shared lemmas *)

Lemma string_truthy_nonempty (name : string) :
  name <> EmptyString -> string_truthy (Some name) = Some name.
Proof. destruct name; [congruence | reflexivity]. Qed.

Lemma items_log (m : message) (s : state) : items (log m s) = items s.
Proof. reflexivity. Qed.

Lemma texts_log (m : message) (s : state) : texts (log m s) = texts s ++ [m].
Proof. unfold texts, log. simpl. rewrite map_app. reflexivity. Qed.

(** A name that is taken: [create] reports it before any other check. *)
Lemma create_taken (s : state) (name : string) (type : option string) :
  is_Some (items s !! name) -> name <> EmptyString ->
  create generateName (Some name) type s
    = Returns None (log (AlreadyAnObject name) s).
Proof.
  intros [shape Hshape] Hname. unfold create, item.
  rewrite (string_truthy_nonempty name Hname), Hshape. reflexivity.
Qed.

(** The registry never holds the empty name. *)
Lemma no_empty_name (s : state) : names_tested s -> items s !! EmptyString = None.
Proof.
  intros Hnames. destruct (items s !! EmptyString) as [sh |] eqn:E; [|reflexivity].
  specialize (Hnames EmptyString sh E). vm_compute in Hnames. discriminate.
Qed.

Lemma cleanCommand_indented (s : state) (line : string) :
  test startsWithSpace line = true ->
  cleanCommand line s
    = splice1 (withObjName_text (withObjName s)) (split " " (trim line)).
Proof.
  intros H. unfold cleanCommand. rewrite H, banned_words_none. reflexivity.
Qed.

Lemma cleanCommand_plain (s : state) (line : string) :
  test startsWithSpace line = false ->
  cleanCommand line s = split " " (trim line).
Proof.
  intros H. unfold cleanCommand. rewrite H, banned_words_none. reflexivity.
Qed.

(** What [create] has done when it returns a shape. *)
Lemma create_returns_shape (varName type : option string) (s s' : state)
    (b : string) :
  create generateName varName type s = Returns (Some b) s' ->
  withObjName s' = Given b /\ is_Some (items s' !! b).
Proof.
  unfold create. intros H.
  repeat case_match; try discriminate.
  all: inversion H; subst; cbn.
  all: split; [reflexivity | rewrite lookup_insert_eq; eauto].
Qed.

Lemma executeLine_nonempty (line : string) (s : state) :
  is_empty line = false ->
  executeLine generateName line s
    = dispatch generateName
        (cleanCommand line (log (Echo line) (set_lineNumber (S (lineNumber s)) s)))
        (log (Echo line) (set_lineNumber (S (lineNumber s)) s)).
Proof. intros H. unfold executeLine. rewrite H. reflexivity. Qed.

Lemma dispatch_paint (name color : string) (s : state) :
  dispatch generateName ["paint"; name; color] s
    = paint (Some name) (Some color) s.
Proof. reflexivity. Qed.

(** *** Timeouts across the commands *)

Lemma advances_refl (s : state) : advances s s.
Proof. unfold advances. auto. Qed.

Lemma advances_trans (s1 s2 s3 : state) :
  advances s1 s2 -> advances s2 s3 -> advances s1 s3.
Proof.
  intros (Hn1 & Ha1 & Hr1) (Hn2 & Ha2 & Hr2).
  split; [lia|]. split; [|auto].
  intros h Hh. destruct (Ha2 h Hh) as [H2 | H2]; [|right; lia].
  destruct (Ha1 h H2); [left | right]; assumption.
Qed.

Lemma untouched_advances (s s' : state) : untouched s s' -> advances s s'.
Proof.
  intros (Ha & Hn & Ht). unfold advances, timers_recorded.
  rewrite Ha, Hn, Ht. auto.
Qed.

Lemma untouched_refl (s : state) : untouched s s.
Proof. repeat split. Qed.

Lemma untouched_trans (s1 s2 s3 : state) :
  untouched s1 s2 -> untouched s2 s3 -> untouched s1 s3.
Proof. unfold untouched. intros (-> & -> & ->) (-> & -> & ->). auto. Qed.

Ltac handler_cases :=
  repeat (case_match; simplify_eq); cbn; repeat split.

Lemma create_untouched (varName type : option string) (s : state) :
  untouched s (final (create generateName varName type s)).
Proof. unfold create. handler_cases. Qed.

Lemma copyInto_untouched (fromObject : Shape.t) (b : string) (s : state) :
  untouched s (copyInto fromObject b s).
Proof. unfold copyInto. handler_cases. Qed.

Lemma clone_untouched (fromVarName toVarName : option string) (s : state) :
  untouched s (final (clone generateName fromVarName toVarName s)).
Proof.
  unfold clone, getItem.
  destruct (item _ _) as [fromObject | | |].
  - pose proof (create_untouched toVarName (Some (Shape.type fromObject)) s) as Hc.
    destruct (create _ _ _ s) as [[b |] s1 | s1]; cbn [final] in *;
      try exact Hc.
    eapply untouched_trans; [exact Hc|].
    eapply untouched_trans; [apply (copyInto_untouched fromObject b)|].
    repeat split.
  - pose proof (create_untouched toVarName None s) as Hc.
    destruct (create _ _ _ s) as [? s1 | s1]; exact Hc.
  - pose proof (create_untouched toVarName None s) as Hc.
    destruct (create _ _ _ s) as [? s1 | s1]; exact Hc.
  - repeat split.
Qed.

Lemma paint_untouched (varName color : option string) (s : state) :
  untouched s (final (paint varName color s)).
Proof. unfold paint, getItem, assignBuiltin. handler_cases. Qed.

Lemma remove_untouched (varName : option string) (s : state) :
  untouched s (final (remove varName s)).
Proof. unfold remove, getItem. handler_cases. Qed.

Lemma write_untouched (varName : option string) (text : list string) (s : state) :
  untouched s (final (write varName text s)).
Proof. unfold write, getItem, assignBuiltin. handler_cases. Qed.

Lemma setStroke_untouched (varName color : option string) (width : number)
    (s : state) :
  untouched s (final (setStroke varName color width s)).
Proof. unfold setStroke, getItem. handler_cases. Qed.

Lemma onShape_untouched (varName : option string)
    (method : Shape.t -> Heap.t -> Shape.t * Heap.t)
    (report : Shape.t -> Heap.t -> message) (s : state) :
  untouched s (final (onShape varName method report s)).
Proof. unfold onShape, getItem, call. handler_cases. Qed.

Lemma setPoints_untouched (varName : option string) (points : list string)
    (s : state) :
  untouched s (final (setPoints varName points s)).
Proof. unfold setPoints, getItem. handler_cases. Qed.

Lemma setWith_untouched (varName : option string) (s : state) :
  untouched s (final (setWith varName s)).
Proof. unfold setWith, getItem. handler_cases. Qed.

Lemma notPromise_final {A} (o : outcome A) : final (notPromise o) = final o.
Proof. destruct o; reflexivity. Qed.

(** What [reset] leaves armed. *)
Lemma cleared_lookup (l : list nat) (a : gmap nat timeout) (h : nat) :
  fold_left (fun a timer => clearInterval timer (clearTimeout timer a)) l a !! h
    = if bool_decide (h ∈ l) then None else a !! h.
Proof.
  revert a. induction l as [| t l IH]; intros a; cbn [fold_left].
  - reflexivity.
  - rewrite IH. unfold clearInterval, clearTimeout.
    destruct (decide (h = t)) as [-> | Hne].
    + rewrite !lookup_delete_eq.
      rewrite (bool_decide_eq_true_2 (t ∈ t :: l)) by left.
      destruct (bool_decide (t ∈ l)); reflexivity.
    + rewrite !lookup_delete_ne by congruence.
      destruct (decide (h ∈ l)) as [Hin | Hnin].
      * rewrite !bool_decide_eq_true_2; [reflexivity | right | ]; assumption.
      * rewrite !bool_decide_eq_false_2; [reflexivity | | assumption].
        intros Hin. apply elem_of_cons in Hin as [? | ?]; auto.
Qed.

Lemma reset_disarms (s : state) (h : nat) :
  timers_recorded s -> armed (reset s) !! h = None.
Proof.
  intros Hrec. unfold reset. cbn. rewrite cleared_lookup.
  destruct (decide (h ∈ timers s)) as [Hin | Hnin].
  - rewrite bool_decide_eq_true_2 by assumption. reflexivity.
  - rewrite bool_decide_eq_false_2 by assumption.
    destruct (armed s !! h) eqn:E; [|reflexivity].
    destruct (Hrec h) as [Hin _]; [eauto | contradiction].
Qed.

Lemma reset_advances (s : state) : advances s (reset s).
Proof.
  split; [reflexivity|]. split.
  - intros h. unfold reset. cbn. rewrite cleared_lookup.
    destruct (bool_decide (h ∈ timers s)); [intros [? ?]; discriminate | auto].
  - intros Hrec h Hh. rewrite (reset_disarms s h Hrec) in Hh.
    destruct Hh; discriminate.
Qed.

Lemma wait_advances (n unitName : option string) (s : state) :
  advances s (final (wait n unitName s)).
Proof.
  unfold wait. cbn. split; [cbn; lia|]. split.
  - intros h. cbn. rewrite lookup_insert.
    destruct (decide (nextHandle s = h)) as [<- | _]; auto.
  - intros Hrec h. cbn. rewrite lookup_insert.
    destruct (decide (nextHandle s = h)) as [<- | _].
    + intros _. split; [|lia]. apply elem_of_app. right. left.
    + intros Hh. destruct (Hrec h Hh). split; [|lia].
      apply elem_of_app. left. assumption.
Qed.

Lemma command_advances (name : string) (command : handler) :
  assoc name (commands generateName) = Some command ->
  forall words s, advances s (final (command words s)).
Proof.
  unfold commands. cbn [assoc]. intros H words s.
  repeat (case_match; simplify_eq); try discriminate.
  all: rewrite ?notPromise_final.
  all: first
    [ apply reset_advances | apply wait_advances
    | apply untouched_advances; first
        [ apply paint_untouched | apply remove_untouched
        | apply create_untouched | apply clone_untouched
        | apply write_untouched | apply setStroke_untouched
        | apply onShape_untouched | apply setPoints_untouched
        | apply setWith_untouched ] ].
Qed.

Lemma dispatch_advances (words : list string) (s : state) :
  advances s (final (dispatch generateName words s)).
Proof.
  unfold dispatch, read.
  destruct (assoc _ (commands generateName)) as [command |] eqn:E.
  - eapply command_advances. eassumption.
  - repeat case_match; try discriminate; apply untouched_advances;
      repeat split.
Qed.

Lemma executeLine_advances (line : string) (s : state) :
  advances s (final (executeLine generateName line s)).
Proof.
  unfold executeLine. destruct (is_empty line).
  - apply untouched_advances. repeat split.
  - eapply advances_trans; [|apply dispatch_advances].
    apply untouched_advances. repeat split.
Qed.

Lemma forEachPromise_advances (lines : list string) (s : state) :
  advances s (state_of (forEachPromise lines (executeLine generateName) s)).
Proof.
  revert s. induction lines as [| line rest IH]; intros s; cbn [forEachPromise].
  - apply advances_refl.
  - pose proof (executeLine_advances line s) as H.
    destruct (executeLine generateName line s) as [[h |] s1 | s1]; cbn in *.
    + eapply advances_trans; [exact H|]. apply untouched_advances. repeat split.
    + eapply advances_trans; [exact H | apply IH].
    + exact H.
Qed.

Lemma render_advances (code : string) (s : state) :
  advances s (state_of (render generateName code s)).
Proof.
  unfold render.
  eapply advances_trans; [apply reset_advances|].
  eapply advances_trans; [|apply forEachPromise_advances].
  apply untouched_advances. repeat split.
Qed.

Lemma fire_advances (h : nat) (s : state) (p : progress) :
  fire generateName h s = Some p -> advances s (state_of p).
Proof.
  unfold fire. destruct (armed s !! h) as [t |] eqn:E; [|discriminate].
  assert (Hdel : advances s
            (log (TimerFinished (label_n t) (label_units t))
                 (set_armed (delete h (armed s)) s))).
  { split; [reflexivity|]. split.
    - intros h'. cbn. rewrite lookup_delete.
      destruct (decide (h = h')); [intros [? ?]; discriminate | auto].
    - intros Hrec h'. cbn. rewrite lookup_delete.
      destruct (decide (h = h')); [intros [? ?]; discriminate | apply Hrec]. }
  intros H. repeat case_match; simplify_eq; cbn [state_of].
  - eapply advances_trans; [exact Hdel|].
    eapply advances_trans; [|apply forEachPromise_advances].
    apply untouched_advances. repeat split.
  - exact Hdel.
Qed.

Lemma after_advances (e : event) (s : state) :
  advances s (after generateName e s).
Proof.
  destruct e as [code | h]; cbn [after].
  - apply render_advances.
  - destruct (fire generateName h s) eqn:E.
    + eapply fire_advances. eassumption.
    + apply advances_refl.
Qed.

Lemma afterAll_advances (es : list event) (s : state) :
  advances s (afterAll generateName es s).
Proof.
  revert s. induction es as [| e es IH]; intros s; cbn.
  - apply advances_refl.
  - eapply advances_trans; [apply after_advances | apply IH].
Qed.

Lemma timers_recorded_check (s : state) :
  timers_recordedb s = true -> timers_recorded s.
Proof.
  unfold timers_recordedb, timers_recorded. rewrite forallb_forall.
  intros H h [t Ht].
  specialize (H (h, t)). cbn [fst] in H.
  apply andb_prop in H as [Hin Hlt].
  - split; [eapply bool_decide_eq_true_1; eassumption|].
    apply Nat.ltb_lt. assumption.
  - apply list_elem_of_In, elem_of_map_to_list. assumption.
Qed.

(** A name that is free and passes the test, with a type of the table:
    [create] registers the new shape and selects it. *)
Lemma create_fresh (s : state) (name type : string)
    (make : string -> Heap.t -> Shape.t * Heap.t) :
  item s name = Absent ->
  test varNamingRule name = true ->
  type <> EmptyString ->
  assoc type objectTypes = Some make ->
  create generateName (Some name) (Some type) s
    = Returns (Some name)
        (log (Created type name)
           (set_svg (appendChild (Shape.node (fst (make name (heap s)))) (svg s))
              (set_withObjName (Given name)
                 (set_heap (snd (make name (heap s)))
                    (set_items (<[name := fst (make name (heap s))]> (items s))
                       s))))).
Proof.
  intros Habsent Htest Htype Hmake. unfold create.
  rewrite (string_truthy_nonempty name (tested_nonempty name Htest)).
  rewrite Habsent, Htest. cbn [negb].
  rewrite (string_truthy_nonempty type Htype), Hmake. cbn [read].
  destruct (make name (heap s)). reflexivity.
Qed.

(** *** The registry across a run *)

Lemma create_keeps (varName type : option string) (s : state) :
  keeps s (final (create generateName varName type s)).
Proof.
  unfold create.
  destruct (match string_truthy varName with
            | Some v => (v, s)
            | None => (generateName (generated s),
                       set_generated (S (generated s)) s)
            end) as [name s0] eqn:E0.
  assert (K0 : keeps s s0).
  { destruct (string_truthy varName); inversion E0; subst;
      apply keeps_same; reflexivity. }
  eapply keeps_trans; [exact K0|]. clear K0 E0.
  destruct (item s0 name) eqn:Eread;
    try (apply keeps_same; reflexivity).
  assert (Hfree : items s0 !! name = None) by (apply item_absent, Eread).
  destruct (test varNamingRule name) eqn:Etest; cbn [negb];
    [| apply keeps_same; reflexivity].
  destruct (string_truthy type) as [ty |]; [| apply keeps_same; reflexivity].
  unfold read.
  destruct (assoc ty objectTypes) as [make |] eqn:Emake.
  - destruct (constructors ty make Emake) as [k ->].
    destruct (Shape.new k (tag k) name (heap s0)) as [sh h] eqn:Enew.
    cbn [final].
    apply (fresh_ok s0 _ k name Hfree Etest); rewrite Enew; reflexivity.
  - repeat case_match; try discriminate; apply keeps_same; reflexivity.
Qed.

Lemma clone_keeps (fromVarName toVarName : option string) (s : state) :
  keeps s (final (clone generateName fromVarName toVarName s)).
Proof.
  unfold clone, getItem.
  destruct (item _ _) as [fromObject | | |].
  - pose proof (create_keeps toVarName (Some (Shape.type fromObject)) s) as Hc.
    destruct (create _ _ _ s) as [[b |] s1 | s1]; cbn [final] in *;
      try exact Hc.
    eapply keeps_trans; [exact Hc|].
    eapply keeps_trans;
      [apply (keeps_touches b), (copyInto_touches fromObject b)|].
    apply keeps_same; reflexivity.
  - pose proof (create_keeps toVarName None s) as Hc.
    destruct (create _ _ _ s) as [? s1 | s1]; exact Hc.
  - pose proof (create_keeps toVarName None s) as Hc.
    destruct (create _ _ _ s) as [? s1 | s1]; exact Hc.
  - apply keeps_same; reflexivity.
Qed.

Lemma remove_keeps (varName : option string) (s : state) :
  keeps s (final (remove varName s)).
Proof.
  unfold remove, getItem.
  destruct (item _ _) as [shape | | |];
    try (apply keeps_same; reflexivity).
  destruct (Shape.remove shape (svg s)) as [children |];
    [| apply keeps_same; reflexivity].
  apply shrink_ok; [|reflexivity].
  cbn. intros k sh Hk.
  apply lookup_delete_Some in Hk as [_ Hk].
  apply lookup_delete_Some in Hk as [_ Hk]. exact Hk.
Qed.

Lemma reset_keeps (s : state) : keeps s (reset s).
Proof.
  apply shrink_ok; [|reflexivity].
  cbn. intros k sh Hk. rewrite lookup_empty in Hk. discriminate.
Qed.

Lemma command_keeps (name : string) (command : handler) :
  assoc name (commands generateName) = Some command ->
  forall words s, keeps s (final (command words s)).
Proof.
  unfold commands. cbn [assoc]. intros H words s.
  repeat (case_match; simplify_eq); try discriminate.
  all: rewrite ?notPromise_final.
  all: first
    [ apply create_keeps | apply clone_keeps | apply remove_keeps
    | apply reset_keeps
    | apply keeps_same; reflexivity
    | eapply keeps_touches; first
        [ apply paint_touches | apply write_touches | apply setStroke_touches
        | apply moveTo_touches | apply moveBy_touches | apply sizeTo_touches
        | apply sizeBy_touches | apply setPoints_touches
        | apply setWith_touches ] ].
Qed.

Lemma dispatch_keeps (words : list string) (s : state) :
  keeps s (final (dispatch generateName words s)).
Proof.
  unfold dispatch, read.
  destruct (assoc _ (commands generateName)) as [command |] eqn:E.
  - eapply command_keeps. eassumption.
  - repeat case_match; try discriminate; apply keeps_same; reflexivity.
Qed.

Lemma executeLine_keeps (line : string) (s : state) :
  keeps s (final (executeLine generateName line s)).
Proof.
  unfold executeLine. destruct (is_empty line).
  - apply keeps_same; reflexivity.
  - eapply keeps_trans; [|apply dispatch_keeps].
    apply keeps_same; reflexivity.
Qed.

Lemma forEachPromise_keeps (lines : list string) (s : state) :
  keeps s (state_of (forEachPromise lines (executeLine generateName) s)).
Proof.
  revert s. induction lines as [| line rest IH]; intros s; cbn [forEachPromise].
  - apply keeps_refl.
  - pose proof (executeLine_keeps line s) as H.
    destruct (executeLine generateName line s) as [[h |] s1 | s1]; cbn in *.
    + eapply keeps_trans; [exact H|]. apply keeps_same; reflexivity.
    + eapply keeps_trans; [exact H | apply IH].
    + exact H.
Qed.

Lemma after_keeps (e : event) (s : state) : keeps s (after generateName e s).
Proof.
  destruct e as [code | h]; cbn [after].
  - unfold render.
    eapply keeps_trans; [apply reset_keeps|].
    eapply keeps_trans; [|apply forEachPromise_keeps].
    apply keeps_same; reflexivity.
  - unfold fire. destruct (armed s !! h) as [t |]; [|apply keeps_refl].
    destruct (awaiting _ !! h) as [rest |]; cbn [state_of].
    + eapply keeps_trans; [|apply forEachPromise_keeps].
      apply keeps_same; reflexivity.
    + apply keeps_same; reflexivity.
Qed.

(** Every state that runs and timeouts lead to from the initial one
    satisfies the invariant. *)
Lemma reachable_invariant (es : list event) :
  invariant (afterAll generateName es initial).
Proof.
  assert (H0 : invariant initial).
  { split; [|split].
    - split; intros *; cbn; rewrite ?lookup_empty; discriminate.
    - intros k sh. cbn. rewrite lookup_empty. discriminate.
    - intros h [t Ht]. cbn in Ht. rewrite lookup_empty in Ht. discriminate. }
  revert H0. generalize initial. induction es as [| e es IH]; intros s Hs.
  - exact Hs.
  - cbn [afterAll fold_left]. apply IH.
    destruct Hs as (R & N & T).
    destruct (after_keeps e s) as [KR KN].
    destruct (after_advances e s) as (_ & _ & KT).
    split; [|split]; auto.
Qed.

(** *** Errors *)

(** C2. The naming rule that [create] applies is not the rule of the
    specification: [1abc] does not start with a letter, yet [create]
    registers a shape under that name and logs no InvalidName message,
    because the pattern is not anchored; and the one-letter name [a], which
    the rule of the specification allows, is refused, because the pattern
    asks for two characters.  The test of [create] holds exactly when the
    name contains a letter followed by a letter, a digit or an
    underscore. *)
Theorem create_accepts_1abc :
  (forall name,
      test varNamingRule name = true <->
      exists pre a c post,
        name = String.append pre (String a (String c post))
        /\ is_letter a = true /\ is_word c = true) /\
  nameRuleOfSpec "1abc" = false /\
  (exists s shape,
      create generateName (Some "1abc") (Some "rect") initial
        = Returns (Some "1abc") s
      /\ items s !! "1abc" = Some shape
      /\ texts s = [Created "rect" "1abc"]) /\
  nameRuleOfSpec "a" = true /\
  create generateName (Some "a") (Some "rect") initial
    = Returns None (log NameMustStartWithLetter initial).
Proof.
  split; [exact varNamingRule_spec|].
  split; [reflexivity|]. split.
  - eexists. eexists. split; [vm_compute; reflexivity|].
    split; vm_compute; reflexivity.
  - split; reflexivity.
Qed.

(** C1. An exception does escape a command handler: no class of
    [shape.ts] has the [setPoints] method that the [points] command calls,
    so on every existing shape of those classes the handler throws before
    it logs anything, and in a run the line after it is not reached by the
    callback. *)
Theorem points_command_throws :
  (forall (s : state) (name : string) (shape : Shape.t) (points : list string),
      items s !! name = Some shape ->
      Shape.class shape <> KPolygon ->
      setPoints (Some name) points s = Throws s) /\
  (exists s,
      render generateName
        (script ["new rect r1"; "points r1 1,2 3,4"; "paint r1 red"]) initial
        = Escaped ["paint r1 red"] s
      /\ texts s = [Echo "new rect r1"; Created "rect" "r1";
                    Echo "points r1 1,2 3,4"]).
Proof.
  split.
  - intros s name shape points Hshape Hclass.
    unfold setPoints, getItem, item, read. cbn [to_key]. rewrite Hshape.
    unfold iShape.setPoints. destruct (Shape.class shape); congruence.
  - eexists. split; vm_compute; reflexivity.
Qed.

(** The errors that are only logged: the handler returns, and the run
    goes on with the next line. *)
Lemma logged_errors_return (s : state) (name type : string) :
  item s name = Absent ->
  name <> EmptyString ->
  (test varNamingRule name = false ->
   create generateName (Some name) (Some type) s
     = Returns None (log NameMustStartWithLetter s)) /\
  (test varNamingRule name = true ->
   create generateName (Some name) None s = Returns None (log MustSetAType s)) /\
  (test varNamingRule name = true -> type <> EmptyString ->
   read (assoc type objectTypes) (prototype s) type = Absent ->
   create generateName (Some name) (Some type) s
     = Returns None (log (NotAValidType type (map fst objectTypes)) s)) /\
  paint (Some name) None s = Returns None (log (NoObjectCalled name) s) /\
  remove (Some name) s
    = Returns None (log (NoObjectToRemove name) (log (NoObjectCalled name) s)) /\
  (name <> " " ->
   read (assoc name (commands generateName)) (prototype s) name = Absent ->
   dispatch generateName [name] s = Returns None (log (InvalidCommand name) s)) /\
  (forall line rest s',
      executeLine generateName line s = Returns None s' ->
      forEachPromise (line :: rest) (executeLine generateName) s
        = forEachPromise rest (executeLine generateName) s').
Proof.
  intros Habsent Hname.
  split; [|split; [|split; [|split; [|split; [|split]]]]].
  - intros Htest. unfold create.
    rewrite (string_truthy_nonempty name Hname), Habsent, Htest. reflexivity.
  - intros Htest. unfold create.
    rewrite (string_truthy_nonempty name Hname), Habsent, Htest. reflexivity.
  - intros Htest Htype Hunknown. unfold create.
    rewrite (string_truthy_nonempty name Hname), Habsent, Htest.
    rewrite (string_truthy_nonempty type Htype). cbn [negb].
    rewrite Hunknown. reflexivity.
  - unfold paint, getItem. cbn [to_key]. rewrite Habsent. reflexivity.
  - unfold remove, getItem. cbn [to_key]. rewrite Habsent. reflexivity.
  - intros Hspace Hcommand. unfold dispatch.
    rewrite bool_decide_eq_false_2 by (cbn; congruence).
    cbn [lookup list_lookup to_key]. rewrite Hcommand. reflexivity.
  - intros line rest s' H. cbn [forEachPromise]. rewrite H. reflexivity.
Qed.

(** A name that the registry only inherits from [Object.prototype] is
    taken for an object, and the method call on it throws as well. *)
Lemma inherited_name_throws (s : state) (x y : option number) :
  items s !! "toString" = None -> debris s !! "toString" = None ->
  moveBy (Some "toString") x y s = Throws s.
Proof.
  intros H Hd. unfold moveBy, onShape, getItem, item, read. cbn [to_key].
  rewrite H, Hd. reflexivity.
Qed.

(** C3. Creating a shape under a name that is present fails with the
    DuplicateName message, returns nothing and leaves the registry as it
    was.  (The empty name is never present: [create] replaces it by a
    generated one before it looks the name up.) *)
Theorem create_duplicate_name
    (s : state) (name : string) (type : option string) :
  is_Some (items s !! name) -> name <> EmptyString ->
  exists s',
    create generateName (Some name) type s = Returns None s'
    /\ items s' = items s
    /\ heap s' = heap s
    /\ svg s' = svg s
    /\ withObjName s' = withObjName s
    /\ texts s' = texts s ++ [AlreadyAnObject name].
Proof.
  intros Hshape Hname. exists (log (AlreadyAnObject name) s).
  split; [apply create_taken; assumption|].
  repeat split. apply texts_log.
Qed.

(** C10. The duplicate-name check comes first: for a name that is
    present and that the naming rule refuses (as the specification words
    the rule, or as the pattern of the code tests it), [create] reports
    DuplicateName, not InvalidName, whatever the type, and the registry is
    unchanged. *)
Theorem duplicate_check_comes_first
    (s : state) (name : string) (type : option string) :
  is_Some (items s !! name) -> name <> EmptyString ->
  nameRuleOfSpec name = false \/ test varNamingRule name = false ->
  exists s',
    create generateName (Some name) type s = Returns None s'
    /\ texts s' = texts s ++ [AlreadyAnObject name]
    /\ last (texts s') <> Some NameMustStartWithLetter
    /\ items s' = items s.
Proof.
  intros Hshape Hname _. exists (log (AlreadyAnObject name) s).
  split; [apply create_taken; assumption|].
  rewrite texts_log, last_snoc. repeat split. congruence.
Qed.

(** *** The [wait] command *)

(** C4, as the code has it.  The timeout that [wait n unit] arms lasts [n]
    milliseconds when [n] is positive and the unit token does not name
    seconds, [n * 1000] milliseconds when it does (second, seconds, sec or
    s, in any case), and a missing, non-numeric or non-positive [n] is
    replaced by 1000 before the unit is applied: 1000 ms without a seconds
    unit, 1000000 ms with one.  The count is the binary64 number of the
    token and the product is rounded as the machine rounds it, so a count
    that rounds to zero, as [1e-400] does, is not positive. *)
Theorem wait_delay (n unitName : option string) (s : state) :
  exists t,
    armedBy (wait n unitName s) = Some t /\
    let seconds := test secondsUnit (to_key unitName) in
    let positive := gt (Number n) (of_Z 0) in
    (positive = true -> seconds = false -> delay t = Number n) /\
    (positive = true -> seconds = true -> delay t = mul (Number n) (of_Z 1000)) /\
    (positive = false -> seconds = false -> delay t = of_Z 1000) /\
    (positive = false -> seconds = true -> delay t = of_Z 1000000) /\
    (seconds = true <->
     In (fold_case (to_key unitName)) ["SECOND"; "SECONDS"; "SEC"; "S"]) /\
    map (test secondsUnit) ["second"; "seconds"; "sec"; "s"; "SECONDS"; "Sec"]
      = [true; true; true; true; true; true] /\
    map (fun u => test secondsUnit (to_key u))
        [None; Some "ms"; Some "secs"; Some "minutes"; Some "seconds!"]
      = [false; false; false; false; false] /\
    map (fun n => gt (Number n) (of_Z 0))
        [None; Some "0"; Some "-5"; Some "soon"; Some "1e-400"]
      = [false; false; false; false; false].
Proof.
  eexists. split.
  - unfold wait, armedBy. cbn [armed set_timers set_nextHandle set_armed].
    apply lookup_insert_eq.
  - cbn [delay].
    split; [intros -> ->; apply mul_one|].
    split; [intros -> ->; reflexivity|].
    split; [intros -> ->; apply mul_one|].
    split; [intros -> ->; apply thousand_thousand|].
    split; [apply secondsUnit_spec|].
    split; [vm_compute; reflexivity|].
    split; vm_compute; reflexivity.
Qed.

(** *** Numeric arguments *)

(** C5, as the code has it.  A token that is not numeric text (or is
    missing) parses to NaN; [moveBy] and [moveTo] of a point then store
    NaN in that coordinate ([moveBy] adds it, [moveTo] assigns it) and
    treat the other axis as usual, and so do the move and size methods of
    every shape.  Only [null] leaves a coordinate as it was. *)
Theorem not_a_number_is_stored :
  (forall token, numeric_literal token = None -> Number (Some token) = NaN) /\
  Number None = NaN /\
  (forall p y,
      Point._x (Point.moveBy p (Some NaN) y) = NaN
      /\ Point._x (Point.moveTo p (Some NaN) y) = NaN
      /\ Point._y (Point.moveBy p (Some NaN) None) = Point._y p
      /\ Point._y (Point.moveTo p (Some NaN) None) = Point._y p) /\
  (forall p x,
      Point._y (Point.moveBy p x (Some NaN)) = NaN
      /\ Point._y (Point.moveTo p x (Some NaN)) = NaN
      /\ Point._x (Point.moveBy p None (Some NaN)) = Point._x p
      /\ Point._x (Point.moveTo p None (Some NaN)) = Point._x p) /\
  (forall (s : Shape.t) (h : Heap.t) y,
      is_Some (Heap.cells h !! Shape.point0 s) ->
      is_Some (Heap.cells h !! Shape.point1 s) ->
      (let r := iShape.moveBy s (Some NaN) y h in Shape.x (fst r) (snd r) = NaN)
      /\ (let r := iShape.moveTo s (Some NaN) y h in Shape.x (fst r) (snd r) = NaN)
      /\ (let r := iShape.sizeBy s (Some NaN) y h in Shape.width (fst r) (snd r) = NaN)
      /\ (let r := iShape.sizeTo s (Some NaN) y h in Shape.width (fst r) (snd r) = NaN)).
Proof.
  split; [intros token H; unfold Number; rewrite H; reflexivity|].
  split; [reflexivity|].
  split; [intros p y; cbn; rewrite add_NaN, add_zero; repeat split|].
  split; [intros p x; cbn; rewrite add_NaN, add_zero; repeat split|].
  intros s h y H0 H1. cbn zeta. unfold Shape.x, Shape.width.
  rewrite moveBy_heap, moveTo_heap, sizeBy_heap, sizeTo_heap.
  destruct (moveBy_shape s (Some NaN) y h) as (_ & _ & _ & -> & _).
  destruct (moveTo_shape s (Some NaN) y h) as (_ & _ & _ & -> & _).
  destruct (sizeBy_shape s (Some NaN) y h) as (_ & _ & _ & _ & -> & _).
  destruct (sizeTo_shape s (Some NaN) y h) as (_ & _ & _ & _ & -> & _).
  rewrite !get_update_eq by assumption. cbn. rewrite !add_NaN. repeat split.
Qed.

(** *** Lines *)

(** C6, as the code has it.  On a line, [moveTo] with two coordinates
    writes them as the attributes of endpoint 1 and leaves the attributes
    of endpoint 2 alone, and so does [moveBy]; [sizeTo] and [sizeBy] are
    the only methods that write endpoint 2, and they compute it from the
    origin the line has when they are called, moves included, plus the
    extent: a [sizeTo] after a [moveTo] starts from the moved origin. *)
Theorem line_endpoints (s : Shape.t) (h : Heap.t) :
  Shape.class s = KLine ->
  Shape.point0 s <> Shape.point1 s ->
  is_Some (Heap.cells h !! Shape.point0 s) ->
  is_Some (Heap.cells h !! Shape.point1 s) ->
  (forall x y,
      let r := iShape.moveTo s (Some x) (Some y) h in
      attribute "x1" (fst r) = Some (VNumber x)
      /\ attribute "y1" (fst r) = Some (VNumber y)
      /\ Shape.x (fst r) (snd r) = x /\ Shape.y (fst r) (snd r) = y
      /\ attribute "x2" (fst r) = attribute "x2" s
      /\ attribute "y2" (fst r) = attribute "y2" s) /\
  (forall x y,
      let r := iShape.moveBy s x y h in
      attribute "x2" (fst r) = attribute "x2" s
      /\ attribute "y2" (fst r) = attribute "y2" s) /\
  (forall x y,
      let r := iShape.sizeTo s x y h in
      attribute "x2" (fst r)
        = Some (VNumber (add (Shape.x s h) (Shape.width (fst r) (snd r))))
      /\ attribute "y2" (fst r)
        = Some (VNumber (add (Shape.y s h) (Shape.height (fst r) (snd r))))
      /\ attribute "x1" (fst r) = attribute "x1" s
      /\ attribute "y1" (fst r) = attribute "y1" s) /\
  (forall x y,
      let r := iShape.sizeBy s x y h in
      attribute "x2" (fst r)
        = Some (VNumber (add (Shape.x s h) (Shape.width (fst r) (snd r))))
      /\ attribute "y2" (fst r)
        = Some (VNumber (add (Shape.y s h) (Shape.height (fst r) (snd r))))
      /\ attribute "x1" (fst r) = attribute "x1" s
      /\ attribute "y1" (fst r) = attribute "y1" s) /\
  (forall x y w v,
      let moved := iShape.moveTo s (Some x) (Some y) h in
      let sized := iShape.sizeTo (fst moved) (Some w) (Some v) (snd moved) in
      attribute "x2" (fst sized) = Some (VNumber (add x w))
      /\ attribute "y2" (fst sized) = Some (VNumber (add y v))).
Proof.
  intros Hline Hne H0 H1.
  assert (Hne' : Shape.point1 s <> Shape.point0 s) by congruence.
  unfold iShape.moveTo, iShape.moveBy, iShape.sizeTo, iShape.sizeBy.
  rewrite Hline.
  split; [|split; [|split; [|split]]].
  - intros x y. cbn. unfold Shape.x, Shape.y, attribute. cbn.
    rewrite !get_update_eq by assumption.
    repeat split; simplify_map_eq; reflexivity.
  - intros x y. unfold attribute. cbn.
    repeat split; simplify_map_eq; reflexivity.
  - intros x y. cbn. unfold Shape.x, Shape.y, Shape.width, Shape.height, attribute.
    cbn. rewrite !(get_update_ne _ _ _ _ Hne').
    repeat split; simplify_map_eq; reflexivity.
  - intros x y. cbn. unfold Shape.x, Shape.y, Shape.width, Shape.height, attribute.
    cbn. rewrite !(get_update_ne _ _ _ _ Hne').
    repeat split; simplify_map_eq; reflexivity.
  - intros x y w v. cbn. rewrite Hline. cbn.
    unfold Shape.x, Shape.y, Shape.width, Shape.height, attribute. cbn.
    rewrite !get_update_eq
      by (try apply update_allocated; assumption).
    rewrite !(get_update_ne _ _ _ _ Hne').
    rewrite !get_update_eq by assumption.
    repeat split; simplify_map_eq; reflexivity.
Qed.

(** *** Continuation lines *)

(** C7. On a line that begins with white space the tokens are those of
    the trimmed line with the name of the selected object inserted after
    the command word, as its first argument.  In particular, once [new
    rectangle background] has created its shape, the selection is
    [background], the line [  paint black] has the tokens of [paint
    background black], and executing either leaves the same state but for
    the echo of the line in the console. *)
Theorem leading_space_inserts_selection :
  (forall (s : state) (a : ascii) (rest name : string),
      withObjName s = Given name ->
      is_space a = true ->
      let line := String a rest in
      exists command args,
        split " " (trim line) = command :: args
        /\ cleanCommand line s = command :: name :: args) /\
  (forall (s0 s : state),
      create generateName (Some "background") (Some "rectangle") s0
        = Returns (Some "background") s ->
      withObjName s = Given "background"
      /\ cleanCommand "  paint black" s = ["paint"; "background"; "black"]
      /\ cleanCommand "paint background black" s = ["paint"; "background"; "black"]
      /\ let o1 := executeLine generateName "  paint black" s in
         let o2 := executeLine generateName "paint background black" s in
         set_console [] (final o1) = set_console [] (final o2)
         /\ exists rest,
             texts (final o1) = texts s ++ Echo "  paint black" :: rest
             /\ texts (final o2) = texts s ++ Echo "paint background black" :: rest).
Proof.
  split.
  - intros s a rest name Hsel Ha line.
    assert (Hspace : test startsWithSpace line = true)
      by (apply startsWithSpace_spec; eauto).
    rewrite (cleanCommand_indented s line Hspace), Hsel.
    destruct (split " " (trim line)) as [| command args] eqn:E.
    + destruct (split_nonempty " " (trim line) E).
    + exists command, args. split; reflexivity.
  - intros s0 s Hcreate.
    destruct (create_returns_shape _ _ _ _ _ Hcreate) as [Hsel [shape Hshape]].
    assert (Hindented : test startsWithSpace "  paint black" = true)
      by (vm_compute; reflexivity).
    assert (Hplain : test startsWithSpace "paint background black" = false)
      by (vm_compute; reflexivity).
    assert (T1 : forall s1, withObjName s1 = Given "background" ->
                 cleanCommand "  paint black" s1 = ["paint"; "background"; "black"]).
    { intros s1 H1. rewrite (cleanCommand_indented s1 _ Hindented), H1.
      reflexivity. }
    assert (T2 : forall s1,
                 cleanCommand "paint background black" s1
                   = ["paint"; "background"; "black"]).
    { intros s1. rewrite (cleanCommand_plain s1 _ Hplain). reflexivity. }
    split; [assumption|]. split; [apply T1; assumption|]. split; [apply T2|].
    cbn zeta.
    rewrite !executeLine_nonempty by reflexivity.
    rewrite T1 by assumption. rewrite T2. rewrite !dispatch_paint.
    unfold paint, getItem, item, read. cbn [to_key items log set_lineNumber
      set_console set_lastConsoleLineNumber].
    rewrite Hshape. cbn [final].
    split; [reflexivity|].
    exists [Painting "background" "black"].
    unfold texts. cbn. rewrite !map_app, <- !app_assoc. split; reflexivity.
Qed.

(** *** Running again during a wait *)

(** C9. When [run] is pressed while timeouts are armed (a previous run
    is suspended on its [wait]), the reset at the start of the new run
    disarms every one of them: the handle is not armed when [render]
    returns, and whatever happens later (timeouts of the new run firing,
    further runs) it is never armed again, so its callback never runs and
    the lines that awaited it are never executed.  For example [wait 2
    seconds] arms a timeout of 2000 ms and suspends the line after it,
    which runs when the timeout fires. *)
Theorem rerun_cancels_pending_wait (s : state) (code : string) (h : nat) :
  timers_recorded s ->
  is_Some (armed s !! h) ->
  armed (state_of (render generateName code s)) !! h = None
  /\ (forall later : list event,
        let s' := afterAll generateName later
                    (state_of (render generateName code s)) in
        armed s' !! h = None /\ fire generateName h s' = None)
  /\ (exists s1 s2,
        render generateName (script ["wait 2 seconds"; "new rect r1"]) initial
          = Suspended 0 s1
        /\ delay <$> armed s1 !! 0 = Some (of_Z 2000)
        /\ awaiting s1 !! 0 = Some ["new rect r1"]
        /\ items s1 !! "r1" = None
        /\ fire generateName 0 s1 = Some (Finished s2)
        /\ is_Some (items s2 !! "r1")).
Proof.
  intros Hrec Hh.
  assert (Hlater : forall later,
             armed (afterAll generateName later
                      (state_of (render generateName code s))) !! h = None).
  { intros later.
    set (s0 := set_console [] (reset s)).
    assert (Hadv : advances s0
              (afterAll generateName later
                 (state_of (render generateName code s)))).
    { eapply advances_trans; [|apply afterAll_advances].
      unfold render. apply forEachPromise_advances. }
    destruct Hadv as (_ & Harmed & _).
    destruct (armed (afterAll _ _ _) !! h) as [t |] eqn:E; [|reflexivity].
    destruct (Harmed h) as [[t0 H0] | Hnew]; [eauto | |].
    - unfold s0 in H0. cbn [armed set_console] in H0.
      rewrite (reset_disarms s h Hrec) in H0. discriminate.
    - destruct (Hrec h Hh) as [_ Hlt]. unfold s0 in Hnew. cbn in Hnew. lia. }
  split; [exact (Hlater [])|]. split.
  - intros later. cbn zeta. split; [apply Hlater|].
    unfold fire. rewrite Hlater. reflexivity.
  - eexists. eexists.
    split; [vm_compute; reflexivity|].
    split; [vm_compute; do 2 f_equal; apply Qc_is_canon; reflexivity|].
    split; [vm_compute; reflexivity|].
    split; [vm_compute; reflexivity|].
    split; [vm_compute; reflexivity|].
    eexists. vm_compute. reflexivity.
Qed.

(** *** Clones *)

(** C8, as the code has it.  When [a] names a shape and [b] is a name
    that [create] accepts (it is free and passes the test of the naming
    pattern), [clone a b] registers under [b] a new shape of the type of
    [a] whose origin, extent and stroke are those of [a] at that time, and
    whose fill is that of [a] unless the shape is a line; its text is the
    empty text of a new shape, not the text of [a]; [a] is as it was.
    After that, no sequence of moves, sizes, paints and outlines of [a]
    changes the shape under [b] or its points. *)
Theorem clone_copies_and_separates (s : state) (a b : string) (from : Shape.t) :
  registry_ok s ->
  items s !! a = Some from ->
  item s b = Absent ->
  test varNamingRule b = true ->
  exists s' to,
    clone generateName (Some a) (Some b) s = Returns (Some b) s'
    /\ items s' !! b = Some to
    /\ items s' !! a = Some from
    /\ Shape.name to = b
    /\ Shape.type to = Shape.type from
    /\ Shape.class to = Shape.class from
    /\ Shape.x to (heap s') = Shape.x from (heap s)
    /\ Shape.y to (heap s') = Shape.y from (heap s)
    /\ Shape.width to (heap s') = Shape.width from (heap s)
    /\ Shape.height to (heap s') = Shape.height from (heap s)
    /\ Shape.stroke to = Shape.stroke from
    /\ (Shape.class from <> KLine -> iShape.get_fill to = iShape.get_fill from)
    /\ Element.textContent (Shape.domElement to) = VString EmptyString
    /\ registry_ok s'
    /\ forall ms : list mutation, view b (mutateAll a ms s') = view b s'.
Proof.
  intros Hok Ha Hb Htest.
  destruct (Hok) as [Hshapes Hpairs].
  destruct (Hshapes a from Ha) as (Htype & Hne & L0 & L1 & A0 & A1).
  assert (Hfree : items s !! b = None).
  { apply item_absent, Hb. }
  assert (Hab : b <> a) by congruence.
  set (k := Shape.class from) in *.
  set (n := Heap.next (heap s)) in *.
  pose proof (create_fresh s b (tag k) (Shape.new k (tag k)) Hb Htest
                (tag_nonempty k) (constructor_of k)) as Hcreate.
  unfold clone, getItem, item, read. cbn [to_key]. rewrite Ha, Htype, Hcreate.
  clear Hcreate.
  set (to0 := fst (Shape.new k (tag k) b (heap s))).
  set (hc := snd (Shape.new k (tag k) b (heap s))).
  set (s1 := log (Created (tag k) b) _).
  assert (Hto0 : items s1 !! b = Some to0) by apply lookup_insert_eq.
  destruct (copyInto_spec from to0 b s1 Hto0)
    as (to & Hcopy & (Hc & Ht & H0 & H1) & Hname & Hstroke & Htext & Hfill).
  rewrite Hcopy. clear Hcopy.
  change (heap s1) with hc in *.
  set (h1 := Heap.update _ (Shape.point0 to0) hc) in *.
  set (h2 := Heap.update _ (Shape.point1 to0) h1) in *.
  change (Shape.point0 to0) with n in *.
  change (Shape.point1 to0) with (S n) in *.
  change (Shape.class to0) with k in *.
  change (Shape.type to0) with (tag k) in *.
  (* the heap after the two allocations *)
  assert (Hold : forall l, l < n -> Heap.get hc l = Heap.get (heap s) l).
  { intros l Hl. unfold Heap.get, hc. cbn.
    rewrite !lookup_total_insert_ne by (fold n; lia). reflexivity. }
  assert (Ac0 : is_Some (Heap.cells hc !! n)).
  { unfold hc. cbn. fold n. rewrite lookup_insert_ne by lia.
    rewrite lookup_insert_eq. eauto. }
  assert (Ac1 : is_Some (Heap.cells hc !! S n)).
  { unfold hc. cbn. fold n. rewrite lookup_insert_eq. eauto. }
  assert (Akeep : forall l, is_Some (Heap.cells (heap s) !! l) ->
                            is_Some (Heap.cells h2 !! l)).
  { intros l Hl. unfold h2, h1. rewrite !update_allocated.
    unfold hc. cbn. rewrite !lookup_insert. repeat case_decide; eauto. }
  assert (Hx0 : Heap.get h2 n
                = Point.moveTo (Heap.get hc n)
                    (Some (Shape.x from hc)) (Some (Shape.y from hc))).
  { unfold h2. rewrite get_update_ne by lia.
    unfold h1. rewrite get_update_eq by assumption. reflexivity. }
  assert (Hx1 : Heap.get h2 (S n)
                = Point.moveTo (Heap.get h1 (S n))
                    (Some (Shape.width from h1)) (Some (Shape.height from h1))).
  { unfold h2. rewrite get_update_eq; [reflexivity|].
    unfold h1. apply update_allocated. assumption. }
  assert (Hfrom0 : Heap.get hc (Shape.point0 from)
                   = Heap.get (heap s) (Shape.point0 from)) by (apply Hold; lia).
  assert (Hfrom1 : Heap.get h1 (Shape.point1 from)
                   = Heap.get (heap s) (Shape.point1 from)).
  { unfold h1. rewrite get_update_ne by lia. apply Hold. lia. }
  assert (Hnext : Heap.next h2 = S (S n)) by reflexivity.
  (* the registry after the copy *)
  assert (Hok' : registry_ok
                   (set_heap h2 (set_items (<[b := to]> (items s1)) s1))).
  { split; cbn [items heap set_heap set_items]; unfold s1; cbn [items log
      set_svg set_withObjName set_heap set_items set_console
      set_lastConsoleLineNumber];
      rewrite insert_insert_eq.
    - intros key sh. rewrite lookup_insert.
      destruct (decide (b = key)) as [<- | Hkey]; intros Hsh.
      + inversion Hsh; subst sh. unfold shape_ok.
        rewrite Hc, Ht, H0, H1, Hnext.
        split; [reflexivity|]. split; [lia|]. split; [lia|]. split; [lia|].
        split; unfold h2, h1; rewrite !update_allocated; assumption.
      + destruct (Hshapes key sh Hsh) as (T & N & B0 & B1 & C0 & C1).
        unfold shape_ok. rewrite Hnext. fold n in B0, B1.
        split; [assumption|]. split; [assumption|].
        split; [lia|]. split; [lia|].
        split; apply Akeep; assumption.
    - intros k1 k2 s1' s2' Hkeys. rewrite !lookup_insert.
      destruct (decide (b = k1)) as [<- | N1];
        destruct (decide (b = k2)) as [<- | N2]; intros E1 E2;
        try congruence.
      + inversion E1; subst s1'.
        destruct (Hshapes k2 s2' E2) as (_ & _ & B0 & B1 & _).
        fold n in B0, B1. unfold apart. rewrite H0, H1. lia.
      + inversion E2; subst s2'.
        destruct (Hshapes k1 s1' E1) as (_ & _ & B0 & B1 & _).
        fold n in B0, B1. unfold apart. rewrite H0, H1. lia.
      + eauto. }
  eexists. exists to.
  split; [reflexivity|].
  cbn [items heap log set_svg set_withObjName set_heap set_items set_console
    set_lastConsoleLineNumber].
  split; [apply lookup_insert_eq|].
  split.
  { rewrite lookup_insert_ne by assumption. unfold s1.
    cbn [items log set_svg set_withObjName set_heap set_items set_console
      set_lastConsoleLineNumber].
    rewrite lookup_insert_ne by assumption. assumption. }
  split; [rewrite Hname; reflexivity|].
  split; [congruence|]. split; [assumption|].
  unfold Shape.x, Shape.y, Shape.width, Shape.height.
  rewrite H0, H1, Hx0, Hx1. cbn [Point.moveTo Point._x Point._y].
  unfold Shape.x, Shape.y, Shape.width, Shape.height.
  rewrite Hfrom0, Hfrom1.
  split; [reflexivity|]. split; [reflexivity|].
  split; [reflexivity|]. split; [reflexivity|].
  split; [assumption|].
  split; [intros Hline; apply Hfill; exact Hline|].
  split; [rewrite Htext; reflexivity|].
  split.
  { destruct Hok' as [O1 O2]. split; assumption. }
  intros ms.
  match goal with
  | |- view b (mutateAll a ms ?s2) = _ =>
      apply (mutateAll_frame a b ms s2); [|assumption]
  end.
  destruct Hok' as [O1 O2]. split; assumption.
Qed.

End Properties.

(** C4 as the specification states it fails: [wait 0 seconds] has a
    non-positive count, and the timeout it arms lasts 1000000 ms, not
    1000 ms. *)
Lemma wait_zero_seconds :
  exists t,
    armedBy (wait (Some "0") (Some "seconds") initial) = Some t
    /\ gt (Number (Some "0")) (of_Z 0) = false
    /\ delay t = of_Z 1000000
    /\ delay t <> of_Z 1000.
Proof.
  eexists. split; [vm_compute; reflexivity|].
  split; [reflexivity|]. split; [apply thousand_thousand|].
  intros H. vm_compute in H. inversion H.
Qed.

(** Witness of C3: [r1] is created, then created again. *)
Lemma create_duplicate_name_witness :
  let s := final (create sampleName (Some "r1") (Some "rect") initial) in
  (is_Some (items s !! "r1") /\ "r1" <> EmptyString) /\
  exists s',
    create sampleName (Some "r1") (Some "line") s = Returns None s'
    /\ items s' = items s
    /\ heap s' = heap s
    /\ svg s' = svg s
    /\ withObjName s' = withObjName s
    /\ texts s' = texts s ++ [AlreadyAnObject "r1"].
Proof.
  intros s.
  assert (H1 : is_Some (items s !! "r1")) by (eexists; vm_compute; reflexivity).
  assert (H2 : "r1" <> EmptyString) by discriminate.
  split; [split; assumption|].
  exact (create_duplicate_name sampleName s "r1" (Some "line") H1 H2).
Defined.

(** Witness of C10: [1abc] is present after [new rect 1abc], and the rule
    of the specification refuses it. *)
Lemma duplicate_check_comes_first_witness :
  let s := final (create sampleName (Some "1abc") (Some "rect") initial) in
  (is_Some (items s !! "1abc") /\ "1abc" <> EmptyString
   /\ (nameRuleOfSpec "1abc" = false \/ test varNamingRule "1abc" = false)) /\
  exists s',
    create sampleName (Some "1abc") None s = Returns None s'
    /\ texts s' = texts s ++ [AlreadyAnObject "1abc"]
    /\ last (texts s') <> Some NameMustStartWithLetter
    /\ items s' = items s.
Proof.
  intros s.
  assert (H1 : is_Some (items s !! "1abc")) by (eexists; vm_compute; reflexivity).
  assert (H2 : "1abc" <> EmptyString) by discriminate.
  assert (H3 : nameRuleOfSpec "1abc" = false \/ test varNamingRule "1abc" = false)
    by (left; reflexivity).
  split; [repeat split; assumption|].
  exact (duplicate_check_comes_first sampleName s "1abc" None H1 H2 H3).
Defined.

(** C5 as the specification states it fails: [abc] is not numeric text,
    and [move r1 abc 5] does not leave the first coordinate of [r1] as it
    was, the way [null] does; it becomes NaN. *)
Lemma move_by_a_word_gives_NaN :
  let s := final (create sampleName (Some "r1") (Some "rect") initial) in
  let s' := final (executeLine sampleName "move r1 abc 5" s) in
  exists shape shape',
    items s !! "r1" = Some shape /\ items s' !! "r1" = Some shape'
    /\ numeric_literal "abc" = None
    /\ Shape.x shape (heap s) = of_Z 0
    /\ Shape.x shape' (heap s') = NaN
    /\ Shape.x shape' (heap s') <> Shape.x shape (heap s)
    /\ Point._x (Point.moveBy (Point.mk (of_Z 0) (of_Z 0)) None (Some (of_Z 5)))
       = of_Z 0.
Proof.
  intros s s'. eexists. eexists.
  split; [vm_compute; reflexivity|]. split; [vm_compute; reflexivity|].
  split; [reflexivity|]. split; [vm_compute; reflexivity|].
  split; [vm_compute; reflexivity|].
  split; [intros H; vm_compute in H; discriminate|].
  apply add_zero.
Qed.

(** C6 as the specification states it fails: a line at (0,0) is moved to
    (10,20) and then sized to (5,5); the second endpoint is written as
    (15,25), from the moved origin, not as (5,5), from the origin before
    the move.  And [moveTo] with a [null] argument writes [null], not a
    coordinate, as the attribute of endpoint 1. *)
Lemma line_size_uses_moved_origin :
  let l := fst (Line.create "l1" Heap.empty) in
  let h := snd (Line.create "l1" Heap.empty) in
  let moved := iShape.moveTo l (Some (of_Z 10)) (Some (of_Z 20)) h in
  let sized := iShape.sizeTo (fst moved) (Some (of_Z 5)) (Some (of_Z 5)) (snd moved) in
  Shape.x l h = of_Z 0 /\ Shape.y l h = of_Z 0
  /\ attribute "x2" (fst sized) = Some (VNumber (add (of_Z 10) (of_Z 5)))
  /\ attribute "y2" (fst sized) = Some (VNumber (add (of_Z 20) (of_Z 5)))
  /\ attribute "x2" (fst sized)
     <> Some (VNumber (add (Shape.x l h) (Shape.width (fst sized) (snd sized))))
  /\ attribute "x1" (fst (iShape.moveTo l None (Some (of_Z 5)) h)) = Some VNull.
Proof.
  intros l h moved sized.
  split; [vm_compute; reflexivity|]. split; [vm_compute; reflexivity|].
  split; [vm_compute; reflexivity|]. split; [vm_compute; reflexivity|].
  split; [intros H; vm_compute in H; inversion H|].
  vm_compute. reflexivity.
Qed.

(** Witness of C6: a new line. *)
Lemma line_endpoints_witness :
  let l := fst (Line.create "l1" Heap.empty) in
  let h := snd (Line.create "l1" Heap.empty) in
  (Shape.class l = KLine /\ Shape.point0 l <> Shape.point1 l
   /\ is_Some (Heap.cells h !! Shape.point0 l)
   /\ is_Some (Heap.cells h !! Shape.point1 l)) /\
  let moved := iShape.moveTo l (Some (of_Z 10)) (Some (of_Z 20)) h in
  let sized := iShape.sizeTo (fst moved) (Some (of_Z 5)) (Some (of_Z 5)) (snd moved) in
  attribute "x2" (fst sized) = Some (VNumber (add (of_Z 10) (of_Z 5)))
  /\ attribute "y2" (fst sized) = Some (VNumber (add (of_Z 20) (of_Z 5))).
Proof.
  intros l h.
  assert (H1 : Shape.class l = KLine) by reflexivity.
  assert (H2 : Shape.point0 l <> Shape.point1 l) by (vm_compute; lia).
  assert (H3 : is_Some (Heap.cells h !! Shape.point0 l))
    by (eexists; vm_compute; reflexivity).
  assert (H4 : is_Some (Heap.cells h !! Shape.point1 l))
    by (eexists; vm_compute; reflexivity).
  split; [repeat split; assumption|].
  destruct (line_endpoints l h H1 H2 H3 H4) as (_ & _ & _ & _ & H5).
  exact (H5 (of_Z 10) (of_Z 20) (of_Z 5) (of_Z 5)).
Defined.

(** Witness of C7: the selection after [new rectangle background], and a
    continuation line. *)
Lemma leading_space_inserts_selection_witness :
  let s := final (create sampleName (Some "background") (Some "rectangle") initial) in
  (withObjName s = Given "background" /\ is_space " "%char = true) /\
  exists command args,
    split " " (trim "  size 640 480") = command :: args
    /\ cleanCommand "  size 640 480" s = command :: "background" :: args.
Proof.
  intros s.
  assert (H1 : withObjName s = Given "background") by reflexivity.
  assert (H2 : is_space " "%char = true) by reflexivity.
  split; [split; assumption|].
  exact (proj1 (leading_space_inserts_selection sampleName)
           s " "%char " size 640 480" "background" H1 H2).
Defined.

(** Witness of C9: the run of [wait 2 seconds] is suspended on handle 0
    when [run] is pressed again. *)
Lemma rerun_cancels_pending_wait_witness :
  let s := state_of (render sampleName (script ["wait 2 seconds"; "new rect r1"])
                            initial) in
  (timers_recorded s /\ is_Some (armed s !! 0)) /\
  armed (state_of (render sampleName "new rect r2" s)) !! 0 = None.
Proof.
  intros s.
  assert (H1 : timers_recorded s)
    by (apply timers_recorded_check; vm_compute; reflexivity).
  assert (H2 : is_Some (armed s !! 0)) by (eexists; vm_compute; reflexivity).
  split; [split; assumption|].
  destruct (rerun_cancels_pending_wait sampleName s "new rect r2" 0 H1 H2)
    as (Hnow & _ & _).
  exact Hnow.
Defined.

(** C8 as the specification states it fails.  [a1] and [b1] are distinct
    names that the naming rule allows and [a1] names a shape, but [b1] is
    taken: [clone a1 b1] reports DuplicateName and produces nothing.  The
    clone of a line painted red is not red: the stroke that [clone]
    copies last overwrites the attribute that holds the fill of a line.
    And the free name [b], which the naming rule allows, is refused by
    the test of [create]. *)
Lemma clone_onto_taken_name :
  (let s := state_of (render sampleName (script ["new rect a1"; "new rect b1"])
                             initial) in
   nameRuleOfSpec "a1" = true /\ nameRuleOfSpec "b1" = true
   /\ "a1" <> "b1" /\ is_Some (items s !! "a1")
   /\ exists s',
       clone sampleName (Some "a1") (Some "b1") s = Returns None s'
       /\ last (texts s') = Some (AlreadyAnObject "b1")
       /\ items s' = items s) /\
  (let s := state_of (render sampleName (script ["new line l1"; "paint l1 red"])
                             initial) in
   exists s' from to,
     clone sampleName (Some "l1") (Some "l2") s = Returns (Some "l2") s'
     /\ items s' !! "l1" = Some from /\ items s' !! "l2" = Some to
     /\ iShape.get_fill from = VString "red"
     /\ iShape.get_fill to = VString "transparent") /\
  (let s := state_of (render sampleName (script ["new rect a1"]) initial) in
   nameRuleOfSpec "b" = true /\ items s !! "b" = None
   /\ exists s',
       clone sampleName (Some "a1") (Some "b") s = Returns None s'
       /\ last (texts s') = Some NameMustStartWithLetter
       /\ items s' = items s).
Proof.
  split; [|split].
  - intros s. split; [reflexivity|]. split; [reflexivity|].
    split; [discriminate|]. split; [eexists; vm_compute; reflexivity|].
    eexists. split; [vm_compute; reflexivity|].
    split; vm_compute; reflexivity.
  - intros s. eexists. eexists. eexists.
    split; [vm_compute; reflexivity|].
    split; [vm_compute; reflexivity|].
    split; [vm_compute; reflexivity|].
    split; vm_compute; reflexivity.
  - intros s. split; [reflexivity|]. split; [vm_compute; reflexivity|].
    eexists. split; [vm_compute; reflexivity|].
    split; vm_compute; reflexivity.
Qed.

(** Witness of C8: a rectangle that was sized and painted, cloned under a
    free name, then moved. *)
Lemma clone_copies_and_separates_witness :
  let s := state_of (render sampleName
                       (script ["new rect a1"; "size a1 10 20"; "paint a1 red"])
                       initial) in
  exists from,
    (registry_ok s /\ items s !! "a1" = Some from
     /\ item s "b1" = Absent
     /\ test varNamingRule "b1" = true) /\
    exists s' to,
      clone sampleName (Some "a1") (Some "b1") s = Returns (Some "b1") s'
      /\ items s' !! "b1" = Some to
      /\ Shape.width to (heap s') = Shape.width from (heap s)
      /\ iShape.get_fill to = iShape.get_fill from
      /\ view "b1" (mutateAll "a1" [MoveBy (Some (of_Z 5)) None; Paint (Some "blue")] s')
         = view "b1" s'.
Proof.
  intros s.
  destruct (items s !! "a1") as [from |] eqn:H2;
    [| vm_compute in H2; discriminate].
  exists from.
  assert (H1 : registry_ok s)
    by (apply registry_ok_check; vm_compute; reflexivity).
  assert (H3 : item s "b1" = Absent)
    by (vm_compute; reflexivity).
  assert (H4 : test varNamingRule "b1" = true) by (vm_compute; reflexivity).
  split; [split; [exact H1 | split; [reflexivity | split; [exact H3 | exact H4]]]|].
  destruct (clone_copies_and_separates sampleName s "a1" "b1" from H1 H2 H3 H4)
    as (s' & to & Hclone & Hto & _ & _ & _ & Hclass & _ & _ & Hw & _ & _
        & Hfill & _ & _ & Hframe).
  exists s', to.
  split; [exact Hclone|]. split; [exact Hto|]. split; [exact Hw|].
  split; [|apply Hframe].
  apply Hfill. intros Hline.
  assert (Hk : Shape.class <$> items s !! "a1" = Some KRectangle)
    by (vm_compute; reflexivity).
  rewrite H2 in Hk. inversion Hk. congruence.
Defined.

(** Witness of C4: [wait 2 seconds]. *)
Lemma wait_delay_witness :
  (gt (Number (Some "2")) (of_Z 0) = true
   /\ test secondsUnit (to_key (Some "seconds")) = true) /\
  exists t,
    armedBy (wait (Some "2") (Some "seconds") initial) = Some t
    /\ delay t = mul (Number (Some "2")) (of_Z 1000).
Proof.
  assert (H1 : gt (Number (Some "2")) (of_Z 0) = true) by reflexivity.
  assert (H2 : test secondsUnit (to_key (Some "seconds")) = true)
    by (vm_compute; reflexivity).
  split; [split; assumption|].
  destruct (wait_delay (Some "2") (Some "seconds") initial)
    as (t & Ht & _ & Hseconds & _).
  exists t. split; [exact Ht | exact (Hseconds H1 H2)].
Defined.

(** Witness of C5: a new rectangle, moved by NaN. *)
Lemma not_a_number_is_stored_witness :
  let r := fst (Rectangle.create "r1" Heap.empty) in
  let h := snd (Rectangle.create "r1" Heap.empty) in
  (is_Some (Heap.cells h !! Shape.point0 r)
   /\ is_Some (Heap.cells h !! Shape.point1 r)) /\
  let moved := iShape.moveBy r (Some NaN) (Some (of_Z 5)) h in
  Shape.x (fst moved) (snd moved) = NaN.
Proof.
  intros r h.
  assert (H0 : is_Some (Heap.cells h !! Shape.point0 r))
    by (eexists; vm_compute; reflexivity).
  assert (H1 : is_Some (Heap.cells h !! Shape.point1 r))
    by (eexists; vm_compute; reflexivity).
  split; [split; assumption|].
  destruct not_a_number_is_stored as (_ & _ & _ & _ & Hshape).
  destruct (Hshape r h (Some (of_Z 5)) H0 H1) as (Hmoved & _).
  exact Hmoved.
Defined.

(** ** Further properties of the code *)

(** *** The methods of the shapes *)

(** What each of the four methods does to the two points of a shape. *)
Lemma method_points (sh : Shape.t) (h : Heap.t) (a b : option number) :
  shape_ok h sh ->
  let origin := Heap.get h (Shape.point0 sh) in
  let extent := Heap.get h (Shape.point1 sh) in
  points_of (iShape.moveTo sh a b h) = (Point.moveTo origin a b, extent)
  /\ points_of (iShape.moveBy sh a b h) = (Point.moveBy origin a b, extent)
  /\ points_of (iShape.sizeTo sh a b h) = (origin, Point.moveTo extent a b)
  /\ points_of (iShape.sizeBy sh a b h) = (origin, Point.moveBy extent a b).
Proof.
  intros (_ & Hne & _ & _ & A0 & A1). cbn zeta.
  assert (Hne' : Shape.point1 sh <> Shape.point0 sh) by congruence.
  unfold points_of.
  rewrite moveTo_heap, moveBy_heap, sizeTo_heap, sizeBy_heap.
  destruct (moveTo_shape sh a b h) as (_ & _ & _ & -> & -> & _).
  destruct (moveBy_shape sh a b h) as (_ & _ & _ & -> & -> & _).
  destruct (sizeTo_shape sh a b h) as (_ & _ & _ & -> & -> & _).
  destruct (sizeBy_shape sh a b h) as (_ & _ & _ & -> & -> & _).
  rewrite !get_update_eq by assumption.
  rewrite !(get_update_ne _ _ _ _ Hne), !(get_update_ne _ _ _ _ Hne').
  repeat split.
Qed.


(** X2. On a circle, [moveTo] and [moveBy] write the centre ([cx], [cy])
    as the origin plus half the extent and leave the radii alone, and
    [sizeTo] and [sizeBy] write the radii ([rx], [ry]) as half the extent
    and leave the centre alone; none of them writes [x], [y], [width] or
    [height].  The sum and the half are those of binary64 numbers, rounded
    to the nearest value.  So the centre on the element is the one
    computed at the last move: after [moveTo] and then [sizeTo], [cx] is
    still the new abscissa plus half the width the circle had before the
    resize. *)
Theorem circle_centre_is_written_by_moves_only
    (c : Shape.t) (h : Heap.t) (a b : option number) :
  Shape.class c = KCircle ->
  shape_ok h c ->
  (forall move, move = iShape.moveTo \/ move = iShape.moveBy ->
      let r := move c a b h in
      attribute "cx" (fst r)
        = Some (VNumber (add (Shape.x (fst r) (snd r))
                             (half (Shape.width (fst r) (snd r)))))
      /\ attribute "cy" (fst r)
        = Some (VNumber (add (Shape.y (fst r) (snd r))
                             (half (Shape.height (fst r) (snd r)))))
      /\ attribute "rx" (fst r) = attribute "rx" c
      /\ attribute "ry" (fst r) = attribute "ry" c) /\
  (forall size, size = iShape.sizeTo \/ size = iShape.sizeBy ->
      let r := size c a b h in
      attribute "rx" (fst r) = Some (VNumber (half (Shape.width (fst r) (snd r))))
      /\ attribute "ry" (fst r) = Some (VNumber (half (Shape.height (fst r) (snd r))))
      /\ attribute "cx" (fst r) = attribute "cx" c
      /\ attribute "cy" (fst r) = attribute "cy" c) /\
  (forall method name,
      In method [iShape.moveTo; iShape.moveBy; iShape.sizeTo; iShape.sizeBy] ->
      In name ["x"; "y"; "width"; "height"] ->
      attribute name (fst (method c a b h)) = attribute name c) /\
  (forall x y w v,
      let moved := iShape.moveTo c (Some x) (Some y) h in
      let sized := iShape.sizeTo (fst moved) (Some w) (Some v) (snd moved) in
      attribute "cx" (fst sized) = Some (VNumber (add x (half (Shape.width c h))))
      /\ Shape.width (fst sized) (snd sized) = w).
Proof.
  intros Hclass (_ & Hne & _ & _ & A0 & A1).
  assert (Hne' : Shape.point1 c <> Shape.point0 c) by congruence.
  split; [|split; [|split]].
  - intros move [-> | ->]; unfold iShape.moveTo, iShape.moveBy; rewrite Hclass;
      cbn; unfold attribute; cbn; repeat split; simplify_map_eq; reflexivity.
  - intros size [-> | ->]; unfold iShape.sizeTo, iShape.sizeBy; rewrite Hclass;
      cbn; unfold attribute; cbn; repeat split; simplify_map_eq; reflexivity.
  - intros method name Hm Hn. cbn [In] in Hm, Hn.
    destruct Hm as [<- | [<- | [<- | [<- | []]]]];
      unfold iShape.moveTo, iShape.moveBy, iShape.sizeTo, iShape.sizeBy;
      rewrite Hclass;
      destruct Hn as [<- | [<- | [<- | [<- | []]]]];
      unfold attribute; cbn; simplify_map_eq; reflexivity.
  - intros x y w v. unfold iShape.moveTo, iShape.sizeTo. rewrite Hclass.
    cbn. rewrite Hclass. cbn.
    unfold Circle.radiusX, Shape.x, Shape.width, attribute. cbn.
    rewrite ?get_update_eq by (try apply update_allocated; assumption).
    rewrite ?(get_update_ne _ _ _ _ Hne).
    rewrite ?get_update_eq by assumption.
    split; simplify_map_eq; reflexivity.
Qed.

(** X3. Painting and outlining.  On a text, a rectangle, a circle or a
    polygon the fill is [style.fill] and the outline is the [stroke]
    attribute: an outline never changes the fill, and painting writes no
    attribute.  On a line both are the [stroke] attribute: the fill reads
    back the colour of the last outline, painting overwrites the
    attribute and never touches [style.fill], and the [Stroke] object of
    the line keeps the old colour, so the element and the [stroke]
    property of the line disagree after a paint.  Painting never changes
    the [Stroke] object of a shape of any class, and [setStroke] writes
    the colour and the width of the new [Stroke] object as the [stroke]
    and [stroke-width] attributes. *)
Theorem fill_and_stroke
    (sh : Shape.t) (v : value) (c : string)
    (color : arg string) (width : arg number) :
  (Shape.class sh <> KLine ->
     iShape.get_fill (Shape.setStroke color width sh) = iShape.get_fill sh
     /\ Element.attributes (Shape.domElement (iShape.set_fill v sh))
        = Element.attributes (Shape.domElement sh)) /\
  (Shape.class sh = KLine ->
     iShape.get_fill (iShape.set_fill (VString c) sh) = VString c
     /\ iShape.get_fill (Shape.setStroke color width sh)
        = VString (Stroke.color (Shape.stroke (Shape.setStroke color width sh)))
     /\ attribute "stroke" (iShape.set_fill (VString c) sh) = Some (VString c)
     /\ Shape.get_fill (iShape.set_fill v sh) = Shape.get_fill sh) /\
  Shape.stroke (iShape.set_fill v sh) = Shape.stroke sh /\
  attribute "stroke" (Shape.setStroke color width sh)
    = Some (VString (Stroke.color (Shape.stroke (Shape.setStroke color width sh)))) /\
  attribute "stroke-width" (Shape.setStroke color width sh)
    = Some (VNumber (Stroke.width (Shape.stroke (Shape.setStroke color width sh)))).
Proof.
  unfold iShape.get_fill, iShape.set_fill, attribute.
  split; [|split; [|split; [|split]]].
  - intros Hline. destruct (Shape.class sh) eqn:E; try congruence;
      cbn; rewrite E; repeat split.
  - intros Hline. rewrite Hline. cbn. rewrite Hline.
    unfold Line.get_fill, Element.getAttributeNS. cbn.
    repeat split; simplify_map_eq; reflexivity.
  - destruct (Shape.class sh); reflexivity.
  - cbn. simplify_map_eq. reflexivity.
  - cbn. simplify_map_eq. reflexivity.
Qed.

(** *** Steps of the interpreter *)

Lemma within_line_refl (s : state) : within_line s s.
Proof.
  split; [reflexivity|]. intros H. split; [assumption|].
  exists []. split; [rewrite app_nil_r; reflexivity | constructor].
Qed.

Lemma within_line_trans (s1 s2 s3 : state) :
  within_line s1 s2 -> within_line s2 s3 -> within_line s1 s3.
Proof.
  intros [L1 C1] [L2 C2]. split; [congruence|].
  intros H. destruct (C1 H) as (H1 & more1 & E1 & F1).
  destruct C2 as (H2 & more2 & E2 & F2); [congruence|].
  split; [congruence|]. exists (more1 ++ more2).
  split; [rewrite E2, E1, app_assoc; reflexivity|].
  apply Forall_app. split; [assumption|]. rewrite <- L1. assumption.
Qed.

Lemma log_within_line (m : message) (s : state) : within_line s (log m s).
Proof.
  split; [reflexivity|]. intros H. split; [reflexivity|].
  eexists. split; [reflexivity|].
  repeat constructor. cbn. rewrite H, Nat.eqb_refl. reflexivity.
Qed.

Lemma quiet_within_line (s s' : state) :
  lineNumber s' = lineNumber s ->
  lastConsoleLineNumber s' = lastConsoleLineNumber s ->
  console s' = console s ->
  within_line s s'.
Proof.
  intros L C E. split; [assumption|]. intros H. split; [congruence|].
  exists []. split; [rewrite app_nil_r; assumption | constructor].
Qed.

Ltac line_steps :=
  cbn [final];
  repeat (eapply within_line_trans; [|apply log_within_line]);
  apply quiet_within_line; reflexivity.

Ltac branches := repeat (case_match; simplify_eq).

Lemma edits_refl (s : state) : edits s s.
Proof.
  split; [reflexivity|]. split; [reflexivity|].
  intros k. destruct (items s !! k); auto.
Qed.

Lemma edits_trans (s1 s2 s3 : state) : edits s1 s2 -> edits s2 s3 -> edits s1 s3.
Proof.
  intros (S1 & N1 & E1) (S2 & N2 & E2).
  split; [congruence|]. split; [congruence|]. intros k.
  specialize (E1 k). specialize (E2 k).
  destruct (items s1 !! k), (items s2 !! k), (items s3 !! k);
    try contradiction; auto.
  destruct E1 as (? & ? & ?), E2 as (? & ? & ?). repeat split; congruence.
Qed.

Lemma edits_same (s s' : state) :
  items s' = items s -> svg s' = svg s -> heap s' = heap s -> edits s s'.
Proof.
  intros Hi Hs Hh. split; [assumption|]. split; [rewrite Hh; reflexivity|].
  rewrite Hi. apply edits_refl.
Qed.

Lemma edits_replace (a : string) (s s' : state) (sh sh' : Shape.t) :
  items s !! a = Some sh ->
  Shape.name sh' = Shape.name sh -> Shape.class sh' = Shape.class sh ->
  Shape.node sh' = Shape.node sh ->
  items s' = <[a := sh']> (items s) -> svg s' = svg s ->
  Heap.nodes (heap s') = Heap.nodes (heap s) ->
  edits s s'.
Proof.
  intros Ha Hn Hc Hd Hi Hs Hh. split; [assumption|]. split; [assumption|].
  intros k. rewrite Hi.
  destruct (decide (a = k)) as [<- | Hne].
  - rewrite lookup_insert_eq, Ha. auto.
  - rewrite lookup_insert_ne by assumption. destruct (items s !! k); auto.
Qed.

Lemma edits_names (s s' : state) (k : string) :
  edits s s' -> (is_Some (items s' !! k) <-> is_Some (items s !! k)).
Proof.
  intros (_ & _ & E). specialize (E k).
  destruct (items s !! k), (items s' !! k); try contradiction;
    split; intros [? ?]; eauto; discriminate.
Qed.

Lemma edits_attached (s s' : state) : edits s s' -> attached s -> attached s'.
Proof.
  intros (Hs & Hn & E) [Ha Hd]. split.
  - intros k sh' Hk. pose proof (E k) as Ek. rewrite Hk in Ek.
    destruct (items s !! k) as [sh |] eqn:Hsh; [|contradiction].
    destruct Ek as (N & _ & D). destruct (Ha k sh Hsh) as (A1 & A2 & A3).
    rewrite N, D, Hs, Hn. auto.
  - intros k1 k2 s1' s2' Hne H1 H2.
    pose proof (E k1) as E1. pose proof (E k2) as E2.
    rewrite H1 in E1. rewrite H2 in E2.
    destruct (items s !! k1) as [s1 |] eqn:K1; [|contradiction].
    destruct (items s !! k2) as [s2 |] eqn:K2; [|contradiction].
    destruct E1 as (_ & _ & ->), E2 as (_ & _ & ->). eauto.
Qed.

Section Behaviour.

Variable generateName : nat -> string.

(** **** The console inside a line *)

Lemma create_within_line (varName type : option string) (s : state) :
  within_line s (final (create generateName varName type s)).
Proof. unfold create. branches; line_steps. Qed.

Lemma copyInto_quiet (fromObject : Shape.t) (b : string) (s : state) :
  within_line s (copyInto fromObject b s)
  /\ withObjName (copyInto fromObject b s) = withObjName s
  /\ svg (copyInto fromObject b s) = svg s.
Proof.
  unfold copyInto. branches; (split; [line_steps | split; reflexivity]).
Qed.

Lemma clone_within_line (fromVarName toVarName : option string) (s : state) :
  within_line s (final (clone generateName fromVarName toVarName s)).
Proof.
  unfold clone, getItem.
  destruct (item _ _) as [fromObject | | |].
  - pose proof (create_within_line toVarName (Some (Shape.type fromObject)) s) as Hc.
    destruct (create _ _ _ s) as [[b |] s1 | s1]; cbn [final] in *;
      try exact Hc.
    eapply within_line_trans; [exact Hc|].
    eapply within_line_trans; [apply (copyInto_quiet fromObject b)|].
    line_steps.
  - pose proof (create_within_line toVarName None s) as Hc.
    destruct (create _ _ _ s) as [? s1 | s1]; exact Hc.
  - pose proof (create_within_line toVarName None s) as Hc.
    destruct (create _ _ _ s) as [? s1 | s1]; exact Hc.
  - line_steps.
Qed.

Lemma paint_within_line (varName color : option string) (s : state) :
  within_line s (final (paint varName color s)).
Proof. unfold paint, getItem, assignBuiltin. branches; line_steps. Qed.

Lemma wait_within_line (n unitName : option string) (s : state) :
  within_line s (final (wait n unitName s)).
Proof.
  unfold wait. cbn [final].
  eapply within_line_trans; [apply log_within_line|].
  apply quiet_within_line; reflexivity.
Qed.

Lemma remove_within_line (varName : option string) (s : state) :
  within_line s (final (remove varName s)).
Proof. unfold remove, getItem. branches; line_steps. Qed.

Lemma write_within_line (varName : option string) (text : list string)
    (s : state) :
  within_line s (final (write varName text s)).
Proof. unfold write, getItem, assignBuiltin. branches; line_steps. Qed.

Lemma setStroke_within_line (varName color : option string) (width : number)
    (s : state) :
  within_line s (final (setStroke varName color width s)).
Proof. unfold setStroke, getItem. branches; line_steps. Qed.

Lemma onShape_within_line (varName : option string)
    (method : Shape.t -> Heap.t -> Shape.t * Heap.t)
    (report : Shape.t -> Heap.t -> message) (s : state) :
  within_line s (final (onShape varName method report s)).
Proof. unfold onShape, getItem, call. branches; line_steps. Qed.

Lemma setPoints_within_line (varName : option string) (points : list string)
    (s : state) :
  within_line s (final (setPoints varName points s)).
Proof. unfold setPoints, getItem. branches; line_steps. Qed.

Lemma setWith_within_line (varName : option string) (s : state) :
  within_line s (final (setWith varName s)).
Proof. unfold setWith, getItem. branches; line_steps. Qed.

(** The commands of the table, by name. *)
Ltac table H :=
  unfold commands in H; cbn [assoc] in H;
  repeat (case_match; simplify_eq); try discriminate;
  repeat match goal with
         | E : String.eqb _ _ = true |- _ => apply String.eqb_eq in E; subst
         end;
  rewrite ?notPromise_final.

(** Every command but [reset] is a step inside its line. *)
Lemma command_within_line (name : string) (command : handler) :
  assoc name (commands generateName) = Some command ->
  name <> "reset" ->
  forall words s, within_line s (final (command words s)).
Proof.
  intros H Hreset words s. table H.
  all: first
    [ congruence
    | apply paint_within_line | apply remove_within_line
    | apply create_within_line | apply clone_within_line
    | apply write_within_line | apply setStroke_within_line
    | apply onShape_within_line | apply setPoints_within_line
    | apply setWith_within_line | apply wait_within_line ].
Qed.

(** **** Shapes edited in place *)

Lemma onShape_edits (varName : option string)
    (method : Shape.t -> Heap.t -> Shape.t * Heap.t)
    (report : Shape.t -> Heap.t -> message) (s : state) :
  (forall sh h, same_but_attributes sh (fst (method sh h))) ->
  (forall sh h, Heap.nodes (snd (method sh h)) = Heap.nodes h) ->
  edits s (final (onShape varName method report s)).
Proof.
  intros Hm Hh. unfold onShape, getItem, item, read.
  destruct (items s !! to_key varName) as [sh |] eqn:Ha.
  - cbn [final]. unfold call. specialize (Hm sh (heap s)).
    specialize (Hh sh (heap s)).
    destruct (method sh (heap s)) as [sh' h']. cbn [fst snd] in Hm, Hh.
    destruct Hm as (C & _ & N & _ & _ & _ & _ & _ & _ & _ & D).
    eapply edits_replace;
      [exact Ha | exact N | exact C | exact D | reflexivity | reflexivity
      | exact Hh].
  - branches; apply edits_same; reflexivity.
Qed.

Ltac no_shape :=
  unfold assignBuiltin; branches; apply edits_same; reflexivity.

Ltac in_place Ha :=
  eapply edits_replace;
  [exact Ha | | | | reflexivity | reflexivity | reflexivity].

Lemma paint_edits (varName color : option string) (s : state) :
  edits s (final (paint varName color s)).
Proof.
  unfold paint, getItem, item, read.
  destruct (items s !! to_key varName) as [sh |] eqn:Ha; [|no_shape].
  in_place Ha;
    unfold iShape.set_fill; destruct (Shape.class sh) eqn:E; cbn;
    solve [congruence | reflexivity].
Qed.

Lemma write_edits (varName : option string) (text : list string) (s : state) :
  edits s (final (write varName text s)).
Proof.
  unfold write, getItem, item, read.
  destruct (items s !! to_key varName) as [sh |] eqn:Ha; [|no_shape].
  in_place Ha; reflexivity.
Qed.

Lemma setStroke_edits (varName color : option string) (width : number)
    (s : state) :
  edits s (final (setStroke varName color width s)).
Proof.
  unfold setStroke, getItem, item, read.
  destruct (items s !! to_key varName) as [sh |] eqn:Ha; [|no_shape].
  in_place Ha; reflexivity.
Qed.

Lemma setPoints_edits (varName : option string) (points : list string)
    (s : state) :
  edits s (final (setPoints varName points s)).
Proof.
  unfold setPoints, getItem, item, read.
  destruct (items s !! to_key varName) as [sh |] eqn:Ha; [|no_shape].
  unfold iShape.setPoints.
  destruct (Shape.class sh) eqn:E; try (apply edits_same; reflexivity).
  in_place Ha; reflexivity.
Qed.

Lemma setWith_edits (varName : option string) (s : state) :
  edits s (final (setWith varName s)).
Proof. unfold setWith, getItem, item, read. no_shape. Qed.

Lemma wait_edits (n unitName : option string) (s : state) :
  edits s (final (wait n unitName s)).
Proof. apply edits_same; reflexivity. Qed.

Lemma copyInto_node (fromObject to0 : Shape.t) (b : string) (s : state) :
  items s !! b = Some to0 ->
  exists to,
    items (copyInto fromObject b s) !! b = Some to
    /\ Shape.node to = Shape.node to0
    /\ Heap.nodes (heap (copyInto fromObject b s)) = Heap.nodes (heap s).
Proof.
  intros Hb. unfold copyInto. rewrite Hb.
  set (h := heap s).
  pose proof (moveTo_heap to0 (Some (Shape.x fromObject h))
                (Some (Shape.y fromObject h)) h) as Hh1.
  pose proof (moveTo_shape to0 (Some (Shape.x fromObject h))
                (Some (Shape.y fromObject h)) h) as Hs1.
  destruct (iShape.moveTo to0 _ _ h) as [t1 h1] eqn:E1.
  cbn [fst snd] in Hh1, Hs1.
  pose proof (sizeTo_heap t1 (Some (Shape.width fromObject h1))
                (Some (Shape.height fromObject h1)) h1) as Hh2.
  pose proof (sizeTo_shape t1 (Some (Shape.width fromObject h1))
                (Some (Shape.height fromObject h1)) h1) as Hs2.
  destruct (iShape.sizeTo t1 _ _ h1) as [t2 h2] eqn:E2.
  cbn [fst snd] in Hh2, Hs2.
  destruct Hs1 as (_ & _ & _ & _ & _ & _ & _ & _ & _ & _ & D1).
  destruct Hs2 as (_ & _ & _ & _ & _ & _ & _ & _ & _ & _ & D2).
  eexists. split; [cbn; apply lookup_insert_eq|]. split.
  - unfold Shape.node in *. unfold iShape.set_fill.
    destruct (Shape.class t2); cbn; congruence.
  - cbn. rewrite Hh2, Hh1. reflexivity.
Qed.

Lemma copyInto_edits (fromObject : Shape.t) (b : string) (s : state) :
  edits s (copyInto fromObject b s).
Proof.
  destruct (items s !! b) as [to0 |] eqn:Hb.
  - destruct (copyInto_spec fromObject to0 b s Hb)
      as (to & E & (Hc & _) & Hn & _).
    destruct (copyInto_node fromObject to0 b s Hb) as (to' & E' & D & Hh).
    assert (to' = to) as ->.
    { rewrite E in E'. cbn in E'. rewrite lookup_insert_eq in E'. congruence. }
    eapply edits_replace;
      [exact Hb | exact Hn | exact Hc | exact D | | | exact Hh];
      rewrite E; reflexivity.
  - unfold copyInto. rewrite Hb. apply edits_refl.
Qed.

(** The commands that neither create nor remove a shape edit in place. *)
Lemma command_edits (name : string) (command : handler) :
  assoc name (commands generateName) = Some command ->
  existsb (String.eqb name) ["new"; "clone"; "remove"; "reset"] = false ->
  forall words s, edits s (final (command words s)).
Proof.
  intros H Hname words s. table H.
  all: first
    [ discriminate
    | apply paint_edits | apply write_edits | apply setStroke_edits
    | apply setPoints_edits | apply setWith_edits | apply wait_edits
    | apply onShape_edits; intros sh h; first
        [ apply moveTo_shape | apply moveBy_shape
        | apply sizeTo_shape | apply sizeBy_shape
        | rewrite moveTo_heap; reflexivity
        | rewrite moveBy_heap; reflexivity
        | rewrite sizeTo_heap; reflexivity
        | rewrite sizeBy_heap; reflexivity ] ].
Qed.

(** **** Registered shapes are on the surface *)

Lemma attached_same (s s' : state) :
  items s' = items s -> svg s' = svg s -> heap s' = heap s ->
  attached s -> attached s'.
Proof. intros Hi Hs Hh. apply edits_attached, edits_same; assumption. Qed.

Lemma appendChild_elem (node k : nat) (children : list nat) :
  k ∈ appendChild node children <-> k = node \/ k ∈ children.
Proof.
  unfold appendChild.
  rewrite elem_of_app, list_elem_of_filter, list_elem_of_singleton.
  destruct (decide (k = node)); tauto.
Qed.

Lemma attached_check (s : state) : attachedb s = true -> attached s.
Proof.
  unfold attachedb, attached. intros H.
  apply andb_prop in H as [H1 H2].
  rewrite forallb_forall in H1. rewrite forallb_forall in H2. split.
  - intros k sh Hk. specialize (H1 (k, sh)). cbn [fst snd] in H1.
    apply andb_prop in H1 as [H1 Hlt].
    + apply andb_prop in H1 as [Hn Hi].
      apply String.eqb_eq in Hn. apply bool_decide_eq_true_1 in Hi.
      apply Nat.ltb_lt in Hlt. auto.
    + apply list_elem_of_In, elem_of_map_to_list. assumption.
  - intros k1 k2 s1 s2 Hne K1 K2.
    assert (I1 : In (k1, s1) (map_to_list (items s)))
      by (apply list_elem_of_In, elem_of_map_to_list; assumption).
    assert (I2 : In (k2, s2) (map_to_list (items s)))
      by (apply list_elem_of_In, elem_of_map_to_list; assumption).
    specialize (H2 _ I1). rewrite forallb_forall in H2.
    specialize (H2 _ I2). cbn [fst snd] in H2.
    apply orb_prop in H2 as [E | E].
    + apply String.eqb_eq in E. contradiction.
    + apply negb_true_iff, Nat.eqb_neq in E. exact E.
Qed.

Lemma create_attached (varName type : option string) (s : state) :
  attached s -> attached (final (create generateName varName type s)).
Proof.
  intros Ha. unfold create.
  destruct (match string_truthy varName with
            | Some v => (v, s)
            | None => (generateName (generated s),
                       set_generated (S (generated s)) s)
            end) as [name s0] eqn:E0.
  assert (A0 : attached s0).
  { destruct (string_truthy varName); inversion E0; subst; exact Ha. }
  clear Ha E0.
  destruct (item s0 name); try exact A0.
  destruct (test varNamingRule name); cbn [negb]; [|exact A0].
  destruct (string_truthy type) as [ty |]; [|exact A0].
  unfold read.
  destruct (assoc ty objectTypes) as [make |] eqn:Emake.
  - destruct (constructors ty make Emake) as [k ->].
    destruct A0 as [A D]. unfold attached. cbn -[appendChild]. split.
    + intros key sh. rewrite lookup_insert, appendChild_elem.
      destruct (decide (name = key)) as [<- | Hkey]; intros Hsh.
      * inversion Hsh; subst sh. cbn. auto with lia.
      * destruct (A key sh Hsh) as (? & ? & ?). auto with lia.
    + intros k1 k2 s1 s2 Hne. rewrite !lookup_insert.
      destruct (decide (name = k1)), (decide (name = k2));
        intros K1 K2; simplify_eq; cbn.
      * apply A in K2 as (_ & _ & ?). lia.
      * apply A in K1 as (_ & _ & ?). lia.
      * eauto.
  - branches; try exact A0;
      apply (attached_same s0); try reflexivity; exact A0.
Qed.

Lemma clone_attached (fromVarName toVarName : option string) (s : state) :
  attached s -> attached (final (clone generateName fromVarName toVarName s)).
Proof.
  intros Ha. unfold clone, getItem.
  destruct (item _ _) as [fromObject | | |].
  - pose proof (create_attached toVarName (Some (Shape.type fromObject)) s Ha) as Hc.
    destruct (create _ _ _ s) as [[b |] s1 | s1]; cbn [final] in *;
      try exact Hc.
    pose proof (edits_attached _ _ (copyInto_edits fromObject b s1) Hc) as [A D].
    split.
    + intros key sh Hsh. cbn -[appendChild] in Hsh |- *.
      destruct (A key sh Hsh) as (N & I & L).
      split; [exact N|]. split; [|exact L].
      destruct (items (copyInto fromObject b s1) !! b);
        [apply appendChild_elem; auto | exact I].
    + exact D.
  - pose proof (create_attached toVarName None s Ha) as Hc.
    destruct (create _ _ _ s) as [? s1 | s1]; exact Hc.
  - pose proof (create_attached toVarName None s Ha) as Hc.
    destruct (create _ _ _ s) as [? s1 | s1]; exact Hc.
  - exact Ha.
Qed.

Lemma remove_attached (varName : option string) (s : state) :
  attached s -> attached (final (remove varName s)).
Proof.
  intros Ha. unfold remove, getItem, item, read.
  destruct (items s !! to_key varName) as [shape |] eqn:Hshape.
  - unfold Shape.remove. case_bool_decide; [|exact Ha].
    destruct Ha as [A D]. split.
    + intros key sh Hsh. cbn in Hsh |- *.
      apply lookup_delete_Some in Hsh as [_ Hsh].
      apply lookup_delete_Some in Hsh as [Hkey Hsh].
      destruct (A key sh Hsh) as (N & I & L).
      split; [exact N|]. split; [|exact L].
      apply list_elem_of_filter. split; [|exact I].
      apply (D key (to_key varName)); auto.
    + intros k1 k2 s1 s2 Hne K1 K2. cbn in K1, K2.
      apply lookup_delete_Some in K1 as [_ K1].
      apply lookup_delete_Some in K1 as [_ K1].
      apply lookup_delete_Some in K2 as [_ K2].
      apply lookup_delete_Some in K2 as [_ K2].
      eauto.
  - branches; exact Ha.
Qed.

Lemma reset_attached (s : state) : attached (reset s).
Proof.
  split; intros *; cbn; rewrite ?lookup_empty; discriminate.
Qed.

Lemma command_attached (name : string) (command : handler) :
  assoc name (commands generateName) = Some command ->
  forall words s, attached s -> attached (final (command words s)).
Proof.
  intros H words s Ha.
  destruct (existsb (String.eqb name) ["new"; "clone"; "remove"; "reset"]) eqn:E.
  - table H.
    all: first
      [ discriminate E
      | apply remove_attached; assumption
      | apply create_attached; assumption
      | apply clone_attached; assumption
      | apply reset_attached ].
  - eapply edits_attached; [|exact Ha].
    apply (command_edits name command H E).
Qed.

Lemma dispatch_attached (words : list string) (s : state) :
  attached s -> attached (final (dispatch generateName words s)).
Proof.
  intros Ha. unfold dispatch, read.
  destruct (assoc _ (commands generateName)) as [command |] eqn:E.
  - eapply command_attached; eassumption.
  - branches; exact Ha.
Qed.

Lemma executeLine_attached (line : string) (s : state) :
  attached s -> attached (final (executeLine generateName line s)).
Proof.
  intros Ha. unfold executeLine. destruct (is_empty line); [exact Ha|].
  apply dispatch_attached. exact Ha.
Qed.

Lemma forEachPromise_attached (lines : list string) (s : state) :
  attached s ->
  attached (state_of (forEachPromise lines (executeLine generateName) s)).
Proof.
  revert s. induction lines as [| line rest IH]; intros s Ha; cbn [forEachPromise].
  - exact Ha.
  - pose proof (executeLine_attached line s Ha) as H.
    destruct (executeLine generateName line s) as [[h |] s1 | s1]; cbn in *.
    + exact H.
    + apply IH. exact H.
    + exact H.
Qed.

Lemma after_attached (e : event) (s : state) :
  attached s -> attached (after generateName e s).
Proof.
  intros Ha. destruct e as [code | h]; cbn [after].
  - unfold render. apply forEachPromise_attached.
    apply (attached_same (reset s)); [reflexivity | reflexivity | reflexivity |].
    apply reset_attached.
  - unfold fire. destruct (armed s !! h) as [t |]; [|exact Ha].
    destruct (awaiting _ !! h) as [rest |]; cbn [state_of].
    + apply forEachPromise_attached. exact Ha.
    + exact Ha.
Qed.

(** **** Values of [items] that are no shapes *)

Ltac settle :=
  intros [Ha Hd]; branches; cbn;
  rewrite ?Hd, ?delete_empty; auto.

Lemma create_settled (varName type : option string) (s : state) :
  armed s = ∅ /\ debris s = ∅ ->
  settled (notPromise (create generateName varName type s)).
Proof. unfold create. settle. Qed.

Lemma copyInto_quiet_items (fromObject : Shape.t) (b : string) (s : state) :
  armed (copyInto fromObject b s) = armed s
  /\ debris (copyInto fromObject b s) = debris s.
Proof. unfold copyInto. branches; split; reflexivity. Qed.

Lemma clone_settled (fromVarName toVarName : option string) (s : state) :
  armed s = ∅ /\ debris s = ∅ ->
  settled (notPromise (clone generateName fromVarName toVarName s)).
Proof.
  intros Hq. unfold clone, getItem.
  destruct (item _ _) as [fromObject | | |].
  - pose proof (create_settled toVarName (Some (Shape.type fromObject)) s Hq) as Hc.
    destruct (create _ _ _ s) as [[b |] s1 | s1]; cbn in *; try exact Hc.
    destruct (copyInto_quiet_items fromObject b s1) as [-> ->]. exact Hc.
  - pose proof (create_settled toVarName None s Hq) as Hc.
    destruct (create _ _ _ s) as [? s1 | s1]; exact Hc.
  - pose proof (create_settled toVarName None s Hq) as Hc.
    destruct (create _ _ _ s) as [? s1 | s1]; exact Hc.
  - exact Hq.
Qed.

Lemma paint_settled (varName color : option string) (s : state) :
  armed s = ∅ /\ debris s = ∅ -> settled (paint varName color s).
Proof. unfold paint, getItem, assignBuiltin. settle. Qed.

Lemma wait_settled (n unitName : option string) (s : state) :
  armed s = ∅ /\ debris s = ∅ -> settled (wait n unitName s).
Proof.
  intros [Ha Hd]. unfold wait. cbn. split; [exact Hd|].
  rewrite Ha, insert_empty. eauto.
Qed.

Lemma remove_settled (varName : option string) (s : state) :
  armed s = ∅ /\ debris s = ∅ -> settled (remove varName s).
Proof. unfold remove, getItem. settle. Qed.

Lemma write_settled (varName : option string) (text : list string) (s : state) :
  armed s = ∅ /\ debris s = ∅ -> settled (write varName text s).
Proof. unfold write, getItem, assignBuiltin. settle. Qed.

Lemma setStroke_settled (varName color : option string) (width : number)
    (s : state) :
  armed s = ∅ /\ debris s = ∅ -> settled (setStroke varName color width s).
Proof. unfold setStroke, getItem. settle. Qed.

Lemma onShape_settled (varName : option string)
    (method : Shape.t -> Heap.t -> Shape.t * Heap.t)
    (report : Shape.t -> Heap.t -> message) (s : state) :
  armed s = ∅ /\ debris s = ∅ -> settled (onShape varName method report s).
Proof. unfold onShape, getItem, call. settle. Qed.

Lemma setPoints_settled (varName : option string) (points : list string)
    (s : state) :
  armed s = ∅ /\ debris s = ∅ -> settled (setPoints varName points s).
Proof. unfold setPoints, getItem. settle. Qed.

Lemma setWith_settled (varName : option string) (s : state) :
  armed s = ∅ /\ debris s = ∅ -> settled (setWith varName s).
Proof. unfold setWith, getItem. settle. Qed.

Lemma reset_settled (s : state) :
  armed s = ∅ -> armed (reset s) = ∅ /\ debris (reset s) = ∅.
Proof.
  intros Ha. split; [|reflexivity].
  apply map_eq. intros h. unfold reset. cbn. rewrite cleared_lookup, Ha.
  rewrite lookup_empty. destruct (bool_decide _); reflexivity.
Qed.

Lemma command_settled (name : string) (command : handler) :
  assoc name (commands generateName) = Some command ->
  forall words s, armed s = ∅ /\ debris s = ∅ -> settled (command words s).
Proof.
  intros H words s Hq. unfold commands in H. cbn [assoc] in H.
  branches; try discriminate.
  all: first
    [ apply paint_settled | apply remove_settled | apply create_settled
    | apply clone_settled | apply write_settled | apply setStroke_settled
    | apply onShape_settled | apply setPoints_settled | apply setWith_settled
    | apply wait_settled | apply reset_settled; apply Hq ]; exact Hq.
Qed.

Lemma executeLine_settled (line : string) (s : state) :
  armed s = ∅ /\ debris s = ∅ -> settled (executeLine generateName line s).
Proof.
  intros Hq. unfold executeLine. destruct (is_empty line); [exact Hq|].
  unfold dispatch, read.
  destruct (assoc _ (commands generateName)) as [command |] eqn:E.
  - eapply command_settled; [eassumption | exact Hq].
  - destruct Hq. branches; cbn; auto.
Qed.

Lemma forEachPromise_calm (lines : list string) (s : state) :
  armed s = ∅ /\ debris s = ∅ ->
  calm (state_of (forEachPromise lines (executeLine generateName) s)).
Proof.
  revert s. induction lines as [| line rest IH]; intros s Hq;
    cbn [forEachPromise].
  - left. apply Hq.
  - pose proof (executeLine_settled line s Hq) as H.
    destruct (executeLine generateName line s) as [[h |] s1 | s1];
      cbn [settled state_of] in *.
    + destruct H as (Hd & t & Ha). right. cbn. eauto.
    + apply IH. exact H.
    + left. exact H.
Qed.

Lemma after_calm (e : event) (s : state) :
  timers_recorded s -> calm s -> calm (after generateName e s).
Proof.
  intros Hrec Hc. destruct e as [code | h]; cbn [after].
  - unfold render. apply forEachPromise_calm. split; [|reflexivity].
    apply map_eq. intros h. cbn [armed set_console].
    rewrite (reset_disarms s h Hrec), lookup_empty. reflexivity.
  - unfold fire. destruct (armed s !! h) as [t |] eqn:E; [|exact Hc].
    assert (Hq : armed s = {[h := t]} /\ debris s = ∅).
    { destruct Hc as [Hc | (Hd & h' & t' & Hc)].
      - rewrite Hc, lookup_empty in E. discriminate.
      - rewrite Hc in E. apply lookup_singleton_Some in E as [-> ->]. auto. }
    destruct Hq as [Ha Hd].
    destruct (awaiting _ !! h) as [rest |]; cbn [state_of].
    + apply forEachPromise_calm. cbn. rewrite Ha, delete_singleton_eq. auto.
    + left. cbn. rewrite Ha. apply delete_singleton_eq.
Qed.

Lemma reachable_calm (es : list event) (s : state) :
  timers_recorded s -> calm s -> calm (afterAll generateName es s).
Proof.
  revert s. induction es as [| e es IH]; intros s Hrec Hc.
  - exact Hc.
  - cbn [afterAll fold_left]. apply IH.
    + destruct (after_advances generateName e s) as (_ & _ & K). auto.
    + apply after_calm; assumption.
Qed.

(** X4. In every state that the page can reach from its initial state by
    runs of any code and by timeouts firing, the registry is well formed:
    each shape is registered under its own name, its element is a child
    of the svg element, and shapes of different names have different
    elements; a shape has the type of its class and two distinct
    allocated points that it shares with no shape of another name; its
    name passed the test of the naming pattern; every armed timeout was
    pushed on [timers]; and at most one timeout is armed, none while
    [items] holds a value that is no shape, as a [create] that threw
    leaves one. *)
Theorem reachable_states_are_well_formed (es : list event) :
  let s := afterAll generateName es initial in
  attached s /\ registry_ok s /\ names_tested s /\ timers_recorded s
  /\ calm s.
Proof.
  cbn zeta.
  assert (H0 : attached initial).
  { split; intros *; cbn; rewrite ?lookup_empty; discriminate. }
  assert (T0 : timers_recorded initial).
  { intros h [t Ht]. cbn in Ht. rewrite lookup_empty in Ht. discriminate. }
  destruct (reachable_invariant generateName es) as (R & N & T).
  split; [|split; [exact R | split; [exact N | split; [exact T|]]]].
  - clear R N T T0. revert H0. generalize initial.
    induction es as [| e es IH]; intros s Hs.
    + exact Hs.
    + cbn [afterAll fold_left]. apply IH. apply after_attached. exact Hs.
  - apply reachable_calm; [exact T0 | left; reflexivity].
Qed.

(** **** The command word of a line *)

Lemma cleanCommand_word (line : string) (s : state) :
  cleanCommand line s !! 0 = Some (commandWord line) /\ commandWord line <> " ".
Proof.
  unfold commandWord, cleanCommand. cbn zeta. rewrite banned_words_none.
  pose proof (split_no_space (trim line)) as F.
  pose proof (split_nonempty " " (trim line)) as N.
  destruct (split " " (trim line)) as [| w ws]; [congruence|].
  inversion F; subst. destruct (test _ _); cbn; auto.
Qed.

Lemma dispatch_word (w : string) (words : list string) (s : state) :
  words !! 0 = Some w -> w <> " " ->
  dispatch generateName words s
    = match read (assoc w (commands generateName)) (prototype s) w with
      | Own command => command words s
      | Inherited =>
          if bool_decide (w ∈ ["constructor"; "toString"])
          then Returns None s else Throws s
      | Added => Throws s
      | Absent => Returns None (log (InvalidCommand w) s)
      end.
Proof.
  intros H Hw. unfold dispatch. rewrite H.
  rewrite bool_decide_eq_false_2 by congruence. reflexivity.
Qed.

Lemma executeLine_word (line : string) (s : state) :
  line <> EmptyString ->
  let s1 := log (Echo line) (set_lineNumber (S (lineNumber s)) s) in
  let w := commandWord line in
  executeLine generateName line s
    = match read (assoc w (commands generateName)) (prototype s1) w with
      | Own command => command (cleanCommand line s1) s1
      | Inherited =>
          if bool_decide (w ∈ ["constructor"; "toString"])
          then Returns None s1 else Throws s1
      | Added => Throws s1
      | Absent => Returns None (log (InvalidCommand w) s1)
      end.
Proof.
  intros Hline s1 w. rewrite executeLine_nonempty
    by (destruct line; [exfalso; apply Hline|]; reflexivity).
  fold s1. destruct (cleanCommand_word line s1) as [H0 Hw].
  apply dispatch_word; assumption.
Qed.

(** A property of the steps that the line executor inherits from the
    commands of the table. *)
Lemma executeLine_rule (R : state -> state -> Prop) (line : string) (s : state) :
  line <> EmptyString ->
  let s1 := log (Echo line) (set_lineNumber (S (lineNumber s)) s) in
  R s1 s1 -> (forall m, R s1 (log m s1)) ->
  (forall command words,
      assoc (commandWord line) (commands generateName) = Some command ->
      R s1 (final (command words s1))) ->
  R s1 (final (executeLine generateName line s)).
Proof.
  intros Hline s1 Hrefl Hlog Hcommand.
  rewrite (executeLine_word line s Hline). fold s1. unfold read.
  destruct (assoc _ (commands generateName)) as [command |] eqn:E.
  - apply Hcommand. reflexivity.
  - branches; cbn [final]; auto.
Qed.

Lemma reset_command (command : handler) :
  assoc "reset" (commands generateName) = Some command ->
  command = fun _ s => Returns None (reset s).
Proof. intros H. cbn in H. congruence. Qed.

(** X5. The line counter.  Executing a line, blank or not, advances the
    line counter by exactly one, whatever the command does, with one
    exception: a line whose command word is [reset] sets the counter to
    zero, so that the line after it is logged as line 1 again. *)
Theorem line_counter (line : string) (s : state) :
  lineNumber (final (executeLine generateName line s))
    = if String.eqb (commandWord line) "reset" then 0 else S (lineNumber s).
Proof.
  destruct (string_dec line EmptyString) as [-> | Hline]; [reflexivity|].
  rewrite (executeLine_word line s Hline). cbn zeta. unfold read.
  destruct (String.eqb_spec (commandWord line) "reset") as [-> | Hne].
  - reflexivity.
  - destruct (assoc _ (commands generateName)) as [command |] eqn:E.
    + destruct (command_within_line _ _ E Hne
                  (cleanCommand line (log (Echo line)
                     (set_lineNumber (S (lineNumber s)) s)))
                  (log (Echo line) (set_lineNumber (S (lineNumber s)) s)))
        as [-> _].
      reflexivity.
    + branches; reflexivity.
Qed.

(** What a line adds to the console after its echo. *)
Lemma executeLine_console (line : string) (s : state) :
  line <> EmptyString ->
  let s1 := log (Echo line) (set_lineNumber (S (lineNumber s)) s) in
  exists rest,
    console (final (executeLine generateName line s)) = console s1 ++ rest
    /\ continued (S (lineNumber s)) rest.
Proof.
  intros Hline s1.
  apply (executeLine_rule
           (fun a b => exists rest,
                console b = console a ++ rest /\ continued (S (lineNumber s)) rest)
           line s Hline); fold s1.
  - exists []. split; [rewrite app_nil_r; reflexivity | constructor].
  - intros m. destruct (log_within_line m s1) as [_ H].
    destruct H as (_ & more & E & F); [reflexivity|]. eauto.
  - intros command words E.
    destruct (String.eqb_spec (commandWord line) "reset") as [Hreset | Hne].
    + rewrite Hreset in E. rewrite (reset_command command E).
      exists []. split; [rewrite app_nil_r; reflexivity | constructor].
    + destruct (command_within_line _ _ E Hne words s1) as [_ H].
      destruct H as (_ & more & E' & F); [reflexivity|]. eauto.
Qed.

(** X6. The console entries of one line.  A blank line adds nothing.  A
    line that is not blank adds its echo first, numbered unless the last
    entry logged before it carried the same line number, and every
    further entry the line adds (messages and errors of its command)
    carries the class of the same line and shows no number; no entry that
    was in the console is removed or changed. *)
Theorem console_entries_of_a_line (line : string) (s : state) :
  let n := S (lineNumber s) in
  exists more,
    console (final (executeLine generateName line s)) = console s ++ more
    /\ match more with
       | [] => line = EmptyString
       | first :: rest =>
           line <> EmptyString
           /\ first = {| classLine := n;
                         shownNumber := if (lastConsoleLineNumber s =? n)%nat
                                        then None else Some n;
                         text := Echo line |}
           /\ continued n rest
       end.
Proof.
  cbn zeta. destruct (string_dec line EmptyString) as [-> | Hline].
  - exists []. split; [rewrite app_nil_r; reflexivity | reflexivity].
  - destruct (executeLine_console line s Hline) as (rest & E & F).
    eexists (_ :: rest). split.
    + rewrite E. cbn [console log set_console set_lastConsoleLineNumber
        set_lineNumber lineNumber lastConsoleLineNumber].
      rewrite <- app_assoc. reflexivity.
    + split; [assumption|]. split; [reflexivity | assumption].
Qed.

Lemma executeLine_appends (line : string) (s : state) :
  exists more,
    console (final (executeLine generateName line s)) = console s ++ more.
Proof.
  destruct (string_dec line EmptyString) as [-> | Hline].
  - exists []. rewrite app_nil_r. reflexivity.
  - destruct (executeLine_console line s Hline) as (rest & E & _).
    rewrite E. cbn [console log set_console set_lastConsoleLineNumber
      set_lineNumber]. rewrite <- app_assoc. eauto.
Qed.

Lemma forEachPromise_appends (lines : list string) (s : state) :
  exists more,
    console (state_of (forEachPromise lines (executeLine generateName) s))
      = console s ++ more.
Proof.
  revert s. induction lines as [| line rest IH]; intros s; cbn [forEachPromise].
  - exists []. rewrite app_nil_r. reflexivity.
  - destruct (executeLine_appends line s) as (more & E).
    destruct (executeLine generateName line s) as [[h |] s1 | s1];
      cbn [final state_of console set_awaiting] in *.
    + exists more. exact E.
    + destruct (IH s1) as (more' & E'). rewrite E', E, <- app_assoc. eauto.
    + exists more. exact E.
Qed.

(** X7. [render] empties the console but does not reset
    [lastConsoleLineNumber].  When the first line of the code is not
    blank, the console after the run (finished, suspended or left by an
    exception) starts with the echo of that line, of class line 1; it
    shows its number unless the last entry logged before the run, in the
    previous run, belonged to a line 1. *)
Theorem first_entry_of_a_run (code : string) (s : state) :
  let first := hd EmptyString (split "010" code) in
  first <> EmptyString ->
  exists rest,
    console (state_of (render generateName code s))
      = {| classLine := 1;
           shownNumber := if (lastConsoleLineNumber s =? 1)%nat
                          then None else Some 1;
           text := Echo first |} :: rest.
Proof.
  cbn zeta. intros Hfirst. unfold render.
  pose proof (split_nonempty "010" code) as N.
  destruct (split "010" code) as [| first lines]; [congruence|].
  cbn [hd] in Hfirst. cbn [forEachPromise].
  set (s0 := set_console [] (reset s)).
  destruct (executeLine_console first s0 Hfirst) as (rest & E & _).
  cbn [console log set_console set_lastConsoleLineNumber set_lineNumber
    lineNumber lastConsoleLineNumber s0 reset set_withObjName set_timers
    set_armed set_items set_svg app] in E.
  destruct (executeLine generateName first s0) as [[h |] s1 | s1];
    cbn [final state_of console set_awaiting] in *.
  - rewrite E. eauto.
  - destruct (forEachPromise_appends lines s1) as (more & E').
    rewrite E', E. cbn [app]. eauto.
  - rewrite E. eauto.
Qed.

(** X8. Only [new], [clone], [remove] and [reset] change which names are
    registered.  A line with any other command word (a known command, an
    unknown one, or a name inherited from [Object.prototype]) leaves the
    registry with the same names, each shape with its name and its class,
    and the svg element with the same children. *)
Theorem other_commands_keep_the_names (line : string) (s : state) :
  existsb (String.eqb (commandWord line)) ["new"; "clone"; "remove"; "reset"]
    = false ->
  edits s (final (executeLine generateName line s)).
Proof.
  intros Hword. destruct (string_dec line EmptyString) as [-> | Hline].
  - apply edits_same; reflexivity.
  - eapply edits_trans; [apply edits_same; reflexivity|].
    apply (executeLine_rule edits line s Hline).
    + apply edits_refl.
    + intros m. apply edits_same; reflexivity.
    + intros command words E. apply (command_edits _ _ E Hword).
Qed.

(** **** Promises *)

Ltac never_a_promise H :=
  unfold paint, remove, write, setStroke, moveTo, moveBy, sizeTo, sizeBy,
    onShape, setPoints, setWith, notPromise, getItem in H;
  branches.

Lemma command_promise (name : string) (command : handler)
    (words : list string) (s s' : state) (h : nat) :
  assoc name (commands generateName) = Some command ->
  command words s = Returns (Some h) s' ->
  name = "wait".
Proof.
  intros H H0. table H; try reflexivity; never_a_promise H0.
Qed.

(** X9. The callback of [render] returns a promise for a [wait] line and
    for no other: when executing a line returns a promise, the command
    word of the line is [wait], the promise is that of a timeout the call
    has just armed under a fresh handle and pushed on [timers], and every
    other timeout is as it was. *)
Theorem only_wait_suspends (line : string) (s s' : state) (h : nat) :
  executeLine generateName line s = Returns (Some h) s' ->
  commandWord line = "wait"
  /\ h = nextHandle s /\ nextHandle s' = S h
  /\ is_Some (armed s' !! h)
  /\ timers s' = timers s ++ [h]
  /\ (forall h', h' <> h -> armed s' !! h' = armed s !! h')
  /\ items s' = items s /\ heap s' = heap s.
Proof.
  intros H. destruct (string_dec line EmptyString) as [-> | Hline];
    [discriminate|].
  rewrite (executeLine_word line s Hline) in H. cbn zeta in H.
  unfold read in H.
  destruct (assoc _ (commands generateName)) as [command |] eqn:E;
    [| branches].
  pose proof (command_promise _ _ _ _ _ _ E H) as Hwait.
  split; [exact Hwait|]. rewrite Hwait in E. cbn in E.
  inversion E; subst command. clear E.
  unfold wait in H. inversion H; subst. cbn.
  split; [reflexivity|]. split; [reflexivity|].
  split; [rewrite lookup_insert_eq; eauto|]. split; [reflexivity|].
  split; [|split; reflexivity].
  intros h' Hne. rewrite lookup_insert_ne by congruence. reflexivity.
Qed.

(** **** The selection *)

Lemma command_selection (name : string) (command : handler) :
  assoc name (commands generateName) = Some command ->
  existsb (String.eqb name) ["new"; "clone"; "paint"; "with"; "reset"] = false ->
  forall words s, withObjName (final (command words s)) = withObjName s.
Proof.
  intros H Hname words s. table H; try discriminate.
  all: unfold remove, write, setStroke, moveTo, moveBy, sizeTo, sizeBy,
         onShape, setPoints, wait, getItem, assignBuiltin, call;
       branches; reflexivity.
Qed.

(** X10. The selected object changes only on lines whose command word is
    [new], [clone], [paint], [with] or [reset].  In particular [remove]
    leaves the selection as it is, even when it removes the selected
    shape. *)
Theorem selection_is_kept (line : string) (s : state) :
  existsb (String.eqb (commandWord line))
          ["new"; "clone"; "paint"; "with"; "reset"] = false ->
  withObjName (final (executeLine generateName line s)) = withObjName s.
Proof.
  intros Hword. destruct (string_dec line EmptyString) as [-> | Hline];
    [reflexivity|].
  apply (executeLine_rule (fun _ b => withObjName b = withObjName s)
           line s Hline).
  - reflexivity.
  - reflexivity.
  - intros command words E.
    rewrite (command_selection _ _ E Hword). reflexivity.
Qed.

(** **** Removing *)

Lemma companion_name (name : string) : name +:+ ".text" <> name.
Proof.
  induction name as [| a r IH].
  - rewrite append_empty_l. discriminate.
  - rewrite append_cons. intros H. inversion H. contradiction.
Qed.

(** X11. Removing a registered shape.  In a state where the registered
    shapes are on the surface (every reachable state), [remove] of a name
    that is registered does not throw: it takes the element of the shape,
    and no other, off the svg element, deletes the name from [items], and
    deletes the name followed by [.text] as well, whatever [items] held
    under the two.  A shape that was
    registered under that second name loses its entry and keeps its
    element on the surface, where no later command reaches it.  Every
    other name, every other child in its place, the heap and the selection
    are as before, and one message is logged. *)
Theorem remove_unregisters (s : state) (name : string) (shape : Shape.t) :
  attached s ->
  items s !! name = Some shape ->
  exists s',
    remove (Some name) s = Returns None s'
    /\ items s' !! name = None
    /\ items s' !! (name +:+ ".text") = None
    /\ debris s' !! name = None
    /\ debris s' !! (name +:+ ".text") = None
    /\ (forall k, k <> name -> k <> name +:+ ".text" ->
                  items s' !! k = items s !! k /\ debris s' !! k = debris s !! k)
    /\ svg s' = filter (fun child => child ≠ Shape.node shape) (svg s)
    /\ (Shape.node shape ∉ svg s')
    /\ (forall companion,
          items s !! (name +:+ ".text") = Some companion ->
          Shape.node companion ∈ svg s')
    /\ heap s' = heap s
    /\ withObjName s' = withObjName s
    /\ texts s' = texts s ++ [Removing name].
Proof.
  intros [Ha Hd] Hshape. destruct (Ha name shape Hshape) as (Hname & Hin & _).
  pose proof (companion_name name) as Hc.
  unfold remove, getItem, item, read, Shape.remove. cbn [to_key].
  rewrite Hshape. rewrite bool_decide_eq_true_2 by assumption.
  eexists. split; [reflexivity|].
  cbn [items debris svg heap withObjName prototype log set_items set_debris
    set_svg set_console set_lastConsoleLineNumber].
  split.
  { rewrite lookup_delete_ne by assumption. apply lookup_delete_eq. }
  split; [apply lookup_delete_eq|].
  split.
  { rewrite lookup_delete_ne by assumption. apply lookup_delete_eq. }
  split; [apply lookup_delete_eq|].
  split.
  { intros k K1 K2. rewrite !lookup_delete_ne by congruence. split; reflexivity. }
  split; [reflexivity|].
  split.
  { rewrite list_elem_of_filter. tauto. }
  split.
  { intros companion Hcompanion. rewrite list_elem_of_filter. split.
    - apply (Hd (name +:+ ".text") name); assumption.
    - apply (Ha _ _ Hcompanion). }
  split; [reflexivity|]. split; [reflexivity|].
  rewrite texts_log. reflexivity.
Qed.

(** **** Tokens *)

Lemma concat_split (t : string) : String.concat " " (split " " t) = t.
Proof.
  induction t as [| a r IH]; [reflexivity|]. cbn [split].
  pose proof (split_nonempty " " r) as N.
  destruct (Ascii.eqb_spec a " ") as [-> | Hne].
  - destruct (split " " r) as [| w ws] eqn:E; [congruence|].
    change (String.concat " " (EmptyString :: w :: ws))
      with (String.append EmptyString
              (String.append " " (String.concat " " (w :: ws)))).
    rewrite IH. reflexivity.
  - destruct (split " " r) as [| w ws] eqn:E; [congruence|].
    destruct ws as [| w' ws'].
    + cbn in IH |- *. congruence.
    + change (String.concat " " (String a w :: w' :: ws'))
        with (String a (String.concat " " (w :: w' :: ws'))).
      rewrite IH. reflexivity.
Qed.

Lemma split_spaceless (t : string) :
  Forall (fun w => spaceless w = true) (split " " t).
Proof.
  induction t as [| a r IH]; cbn [split].
  - repeat constructor.
  - pose proof (split_nonempty " " r) as N.
    destruct (Ascii.eqb a " ") eqn:Ea.
    + constructor; [reflexivity | assumption].
    + destruct (split " " r) as [| w ws]; [congruence|].
      inversion IH; subst. constructor; [|assumption].
      unfold spaceless in *. cbn. rewrite Ea. assumption.
Qed.

Lemma split_word (w r : string) :
  spaceless w = true ->
  split " " (String.append w (String " " r)) = w :: split " " r.
Proof.
  induction w as [| a w IH]; intros Hw.
  - reflexivity.
  - unfold spaceless in Hw. cbn in Hw. apply andb_prop in Hw as [Ha Hw].
    rewrite append_cons. cbn [split].
    apply negb_true_iff in Ha. rewrite Ha.
    rewrite (IH Hw). reflexivity.
Qed.

Lemma trimEnd_append (p t : string) :
  t <> EmptyString -> trimEnd t = t ->
  trimEnd (String.append p t) = String.append p t.
Proof.
  intros Ht Hend. induction p as [| a p IH]; [exact Hend|].
  rewrite append_cons. cbn [trimEnd]. rewrite IH.
  destruct (String.append p t) eqn:E; [|reflexivity].
  apply append_is_empty in E as [_ E]. contradiction.
Qed.

Lemma trim_blank (line : string) : blank line = true -> trim line = EmptyString.
Proof.
  unfold trim, blank. induction line as [| a r IH]; [reflexivity|].
  cbn. intros H. apply andb_prop in H as [Ha Hr]. rewrite Ha. auto.
Qed.

(** X12. The tokens of a line are the pieces of the trimmed line between
    single spaces: none contains a space, joined by single spaces they
    give the trimmed line back (two spaces in a row give an empty token),
    and the filter of banned words removes nothing.  With the selection
    inserted or not, the token list is never empty and its first token is
    the command word and never a single space, so the callback of
    [render] always takes [words[0]] as the action. *)
Theorem tokens_of_a_line (line : string) (s : state) :
  let pieces := split " " (trim line) in
  let words := cleanCommand line s in
  Forall (fun w => spaceless w = true) pieces
  /\ String.concat " " pieces = trim line
  /\ filter (fun w => w ∉ [" "]) pieces = pieces
  /\ words = (if test startsWithSpace line
              then splice1 (withObjName_text (withObjName s)) pieces
              else pieces)
  /\ words <> []
  /\ (if bool_decide (words !! 0 = Some " ") then words !! 1 else words !! 0)
     = Some (commandWord line).
Proof.
  cbn zeta. destruct (cleanCommand_word line s) as [H0 Hw].
  split; [apply split_spaceless|]. split; [apply concat_split|].
  split; [apply banned_words_none|].
  split; [unfold cleanCommand; rewrite banned_words_none; reflexivity|].
  split; [intros E; rewrite E in H0; discriminate|].
  rewrite H0, bool_decide_eq_false_2 by congruence. reflexivity.
Qed.

(** X13. [write name text...] stores the rest of the line as the text
    content of the shape, spaces included: for a registered name without
    a space in it and a text that is not empty and does not end in white
    space, the line [write name text] sets the text content of the
    element of the shape to exactly [text] and logs the echo and one
    message; the attributes, the fill and the heap are as before, and
    reading the [text] property of the shape back still gives its
    [style.fill], not the text written. *)
Theorem write_stores_the_rest_of_the_line
    (s : state) (name text : string) (shape : Shape.t) :
  items s !! name = Some shape ->
  spaceless name = true ->
  text <> EmptyString -> trimEnd text = text ->
  let line := String.append "write " (String.append name (String " " text)) in
  exists s' shape',
    executeLine generateName line s = Returns None s'
    /\ items s' = <[name := shape']> (items s)
    /\ Element.textContent (Shape.domElement shape') = VString text
    /\ Shape.get_text shape' = Shape.get_fill shape
    /\ iShape.get_fill shape' = iShape.get_fill shape
    /\ Element.attributes (Shape.domElement shape')
       = Element.attributes (Shape.domElement shape)
    /\ heap s' = heap s
    /\ texts s' = texts s ++ [Echo line; Wrote (split " " text) name].
Proof.
  intros Hshape Hname Htext Hend line.
  assert (Hline : line <> EmptyString) by discriminate.
  assert (Htrim : trim line = line).
  { unfold trim, line. rewrite !append_cons. cbn [trimStart].
    change (is_space "w") with false. cbv iota.
    rewrite <- !append_cons. rewrite <- append_assoc.
    apply trimEnd_append.
    - intros E. inversion E.
    - cbn [trimEnd]. rewrite Hend. destruct text; congruence. }
  assert (Hplain : test startsWithSpace line = false).
  { destruct (test startsWithSpace line) eqn:E; [|reflexivity].
    apply startsWithSpace_spec in E as (a & rest & E & Ha).
    unfold line in E. rewrite append_cons in E. inversion E; subst a.
    discriminate. }
  assert (Hwords : forall s1,
             cleanCommand line s1 = "write" :: name :: split " " text).
  { intros s1. rewrite (cleanCommand_plain s1 line Hplain), Htrim.
    unfold line.
    change (String.append "write " (String.append name (String " " text)))
      with (String.append "write"
              (String " " (String.append name (String " " text)))).
    rewrite (split_word "write") by reflexivity.
    rewrite (split_word name) by assumption. reflexivity. }
  assert (Hword : commandWord line = "write").
  { unfold commandWord. rewrite <- (cleanCommand_plain s line Hplain), Hwords.
    reflexivity. }
  rewrite (executeLine_word line s Hline). cbn zeta.
  rewrite Hword, Hwords.
  cbn [assoc commands String.eqb Ascii.eqb Bool.eqb read lookup list_lookup slice2 drop].
  unfold write, getItem, item, read. cbn [to_key items log set_lineNumber
    set_console set_lastConsoleLineNumber]. rewrite Hshape.
  rewrite !drop_0, concat_split.
  eexists. eexists. split; [reflexivity|]. split; [reflexivity|].
  split; [reflexivity|]. split; [reflexivity|].
  split; [unfold iShape.get_fill; cbn [Shape.class Shape.set_text
            Shape.with_element]; destruct (Shape.class shape); reflexivity|].
  split; [reflexivity|]. split; [reflexivity|].
  unfold texts. cbn. rewrite !map_app, <- !app_assoc. reflexivity.
Qed.

(** X14. A line of white space only is not a blank line: it is echoed,
    its only token is the empty string, no command has that name, and the
    line is reported as an invalid command with an empty name; nothing
    but the console and the line counter changes. *)
Theorem white_space_is_an_invalid_command (line : string) (s : state) :
  line <> EmptyString -> blank line = true ->
  prototype s !! EmptyString = None ->
  commandWord line = EmptyString
  /\ executeLine generateName line s
     = Returns None
         (log (InvalidCommand EmptyString)
            (log (Echo line) (set_lineNumber (S (lineNumber s)) s))).
Proof.
  intros Hline Hblank Hproto.
  assert (Hword : commandWord line = EmptyString).
  { unfold commandWord. rewrite (trim_blank line Hblank). reflexivity. }
  split; [exact Hword|].
  rewrite (executeLine_word line s Hline). cbn zeta. rewrite Hword.
  unfold read. cbn [assoc commands String.eqb prototype log set_lineNumber
    set_console set_lastConsoleLineNumber].
  rewrite Hproto. reflexivity.
Qed.

(** **** Creating *)

Lemma constructors_table (type : string)
    (make : string -> Heap.t -> Shape.t * Heap.t) :
  assoc type objectTypes = Some make ->
  exists k,
    make = Shape.new k (tag k)
    /\ In (type, k)
          [ ("text", KText); ("circle", KCircle); ("ellipse", KCircle);
            ("rectangle", KRectangle); ("rect", KRectangle); ("line", KLine);
            ("polygon", KPolygon) ].
Proof.
  unfold objectTypes. cbn [assoc]. intros H.
  branches;
    repeat match goal with
           | E : String.eqb _ _ = true |- _ => apply String.eqb_eq in E; subst
           end;
    first [ exists KText; split; [reflexivity | cbn; tauto]
          | exists KCircle; split; [reflexivity | cbn; tauto]
          | exists KRectangle; split; [reflexivity | cbn; tauto]
          | exists KLine; split; [reflexivity | cbn; tauto]
          | exists KPolygon; split; [reflexivity | cbn; tauto] ].
Qed.

(** X15. Creating a shape under a name that is free and passes the test,
    with a type of the table: the shape is registered under that name, it
    is of the class the table gives for the type ([circle] and [ellipse]
    give the same class, and so do [rectangle] and [rect]) and its
    element has the tag of the class; the origin is (0,0), the extent
    (100,100) and the stroke transparent of width 1, and none of these
    defaults is written to the element, which has no attribute, an empty
    fill and an empty text.  The element is a node the document has not
    created before.  The shape becomes the selection and its element the
    last child of the svg element, whose other children stay; one message
    is logged, and every other registered shape and its points are as
    before. *)
Theorem create_registers_a_default_shape
    (s : state) (name type : string)
    (make : string -> Heap.t -> Shape.t * Heap.t) :
  item s name = Absent ->
  test varNamingRule name = true ->
  type <> EmptyString ->
  assoc type objectTypes = Some make ->
  exists s' shape k,
    create generateName (Some name) (Some type) s = Returns (Some name) s'
    /\ items s' = <[name := shape]> (items s)
    /\ In (type, k)
          [ ("text", KText); ("circle", KCircle); ("ellipse", KCircle);
            ("rectangle", KRectangle); ("rect", KRectangle); ("line", KLine);
            ("polygon", KPolygon) ]
    /\ Shape.class shape = k /\ Shape.type shape = tag k
    /\ Shape.name shape = name
    /\ Shape.domElement shape
       = Element.createElementNS (tag k) (Heap.nodes (heap s))
    /\ Heap.nodes (heap s') = S (Heap.nodes (heap s))
    /\ Shape.stroke shape = Stroke.mk "transparent" (of_Z 1)
    /\ placed name s'
       = Some (Point.mk (of_Z 0) (of_Z 0), Point.mk (of_Z 100) (of_Z 100))
    /\ withObjName s' = Given name
    /\ last (svg s') = Some (Shape.node shape)
    /\ (forall child, child <> Shape.node shape ->
                      (child ∈ svg s' <-> child ∈ svg s))
    /\ texts s' = texts s ++ [Created type name]
    /\ (registry_ok s -> forall b, b <> name -> view b s' = view b s).
Proof.
  intros Habsent Htest Htype Hmake.
  rewrite (create_fresh generateName s name type make Habsent Htest Htype Hmake).
  destruct (constructors_table type make Hmake) as (k & -> & Hin).
  eexists. eexists. exists k. split; [reflexivity|].
  cbn [items svg heap withObjName log set_items set_svg set_heap
    set_withObjName set_console set_lastConsoleLineNumber].
  split; [reflexivity|]. split; [exact Hin|].
  split; [reflexivity|]. split; [reflexivity|]. split; [reflexivity|].
  split; [reflexivity|]. split; [reflexivity|]. split; [reflexivity|].
  split.
  { unfold placed, points_of.
    cbn [items heap log set_items set_svg set_heap set_withObjName
      set_console set_lastConsoleLineNumber].
    rewrite lookup_insert_eq. cbn [fst snd]. unfold Heap.get. cbn.
    rewrite lookup_total_insert_eq.
    rewrite lookup_total_insert_ne by lia.
    rewrite lookup_total_insert_eq. reflexivity. }
  split; [reflexivity|].
  split; [unfold appendChild; apply last_snoc|].
  split; [intros key Hkey; rewrite appendChild_elem; tauto|].
  split; [rewrite texts_log; reflexivity|].
  intros [Hshapes _] b Hb. unfold view.
  cbn [items heap log set_items set_svg set_heap set_withObjName
    set_console set_lastConsoleLineNumber].
  rewrite lookup_insert_ne by congruence.
  destruct (items s !! b) as [sh |] eqn:Esh; [|reflexivity].
  destruct (Hshapes b sh Esh) as (_ & _ & L0 & L1 & _).
  unfold Heap.get. cbn.
  rewrite !lookup_total_insert_ne by lia. reflexivity.
Qed.

(** X16. The names that the registry object inherits from
    [Object.prototype] ([constructor], [toString], [__proto__] and the
    like) count as taken although [items] has no property of its own
    under them, neither a shape nor another value: [create] reports the
    name as already in use, [with] selects it, and [remove], the four
    move and size functions, [setStroke] and [setPoints] throw a
    TypeError on it, leaving the state as it was. *)
Theorem inherited_names_are_taken (s : state) (name : string) :
  name ∈ objectPrototype ->
  items s !! name = None ->
  debris s !! name = None ->
  (forall type,
      create generateName (Some name) type s
        = Returns None (log (AlreadyAnObject name) s))
  /\ setWith (Some name) s
     = Returns None (log (SelectedObject name) (set_withObjName (Given name) s))
  /\ remove (Some name) s = Throws s
  /\ (forall x y,
        moveTo (Some name) x y s = Throws s /\ moveBy (Some name) x y s = Throws s
        /\ sizeTo (Some name) x y s = Throws s /\ sizeBy (Some name) x y s = Throws s)
  /\ (forall color width, setStroke (Some name) color width s = Throws s)
  /\ (forall points, setPoints (Some name) points s = Throws s).
Proof.
  intros Hin Hfree Hnone.
  assert (Hread : item s name = Inherited).
  { unfold item, read.
    rewrite Hfree, Hnone, bool_decide_eq_true_2 by assumption. reflexivity. }
  assert (Hname : name <> EmptyString).
  { intros ->. apply (bool_decide_eq_true_2 _) in Hin. vm_compute in Hin.
    discriminate. }
  split; [|split; [|split; [|split; [|split]]]].
  - intros type. unfold create.
    rewrite (string_truthy_nonempty name Hname), Hread. reflexivity.
  - unfold setWith, getItem. cbn [to_key]. rewrite Hread. reflexivity.
  - unfold remove, getItem. cbn [to_key]. rewrite Hread. reflexivity.
  - intros x y. unfold moveTo, moveBy, sizeTo, sizeBy, onShape, getItem.
    cbn [to_key]. rewrite Hread. repeat split.
  - intros color width. unfold setStroke, getItem. cbn [to_key].
    rewrite Hread. reflexivity.
  - intros points. unfold setPoints, getItem. cbn [to_key].
    rewrite Hread. reflexivity.
Qed.

Lemma copyInto_generated (fromObject : Shape.t) (b : string) (s : state) :
  generated (copyInto fromObject b s) = generated s.
Proof. unfold copyInto. branches; reflexivity. Qed.

(** Without a name, [create] takes a generated one. *)
Lemma create_generated (type : option string) (s : state) :
  generateName (generated s) <> EmptyString ->
  create generateName None type s
    = create generateName (Some (generateName (generated s))) type
        (set_generated (S (generated s)) s).
Proof.
  intros Hg. unfold create.
  rewrite (string_truthy_nonempty _ Hg). reflexivity.
Qed.

(** X17. [clone] without a target name.  When the second name is left
    out, [create] registers the copy under a generated name, but [clone]
    then sets the selection to the missing argument itself: the selection
    is [undefined], not the generated name, and the message names
    [undefined] as the copy.  ([new] without a name selects the generated
    name.) *)
Theorem clone_without_a_target (s : state) (a : string) (from : Shape.t) :
  shape_ok (heap s) from ->
  items s !! a = Some from ->
  let g := generateName (generated s) in
  item s g = Absent ->
  test varNamingRule g = true ->
  exists s' s1,
    clone generateName (Some a) None s = Returns (Some g) s'
    /\ is_Some (items s' !! g)
    /\ generated s' = S (generated s)
    /\ withObjName s' = Undefined
    /\ withObjName_text (withObjName s') = "undefined"
    /\ last (texts s') = Some (Duplicated a "undefined")
    /\ create generateName None (Some (Shape.type from)) s = Returns (Some g) s1
    /\ withObjName s1 = Given g.
Proof.
  intros (Htype & _) Ha g Hg Htest.
  set (k := Shape.class from) in *.
  assert (Hcreate : create generateName None (Some (Shape.type from)) s
            = create generateName (Some g) (Some (tag k))
                (set_generated (S (generated s)) s)).
  { rewrite Htype. apply create_generated, tested_nonempty, Htest. }
  pose proof (create_fresh generateName (set_generated (S (generated s)) s) g
                (tag k) (Shape.new k (tag k)) Hg Htest (tag_nonempty k)
                (constructor_of k)) as Hfresh.
  set (s1 := log (Created (tag k) g) _) in Hfresh.
  assert (Hg1 : is_Some (items s1 !! g)).
  { unfold s1. cbn [items log set_svg set_withObjName set_heap set_items
      set_console set_lastConsoleLineNumber].
    rewrite lookup_insert_eq. eauto. }
  assert (Hn1 : generated s1 = S (generated s)) by reflexivity.
  assert (Hsel1 : withObjName s1 = Given g) by reflexivity.
  clearbody s1.
  rewrite Hcreate, Hfresh.
  unfold clone, getItem, item, read. cbn [to_key]. rewrite Ha, Hcreate, Hfresh.
  eexists. exists s1. split; [reflexivity|].
  cbn [items generated withObjName log set_svg set_withObjName set_console
    set_lastConsoleLineNumber raw withObjName_text].
  split; [apply (edits_names _ _ g (copyInto_edits from g s1)); exact Hg1|].
  split; [rewrite copyInto_generated; exact Hn1|].
  split; [reflexivity|]. split; [reflexivity|].
  split; [rewrite texts_log, last_snoc; reflexivity|].
  split; [reflexivity | exact Hsel1].
Qed.

(** **** Moving, sizing and outlining by command *)

Lemma onShape_placed (name : string)
    (method : Shape.t -> Heap.t -> Shape.t * Heap.t)
    (report : Shape.t -> Heap.t -> message) (s : state) (shape : Shape.t) :
  items s !! name = Some shape ->
  placed name (final (onShape (Some name) method report s))
    = Some (points_of (method shape (heap s))).
Proof.
  intros Hshape. unfold onShape, getItem, item, read. cbn [to_key].
  rewrite Hshape. cbn [final]. unfold call.
  destruct (method shape (heap s)) as [sh' h']. unfold placed.
  cbn [items heap log set_items set_heap set_console set_lastConsoleLineNumber].
  rewrite lookup_insert_eq. reflexivity.
Qed.

Ltac known_command c :=
  rewrite (dispatch_word c) by (reflexivity || discriminate);
  cbn [assoc commands String.eqb Ascii.eqb Bool.eqb read lookup list_lookup].

(** X18. The eight commands that place a shape.  For a registered shape
    in a well-formed registry, with [p] and [q] the binary64 numbers of
    the first two arguments (NaN for a missing or non-numeric one, an
    infinity for one too large, zero for one too small) and sums rounded
    to the nearest value: [position] sets the origin to (p,q) and [move]
    adds (p,q) to it; [left] sets the abscissa of the origin to p and
    [top] sets its ordinate to p, each leaving the other coordinate;
    [size], [grow], [width] and [height] do the same to the extent.  The
    commands on the origin leave the extent as it was and conversely, and
    no other registered shape or point changes. *)
Theorem placing_commands
    (s : state) (name : string) (shape : Shape.t) (args : list string) :
  registry_ok s ->
  items s !! name = Some shape ->
  let p := Number (args !! 0) in
  let q := Number (args !! 1) in
  let o := Heap.get (heap s) (Shape.point0 shape) in
  let e := Heap.get (heap s) (Shape.point1 shape) in
  let run (command : string) :=
    final (dispatch generateName (command :: name :: args) s) in
  placed name (run "position") = Some (Point.mk p q, e)
  /\ placed name (run "move")
     = Some (Point.mk (add (Point._x o) p) (add (Point._y o) q), e)
  /\ placed name (run "left") = Some (Point.mk p (Point._y o), e)
  /\ placed name (run "top") = Some (Point.mk (Point._x o) p, e)
  /\ placed name (run "size") = Some (o, Point.mk p q)
  /\ placed name (run "grow")
     = Some (o, Point.mk (add (Point._x e) p) (add (Point._y e) q))
  /\ placed name (run "width") = Some (o, Point.mk p (Point._y e))
  /\ placed name (run "height") = Some (o, Point.mk (Point._x e) p)
  /\ forall command b,
       In command ["position"; "move"; "left"; "top";
                   "size"; "grow"; "width"; "height"] ->
       b <> name -> view b (run command) = view b s.
Proof.
  intros Hok Hshape p q o e run. subst p q.
  destruct (Hok) as [Hshapes _].
  pose proof (Hshapes name shape Hshape) as Hsh.
  assert (Hm : forall a b,
             points_of (iShape.moveTo shape a b (heap s)) = (Point.moveTo o a b, e)
             /\ points_of (iShape.moveBy shape a b (heap s)) = (Point.moveBy o a b, e)
             /\ points_of (iShape.sizeTo shape a b (heap s)) = (o, Point.moveTo e a b)
             /\ points_of (iShape.sizeBy shape a b (heap s)) = (o, Point.moveBy e a b))
    by (intros a b; apply (method_points shape (heap s) a b Hsh)).
  unfold run.
  split; [|split; [|split; [|split; [|split; [|split; [|split; [|split]]]]]]].
  - known_command "position". unfold moveTo.
    rewrite (onShape_placed name _ _ s shape Hshape).
    destruct (Hm (Some (Number (args !! 0))) (Some (Number (args !! 1)))) as (E & _). exact (f_equal Some E).
  - known_command "move". unfold moveBy.
    rewrite (onShape_placed name _ _ s shape Hshape).
    destruct (Hm (Some (Number (args !! 0))) (Some (Number (args !! 1)))) as (_ & E & _). exact (f_equal Some E).
  - known_command "left". unfold moveTo.
    rewrite (onShape_placed name _ _ s shape Hshape).
    destruct (Hm (Some (Number (args !! 0))) None) as (E & _). exact (f_equal Some E).
  - known_command "top". unfold moveTo.
    rewrite (onShape_placed name _ _ s shape Hshape).
    destruct (Hm None (Some (Number (args !! 0)))) as (E & _). exact (f_equal Some E).
  - known_command "size". unfold sizeTo.
    rewrite (onShape_placed name _ _ s shape Hshape).
    destruct (Hm (Some (Number (args !! 0))) (Some (Number (args !! 1)))) as (_ & _ & E & _). exact (f_equal Some E).
  - known_command "grow". unfold sizeBy.
    rewrite (onShape_placed name _ _ s shape Hshape).
    destruct (Hm (Some (Number (args !! 0))) (Some (Number (args !! 1)))) as (_ & _ & _ & E). exact (f_equal Some E).
  - known_command "width". unfold sizeTo.
    rewrite (onShape_placed name _ _ s shape Hshape).
    destruct (Hm (Some (Number (args !! 0))) None) as (_ & _ & E & _). exact (f_equal Some E).
  - known_command "height". unfold sizeTo.
    rewrite (onShape_placed name _ _ s shape Hshape).
    destruct (Hm None (Some (Number (args !! 0)))) as (_ & _ & E & _). exact (f_equal Some E).
  - intros command b Hin Hb. cbn [In] in Hin.
    destruct Hin as [<- | [<- | [<- | [<- | [<- | [<- | [<- | [<- | []]]]]]]]].
    + known_command "position".
      apply (touches_view name b s _ Hok (moveTo_touches (Some name) _ _ s) Hb).
    + known_command "move".
      apply (touches_view name b s _ Hok (moveBy_touches (Some name) _ _ s) Hb).
    + known_command "left".
      apply (touches_view name b s _ Hok (moveTo_touches (Some name) _ _ s) Hb).
    + known_command "top".
      apply (touches_view name b s _ Hok (moveTo_touches (Some name) _ _ s) Hb).
    + known_command "size".
      apply (touches_view name b s _ Hok (sizeTo_touches (Some name) _ _ s) Hb).
    + known_command "grow".
      apply (touches_view name b s _ Hok (sizeBy_touches (Some name) _ _ s) Hb).
    + known_command "width".
      apply (touches_view name b s _ Hok (sizeTo_touches (Some name) _ _ s) Hb).
    + known_command "height".
      apply (touches_view name b s _ Hok (sizeTo_touches (Some name) _ _ s) Hb).
Qed.

Lemma orOne_truthy (n : number) : number_truthy (orOne n) = true.
Proof. unfold orOne. destruct (number_truthy n) eqn:E; [exact E | reflexivity]. Qed.

(** X19. The [outline] command always replaces both the colour and the
    width of the stroke; it never keeps the current one.  The colour is
    the first argument, and [transparent] when it is missing; the width
    is the binary64 number of the second argument, and 1 when that is
    missing, not numeric or zero, as is [1e-400], which rounds to zero; so
    the width stored is never zero and never NaN.
    The [stroke] and [stroke-width] attributes of the element receive the
    same two values; the fill of a shape that is not a line, the heap and
    the selection are as before. *)
Theorem outline_command
    (s : state) (name : string) (shape : Shape.t) (args : list string) :
  items s !! name = Some shape ->
  let color := match args !! 0 with Some c => c | None => "transparent" end in
  let width := if number_truthy (Number (args !! 1))
               then Number (args !! 1) else of_Z 1 in
  exists s' shape',
    dispatch generateName ("outline" :: name :: args) s = Returns None s'
    /\ items s' = <[name := shape']> (items s)
    /\ Shape.stroke shape' = Stroke.mk color width
    /\ number_truthy width = true
    /\ attribute "stroke" shape' = Some (VString color)
    /\ attribute "stroke-width" shape' = Some (VNumber width)
    /\ (Shape.class shape <> KLine -> iShape.get_fill shape' = iShape.get_fill shape)
    /\ heap s' = heap s
    /\ withObjName s' = withObjName s.
Proof.
  intros Hshape color width.
  known_command "outline".
  unfold setStroke, getItem, item, read. cbn [to_key]. rewrite Hshape.
  eexists. eexists. split; [reflexivity|].
  split; [reflexivity|].
  split; [unfold color; destruct (args !! 0); reflexivity|].
  split; [apply orOne_truthy|].
  split.
  { unfold attribute, color. cbn. simplify_map_eq.
    destruct (args !! 0); reflexivity. }
  split.
  { unfold attribute. cbn. simplify_map_eq. reflexivity. }
  split; [|split; reflexivity].
  intros Hline. unfold iShape.get_fill. cbn.
  destruct (Shape.class shape); try congruence; reflexivity.
Qed.

(** **** The messages of [wait] *)

(** X20. The two messages of [wait].  The message logged when the timeout
    is armed and the one its callback logs when it fires carry the same
    count, printed as the token was written ([undefined] when it is
    missing), and the same unit word: [second] when the unit token names
    seconds and [millisecond] otherwise, with an [s] added exactly when
    the count is a number greater than 1.  The count printed is the token
    even when the delay is not: [wait 0 seconds] prints [0 second]. *)
Theorem wait_messages (n unitName : option string) (s : state) :
  let unit := if test secondsUnit (to_key unitName)
              then "second" else "millisecond" in
  let label := unit +:+ (if gt (Number n) (of_Z 1) then "s" else EmptyString) in
  exists h s1 t,
    wait n unitName s = Returns (Some h) s1
    /\ texts s1 = texts s ++ [WaitingFor (to_key n) label]
    /\ armed s1 !! h = Some t
    /\ forall s2,
         armed s2 !! h = Some t ->
         exists p more,
           fire generateName h s2 = Some p
           /\ texts (state_of p)
              = texts s2 ++ TimerFinished (to_key n) label :: more.
Proof.
  cbn zeta. unfold wait. cbn zeta.
  eexists. eexists. eexists. split; [reflexivity|].
  split; [rewrite <- texts_log; reflexivity|].
  split; [cbn [armed set_timers set_nextHandle set_armed]; apply lookup_insert_eq|].
  intros s2 H2. unfold fire. rewrite H2. cbn [label_n label_units].
  set (s3 := log _ (set_armed _ s2)).
  assert (H3 : texts s3 = texts s2 ++ [TimerFinished (to_key n)
              ((if test secondsUnit (to_key unitName)
                then "second" else "millisecond")
               +:+ (if gt (Number n) (of_Z 1) then "s" else EmptyString))])
    by (unfold s3; rewrite texts_log; reflexivity).
  destruct (awaiting s3 !! _) as [rest |].
  - destruct (forEachPromise_appends rest
                (set_awaiting (delete (nextHandle (log (WaitingFor (to_key n)
                   ((if test secondsUnit (to_key unitName)
                     then "second" else "millisecond")
                    +:+ (if gt (Number n) (of_Z 1) then "s" else EmptyString))) s))
                   (awaiting s3)) s3)) as (more & E).
    eexists. exists (map text more). split; [reflexivity|].
    unfold texts in *. rewrite E. cbn [console set_awaiting].
    rewrite map_app, H3, <- app_assoc. reflexivity.
  - eexists. exists []. split; [reflexivity|]. exact H3.
Qed.

(** **** Errors that are only logged *)

(** X21. A name that is not an object.  When the registry has nothing
    under the name given (the text [undefined] when the argument is
    missing), every function that takes a name logs that there was no
    object and returns without touching anything else: [paint], [write],
    [setStroke], the four move and size functions, [setPoints] and [with]
    log one message, [clone] logs it and creates nothing whatever the
    target, and [remove] logs two, the message of [getItem] and its own. *)
Theorem unknown_names_are_reported (s : state) (varName : option string) :
  item s (to_key varName) = Absent ->
  let reported := Returns None (log (NoObjectCalled (to_key varName)) s) in
  (forall color, paint varName color s = reported)
  /\ (forall text, write varName text s = reported)
  /\ (forall color width, setStroke varName color width s = reported)
  /\ (forall x y,
        moveTo varName x y s = reported /\ moveBy varName x y s = reported
        /\ sizeTo varName x y s = reported /\ sizeBy varName x y s = reported)
  /\ (forall points, setPoints varName points s = reported)
  /\ setWith varName s = reported
  /\ (forall target,
        clone generateName varName target s
          = Returns None (log (NoObjectCalled (to_key varName)) s))
  /\ remove varName s
     = Returns None
         (log (NoObjectToRemove (to_key varName))
            (log (NoObjectCalled (to_key varName)) s))
  /\ (let s' := log (NoObjectCalled (to_key varName)) s in
      items s' = items s /\ heap s' = heap s /\ svg s' = svg s
      /\ withObjName s' = withObjName s
      /\ texts s' = texts s ++ [NoObjectCalled (to_key varName)]).
Proof.
  intros Habsent. cbn zeta.
  split; [intros; unfold paint, getItem; rewrite Habsent; reflexivity|].
  split; [intros; unfold write, getItem; rewrite Habsent; reflexivity|].
  split; [intros; unfold setStroke, getItem; rewrite Habsent; reflexivity|].
  split; [intros; unfold moveTo, moveBy, sizeTo, sizeBy, onShape, getItem;
          rewrite Habsent; repeat split|].
  split; [intros; unfold setPoints, getItem; rewrite Habsent; reflexivity|].
  split; [unfold setWith, getItem; rewrite Habsent; reflexivity|].
  split; [intros; unfold clone, getItem; rewrite Habsent; reflexivity|].
  split; [unfold remove, getItem; rewrite Habsent; reflexivity|].
  repeat split. apply texts_log.
Qed.

(** X22. The refusals of [create], in the order of its checks.  For a
    name that is not empty and not taken: when the name fails the test of
    the naming pattern, [create] logs the naming message whatever the
    type, even a missing or unknown one; when the name passes and the
    type is missing or empty, it logs that a type must be set; when the
    type is not a property of [objectTypes], it logs that the type is not
    valid, with the list of the types.  In each case [create] returns
    nothing, logs one message, and the registry, the heap, the children
    of the svg element and the selection are as before. *)
Theorem create_refusals (s : state) (name : string) :
  item s name = Absent ->
  name <> EmptyString ->
  let refused (o : outcome (option string)) (m : message) :=
    o = Returns None (log m s)
    /\ items (final o) = items s /\ heap (final o) = heap s
    /\ svg (final o) = svg s /\ withObjName (final o) = withObjName s
    /\ texts (final o) = texts s ++ [m] in
  (test varNamingRule name = false ->
   forall type,
     refused (create generateName (Some name) type s) NameMustStartWithLetter)
  /\ (test varNamingRule name = true ->
      refused (create generateName (Some name) None s) MustSetAType
      /\ refused (create generateName (Some name) (Some EmptyString) s)
                 MustSetAType)
  /\ (test varNamingRule name = true ->
      forall type,
        type <> EmptyString ->
        read (assoc type objectTypes) (prototype s) type = Absent ->
        refused (create generateName (Some name) (Some type) s)
                (NotAValidType type
                   ["text"; "circle"; "ellipse"; "rectangle"; "rect"; "line";
                    "polygon"])).
Proof.
  intros Habsent Hname. cbn zeta.
  assert (Hlog : forall m,
             items (log m s) = items s /\ heap (log m s) = heap s
             /\ svg (log m s) = svg s /\ withObjName (log m s) = withObjName s
             /\ texts (log m s) = texts s ++ [m])
    by (intros m; repeat split; apply texts_log).
  split; [|split].
  - intros Htest type.
    assert (E : create generateName (Some name) type s
                = Returns None (log NameMustStartWithLetter s)).
    { unfold create.
      rewrite (string_truthy_nonempty name Hname), Habsent, Htest. reflexivity. }
    rewrite E. split; [reflexivity | apply Hlog].
  - intros Htest.
    assert (E : forall type, string_truthy type = None ->
                create generateName (Some name) type s
                = Returns None (log MustSetAType s)).
    { intros type Htype. unfold create.
      rewrite (string_truthy_nonempty name Hname), Habsent, Htest, Htype.
      reflexivity. }
    rewrite !E by reflexivity.
    split; (split; [reflexivity | apply Hlog]).
  - intros Htest type Htype Hunknown.
    assert (E : create generateName (Some name) (Some type) s
                = Returns None
                    (log (NotAValidType type
                            ["text"; "circle"; "ellipse"; "rectangle"; "rect";
                             "line"; "polygon"]) s)).
    { unfold create.
      rewrite (string_truthy_nonempty name Hname), Habsent, Htest.
      rewrite (string_truthy_nonempty type Htype). cbn [negb].
      rewrite Hunknown. reflexivity. }
    rewrite E. split; [reflexivity | apply Hlog].
Qed.

(** X23. [create] with a type that [objectTypes] has only by inheritance
    from [Object.prototype].  For a name that is free and passes the
    test, the type is taken for a constructor and called with the name.
    When the built-in returns ([constructor], [toString],
    [toLocaleString], [valueOf], [hasOwnProperty], [propertyIsEnumerable],
    [isPrototypeOf], [__lookupGetter__], [__lookupSetter__]), its result,
    which is no shape, is stored in [items] under the name and the name
    is selected; then an exception leaves [create], for the result has no
    element to append.  When the call itself throws ([__defineGetter__],
    [__defineSetter__], [__proto__]) nothing is stored.  In both cases no
    message is logged and the shapes, the heap and the children of the
    svg element are as before. *)
Theorem create_with_an_inherited_type (s : state) (name type : string) :
  item s name = Absent ->
  test varNamingRule name = true ->
  type ∈ objectPrototype ->
  let o := create generateName (Some name) (Some type) s in
  match builtin type name with
  | Some result =>
      o = Throws (set_withObjName (Given name)
                    (set_debris (<[name := result]> (debris s)) s))
      /\ debris (final o) !! name = Some result
      /\ withObjName (final o) = Given name
  | None => o = Throws s
  end
  /\ items (final o) = items s /\ heap (final o) = heap s
  /\ svg (final o) = svg s /\ console (final o) = console s
  /\ map (fun type => builtin type name) objectPrototype
     = [ Some (AStringObject name); None; None;
         Some (ABoolean (bool_decide (name ∈ map fst objectTypes)));
         Some AnUndefined; Some AnUndefined; Some (ABoolean false);
         Some (ABoolean (bool_decide (name ∈ map fst objectTypes)));
         Some (AString "[object Object]"); Some TheTypes; None;
         Some (AString "[object Object]") ].
Proof.
  intros Habsent Htest Hin o.
  assert (Htype : type <> EmptyString /\ assoc type objectTypes = None).
  { apply (bool_decide_eq_true_2 _) in Hin. clear -Hin.
    unfold objectPrototype in Hin.
    repeat match type of Hin with
           | bool_decide (_ ∈ ?c :: _) = true =>
               destruct (decide (type = c)) as [-> | Hne];
                 [split; [discriminate | reflexivity]|];
               rewrite bool_decide_eq_true in Hin;
               apply elem_of_cons in Hin as [? | Hin]; [contradiction|];
               apply (bool_decide_eq_true_2 _) in Hin; clear Hne
           end.
    apply bool_decide_eq_true_1, elem_of_nil in Hin. contradiction. }
  destruct Htype as [Hne Hnone].
  assert (E : o = match builtin type name with
                  | Some result =>
                      Throws (set_withObjName (Given name)
                                (set_debris (<[name := result]> (debris s)) s))
                  | None => Throws s
                  end).
  { unfold o, create.
    rewrite (string_truthy_nonempty name (tested_nonempty name Htest)).
    rewrite Habsent, Htest. cbn [negb].
    rewrite (string_truthy_nonempty type Hne), Hnone. unfold read.
    rewrite (bool_decide_eq_true_2 _ Hin). reflexivity. }
  clearbody o. subst o.
  destruct (builtin type name) as [result |]; cbn.
  - split; [split; [reflexivity | split; [apply lookup_insert_eq | reflexivity]]|].
    repeat split.
  - repeat split.
Qed.

End Behaviour.

(** *** Witnesses *)


(** Witness of X2: a circle 0.8 wide, moved to abscissa 0.1 and then
    resized: [cx] is 0.1 + 0.4, which is 0.5 once rounded. *)
Lemma circle_centre_is_written_by_moves_only_witness :
  let made := Circle.create "c1" Heap.empty in
  let wide := iShape.sizeTo (fst made) (Some (Number (Some "0.8"))) None
                (snd made) in
  let c := fst wide in
  let h := snd wide in
  (Shape.class c = KCircle /\ shape_ok h c) /\
  let moved := iShape.moveTo c (Some (Number (Some "0.1"))) (Some (of_Z 20)) h in
  let sized := iShape.sizeTo (fst moved) (Some (of_Z 50)) (Some (of_Z 60))
                 (snd moved) in
  (attribute "cx" (fst sized)
     = Some (VNumber (add (Number (Some "0.1")) (half (Shape.width c h))))
   /\ Shape.width (fst sized) (snd sized) = of_Z 50)
  /\ same_number (add (Number (Some "0.1")) (half (Shape.width c h)))
                 (Number (Some "0.5")) = true.
Proof.
  intros made wide c h.
  assert (H1 : Shape.class c = KCircle) by reflexivity.
  assert (H2 : shape_ok h c) by (apply shape_ok_check; vm_compute; reflexivity).
  split; [split; assumption|].
  destruct (circle_centre_is_written_by_moves_only c h None None H1 H2)
    as (_ & _ & _ & H4).
  split; [exact (H4 (Number (Some "0.1")) (of_Z 20) (of_Z 50) (of_Z 60))|].
  vm_compute. reflexivity.
Defined.

(** Witness of X7: a second run after a run of one line. *)
Lemma first_entry_of_a_run_witness :
  let s := state_of (render sampleName "new rect r1" initial) in
  hd EmptyString (split "010" "new rect r2") <> EmptyString /\
  exists rest,
    console (state_of (render sampleName "new rect r2" s))
      = {| classLine := 1;
           shownNumber := if (lastConsoleLineNumber s =? 1)%nat
                          then None else Some 1;
           text := Echo (hd EmptyString (split "010" "new rect r2")) |} :: rest.
Proof.
  intros s.
  assert (H : hd EmptyString (split "010" "new rect r2") <> EmptyString)
    by (cbn; discriminate).
  split; [exact H|].
  exact (first_entry_of_a_run sampleName "new rect r2" s H).
Defined.

(** Witness of X8: painting a rectangle. *)
Lemma other_commands_keep_the_names_witness :
  let s := final (create sampleName (Some "r1") (Some "rect") initial) in
  existsb (String.eqb (commandWord "paint r1 red"))
          ["new"; "clone"; "remove"; "reset"] = false /\
  edits s (final (executeLine sampleName "paint r1 red" s)).
Proof.
  intros s.
  assert (H : existsb (String.eqb (commandWord "paint r1 red"))
                      ["new"; "clone"; "remove"; "reset"] = false)
    by (vm_compute; reflexivity).
  split; [exact H|].
  exact (other_commands_keep_the_names sampleName "paint r1 red" s H).
Defined.

(** Witness of X9: [wait 5] on the initial state. *)
Lemma only_wait_suspends_witness :
  let s' := final (executeLine sampleName "wait 5" initial) in
  executeLine sampleName "wait 5" initial = Returns (Some 0) s' /\
  commandWord "wait 5" = "wait".
Proof.
  intros s'.
  assert (H : executeLine sampleName "wait 5" initial = Returns (Some 0) s')
    by (vm_compute; reflexivity).
  split; [exact H|].
  exact (proj1 (only_wait_suspends sampleName "wait 5" initial s' 0 H)).
Defined.

(** Witness of X10: removing the selected rectangle. *)
Lemma selection_is_kept_witness :
  let s := final (create sampleName (Some "r1") (Some "rect") initial) in
  existsb (String.eqb (commandWord "remove r1"))
          ["new"; "clone"; "paint"; "with"; "reset"] = false /\
  withObjName (final (executeLine sampleName "remove r1" s)) = withObjName s.
Proof.
  intros s.
  assert (H : existsb (String.eqb (commandWord "remove r1"))
                      ["new"; "clone"; "paint"; "with"; "reset"] = false)
    by (vm_compute; reflexivity).
  split; [exact H|].
  exact (selection_is_kept sampleName "remove r1" s H).
Defined.

(** Witness of X11: [ab] is removed while [ab.text] is registered. *)
Lemma remove_unregisters_witness :
  let s := state_of (render sampleName
                       (script ["new rect ab"; "new text ab.text"]) initial) in
  exists shape companion,
    (attached s /\ items s !! "ab" = Some shape) /\
    items s !! ("ab" +:+ ".text") = Some companion /\
    exists s',
      remove (Some "ab") s = Returns None s'
      /\ items s' !! ("ab" +:+ ".text") = None
      /\ (Shape.node shape ∉ svg s')
      /\ Shape.node companion ∈ svg s'.
Proof.
  intros s.
  destruct (items s !! "ab") as [shape |] eqn:H2;
    [| vm_compute in H2; discriminate].
  destruct (items s !! ("ab" +:+ ".text")) as [companion |] eqn:H3;
    [| vm_compute in H3; discriminate].
  exists shape, companion.
  assert (H1 : attached s) by (apply attached_check; vm_compute; reflexivity).
  split; [split; [exact H1 | reflexivity]|]. split; [reflexivity|].
  destruct (remove_unregisters s "ab" shape H1 H2)
    as (s' & Hremove & _ & Hgone & _ & _ & _ & _ & Hsvg & Hcompanion & _).
  exists s'. split; [exact Hremove|]. split; [exact Hgone|].
  split; [exact Hsvg | exact (Hcompanion companion H3)].
Defined.

(** Witness of X13: a text with two spaces in a row. *)
Lemma write_stores_the_rest_of_the_line_witness :
  let s := final (create sampleName (Some "t1") (Some "text") initial) in
  exists shape,
    (items s !! "t1" = Some shape /\ spaceless "t1" = true
     /\ "hello  world" <> EmptyString
     /\ trimEnd "hello  world" = "hello  world") /\
    exists s' shape',
      executeLine sampleName
        (String.append "write " (String.append "t1" (String " " "hello  world"))) s
        = Returns None s'
      /\ items s' = <["t1" := shape']> (items s)
      /\ Element.textContent (Shape.domElement shape') = VString "hello  world".
Proof.
  intros s.
  destruct (items s !! "t1") as [shape |] eqn:H1;
    [| vm_compute in H1; discriminate].
  exists shape.
  assert (H2 : spaceless "t1" = true) by reflexivity.
  assert (H3 : "hello  world" <> EmptyString) by discriminate.
  assert (H4 : trimEnd "hello  world" = "hello  world") by reflexivity.
  split; [split; [reflexivity | split; [exact H2 | split; [exact H3 | exact H4]]]|].
  destruct (write_stores_the_rest_of_the_line sampleName s "t1" "hello  world"
              shape H1 H2 H3 H4)
    as (s' & shape' & Hrun & Hitems & Htext & _).
  exists s', shape'. split; [exact Hrun|]. split; [exact Hitems | exact Htext].
Defined.

(** Witness of X14: a line of three spaces. *)
Lemma white_space_is_an_invalid_command_witness :
  ("   " <> EmptyString /\ blank "   " = true
   /\ prototype initial !! EmptyString = None) /\
  executeLine sampleName "   " initial
    = Returns None
        (log (InvalidCommand EmptyString)
           (log (Echo "   ") (set_lineNumber (S (lineNumber initial)) initial))).
Proof.
  assert (H1 : "   " <> EmptyString) by discriminate.
  assert (H2 : blank "   " = true) by reflexivity.
  assert (H3 : prototype initial !! EmptyString = None) by reflexivity.
  split; [split; [exact H1 | split; [exact H2 | exact H3]]|].
  exact (proj2 (white_space_is_an_invalid_command sampleName "   " initial
                  H1 H2 H3)).
Defined.

(** Witness of X15: [new rect r1] on the initial state. *)
Lemma create_registers_a_default_shape_witness :
  (item initial "r1" = Absent
   /\ test varNamingRule "r1" = true
   /\ "rect" <> EmptyString
   /\ assoc "rect" objectTypes = Some Rectangle.create) /\
  exists s',
    create sampleName (Some "r1") (Some "rect") initial = Returns (Some "r1") s'
    /\ placed "r1" s'
       = Some (Point.mk (of_Z 0) (of_Z 0), Point.mk (of_Z 100) (of_Z 100))
    /\ withObjName s' = Given "r1".
Proof.
  assert (H1 : item initial "r1" = Absent)
    by reflexivity.
  assert (H2 : test varNamingRule "r1" = true) by (vm_compute; reflexivity).
  assert (H3 : "rect" <> EmptyString) by discriminate.
  assert (H4 : assoc "rect" objectTypes = Some Rectangle.create) by reflexivity.
  split; [split; [exact H1 | split; [exact H2 | split; [exact H3 | exact H4]]]|].
  destruct (create_registers_a_default_shape sampleName initial "r1" "rect"
              Rectangle.create H1 H2 H3 H4)
    as (s' & shape & k & Hcreate & _ & _ & _ & _ & _ & _ & _ & _ & Hplaced
        & Hsel & _).
  exists s'. split; [exact Hcreate|]. split; [exact Hplaced | exact Hsel].
Defined.

(** Witness of X16: the name [toString] on the initial state. *)
Lemma inherited_names_are_taken_witness :
  ("toString" ∈ objectPrototype /\ items initial !! "toString" = None
   /\ debris initial !! "toString" = None) /\
  remove (Some "toString") initial = Throws initial.
Proof.
  assert (H1 : "toString" ∈ objectPrototype)
    by (apply (bool_decide_unpack _); vm_compute; exact I).
  assert (H2 : items initial !! "toString" = None) by reflexivity.
  assert (H3 : debris initial !! "toString" = None) by reflexivity.
  split; [split; [exact H1 | split; [exact H2 | exact H3]]|].
  destruct (inherited_names_are_taken sampleName initial "toString" H1 H2 H3)
    as (_ & _ & Hremove & _).
  exact Hremove.
Defined.

(** Witness of X17: [clone r1] after [new rect r1]. *)
Lemma clone_without_a_target_witness :
  let s := final (create sampleName (Some "r1") (Some "rect") initial) in
  exists from,
    (shape_ok (heap s) from /\ items s !! "r1" = Some from
     /\ item s (sampleName (generated s)) = Absent
     /\ test varNamingRule (sampleName (generated s)) = true) /\
    exists s',
      clone sampleName (Some "r1") None s
        = Returns (Some (sampleName (generated s))) s'
      /\ withObjName s' = Undefined.
Proof.
  intros s.
  destruct (items s !! "r1") as [from |] eqn:H2;
    [| vm_compute in H2; discriminate].
  exists from.
  assert (Hok : registry_ok s)
    by (apply registry_ok_check; vm_compute; reflexivity).
  assert (H1 : shape_ok (heap s) from) by (apply (proj1 Hok "r1" from H2)).
  assert (H3 : item s (sampleName (generated s)) = Absent)
    by (vm_compute; reflexivity).
  assert (H4 : test varNamingRule (sampleName (generated s)) = true)
    by (vm_compute; reflexivity).
  split; [split; [exact H1 | split; [reflexivity | split; [exact H3 | exact H4]]]|].
  destruct (clone_without_a_target sampleName s "r1" from H1 H2 H3 H4)
    as (s' & s1 & Hclone & _ & _ & Hsel & _).
  exists s'. split; [exact Hclone | exact Hsel].
Defined.

(** Witness of X18: [size r1 1e400 1e-400] after [new rect r1]: the
    extent stored is (Infinity, 0). *)
Lemma placing_commands_witness :
  let s := final (create sampleName (Some "r1") (Some "rect") initial) in
  let args := ["1e400"; "1e-400"] in
  exists shape,
    (registry_ok s /\ items s !! "r1" = Some shape) /\
    placed "r1" (final (dispatch sampleName ("size" :: "r1" :: args) s))
      = Some (Heap.get (heap s) (Shape.point0 shape),
              Point.mk (Number (args !! 0)) (Number (args !! 1)))
    /\ Number (args !! 0) = Infinity false
    /\ same_number (Number (args !! 1)) (of_Z 0) = true.
Proof.
  intros s args.
  destruct (items s !! "r1") as [shape |] eqn:H2;
    [| vm_compute in H2; discriminate].
  exists shape.
  assert (H1 : registry_ok s)
    by (apply registry_ok_check; vm_compute; reflexivity).
  split; [split; [exact H1 | reflexivity]|].
  destruct (placing_commands sampleName s "r1" shape args H1 H2)
    as (_ & _ & _ & _ & Hsize & _).
  split; [exact Hsize|]. split; vm_compute; reflexivity.
Defined.

(** Witness of X19: [outline r1 blue 1e-400] on a rectangle whose stroke
    is red and 3 wide: the stroke becomes blue and 1 wide. *)
Lemma outline_command_witness :
  let s := state_of (render sampleName
                       (script ["new rect r1"; "outline r1 red 3"]) initial) in
  let args := ["blue"; "1e-400"] in
  exists shape,
    items s !! "r1" = Some shape /\
    (Stroke.color (Shape.stroke shape) = "red"
     /\ same_number (Stroke.width (Shape.stroke shape)) (of_Z 3) = true
     /\ number_truthy (Number (args !! 1)) = false) /\
    exists s' shape',
      dispatch sampleName ("outline" :: "r1" :: args) s = Returns None s'
      /\ items s' = <["r1" := shape']> (items s)
      /\ Shape.stroke shape'
         = Stroke.mk (match args !! 0 with Some c => c | None => "transparent" end)
                     (if number_truthy (Number (args !! 1))
                      then Number (args !! 1) else of_Z 1).
Proof.
  intros s args.
  assert (H0 : match items s !! "r1" with
               | Some shape =>
                   Stroke.color (Shape.stroke shape) = "red"
                   /\ same_number (Stroke.width (Shape.stroke shape)) (of_Z 3)
                      = true
               | None => False
               end)
    by (vm_compute; split; reflexivity).
  destruct (items s !! "r1") as [shape |] eqn:H1; [| contradiction].
  exists shape. split; [reflexivity|].
  split; [split; [exact (proj1 H0) | split; [exact (proj2 H0)|]]|].
  { vm_compute. reflexivity. }
  destruct (outline_command sampleName s "r1" shape args H1)
    as (s' & shape' & Hrun & Hitems & Hstroke & _).
  exists s', shape'. split; [exact Hrun|]. split; [exact Hitems | exact Hstroke].
Defined.

(** Witness of X21: painting a name that was never created. *)
Lemma unknown_names_are_reported_witness :
  item initial (to_key (Some "r1")) = Absent /\
  paint (Some "r1") (Some "red") initial
    = Returns None (log (NoObjectCalled (to_key (Some "r1"))) initial).
Proof.
  assert (H : item initial (to_key (Some "r1")) = Absent) by reflexivity.
  split; [exact H|].
  exact (proj1 (unknown_names_are_reported sampleName initial (Some "r1") H)
               (Some "red")).
Defined.

(** Witness of X22: a name of one letter, which the pattern refuses. *)
Lemma create_refusals_witness :
  (item initial "a" = Absent
   /\ "a" <> EmptyString /\ test varNamingRule "a" = false) /\
  create sampleName (Some "a") (Some "rect") initial
    = Returns None (log NameMustStartWithLetter initial).
Proof.
  assert (H1 : item initial "a" = Absent)
    by reflexivity.
  assert (H2 : "a" <> EmptyString) by discriminate.
  assert (H3 : test varNamingRule "a" = false) by (vm_compute; reflexivity).
  split; [split; [exact H1 | split; [exact H2 | exact H3]]|].
  exact (proj1 (proj1 (create_refusals sampleName initial "a" H1 H2) H3
                  (Some "rect"))).
Defined.

(** Witness of X23: [new toString x1] on the initial state. *)
Lemma create_with_an_inherited_type_witness :
  (item initial "x1" = Absent /\ test varNamingRule "x1" = true
   /\ "toString" ∈ objectPrototype) /\
  let o := create sampleName (Some "x1") (Some "toString") initial in
  match builtin "toString" "x1" with
  | Some result =>
      o = Throws (set_withObjName (Given "x1")
                    (set_debris (<["x1" := result]> (debris initial)) initial))
      /\ debris (final o) !! "x1" = Some result
      /\ withObjName (final o) = Given "x1"
  | None => o = Throws initial
  end.
Proof.
  assert (H1 : item initial "x1" = Absent) by reflexivity.
  assert (H2 : test varNamingRule "x1" = true) by (vm_compute; reflexivity).
  assert (H3 : "toString" ∈ objectPrototype)
    by (apply (bool_decide_unpack _); vm_compute; exact I).
  split; [split; [exact H1 | split; [exact H2 | exact H3]]|].
  exact (proj1 (create_with_an_inherited_type sampleName initial "x1" "toString"
                  H1 H2 H3)).
Defined.

(** *** Examples *)

(** Numbers as the machine has them: [1e-400] is zero and [1e400] is
    Infinity; 9007199254740993 is halfway between two values and goes to
    the even one; 0.1 + 0.2 is 0.30000000000000004 and not 0.3; and
    1.0000000000000000001 is 1. *)
Example binary64_numbers :
  same_number (Number (Some "1e-400")) (of_Z 0) = true
  /\ Number (Some "1e400") = Infinity false
  /\ same_number (Number (Some "9007199254740993")) (of_Z 9007199254740992)
     = true
  /\ same_number (add (Number (Some "0.1")) (Number (Some "0.2")))
                 (Number (Some "0.30000000000000004")) = true
  /\ same_number (add (Number (Some "0.1")) (Number (Some "0.2")))
                 (Number (Some "0.3")) = false
  /\ gt (Number (Some "1.0000000000000000001")) (of_Z 1) = false.
Proof. repeat split; vm_compute; reflexivity. Qed.

(** [wait 1e-400] arms a timeout of 1000 ms. *)
Example wait_of_a_count_that_rounds_to_zero :
  exists t,
    armedBy (wait (Some "1e-400") None initial) = Some t
    /\ same_number (delay t) (of_Z 1000) = true.
Proof. eexists. split; vm_compute; reflexivity. Qed.

(** An element that no name leads to: [remove ab] deletes the entry of
    [ab.text] and leaves its element, node 1, on the surface; the second
    [ab.text] has an element of its own, node 2, and removing it leaves
    node 1 where it was. *)
Example an_element_left_on_the_surface :
  let s := state_of (render sampleName
                       (script ["new rect ab"; "new text ab.text"; "remove ab";
                                "new text ab.text"; "remove ab.text"])
                       initial) in
  map_to_list (items s) = [] /\ svg s = [1].
Proof. split; vm_compute; reflexivity. Qed.
